(** * Sage Stocks: the deduplicating, priority-ordered, chunked scheduler

    A shallow embedding of
      - [lib/orchestration/orchestrator.ts]   (queue builder, execution engine)
      - [lib/orchestration/queue-storage.ts]  (checkpointed queue store)
      - [lib/shared/error-handler.ts]         (error/status reporter)
      - [api/cron/scheduled-analyses.ts]      (timer-triggered entry point)
    followed by the properties of the scheduler proved about it.

    Conventions.  JavaScript numbers that the scheduler computes are
    integers or one of the special values, so [number] carries [Z] plus
    [Infinity], [-Infinity] and [NaN].  An insertion-ordered [Map] is an
    association list.  Calls that leave the process (Notion, the analysis
    engine, the Redis REST endpoint) are answered by oracle records; every
    such call is written to a trace of [Event]s, and the state of the
    outside world (page statuses, history records) is the replay of that
    trace. *)

From Stdlib Require Import ZArith List String Ascii Bool Lia Permutation Sorted.
From stdpp Require Import base tactics option list gmap strings pretty.

Open Scope string_scope.
Open Scope list_scope.
Open Scope Z_scope.

(* ===================================================================== *)
(** * Part I.  The model                                                  *)
(* ===================================================================== *)

(** ** JavaScript values used by the scheduler *)

Module JS.

(** A JavaScript number, restricted to what this code produces. *)
Inductive number : Type :=
| Num (z : Z)
| PosInfinity
| NegInfinity
| NaN.

#[global] Instance number_eq_dec : EqDecision number.
Proof. solve_decision. Defined.

(** [a - b] *)
Definition sub (a b : number) : number :=
  match a, b with
  | NaN, _ | _, NaN => NaN
  | Num x, Num y => Num (x - y)
  | PosInfinity, PosInfinity | NegInfinity, NegInfinity => NaN
  | PosInfinity, _ | _, NegInfinity => PosInfinity
  | NegInfinity, _ | _, PosInfinity => NegInfinity
  end.

(** [Math.min(a, b)]: [NaN] is contagious. *)
Definition min2 (a b : number) : number :=
  match a, b with
  | NaN, _ | _, NaN => NaN
  | NegInfinity, _ | _, NegInfinity => NegInfinity
  | PosInfinity, x | x, PosInfinity => x
  | Num x, Num y => Num (Z.min x y)
  end.

(** [Math.min(...l)]; with no argument the result is [Infinity]. *)
Definition Math_min (l : list number) : number := foldr min2 PosInfinity l.

(** [n > 0], the test the sort applies to a comparator's result
    (a [NaN] result counts as [+0]). *)
Definition positive (n : number) : bool :=
  match n with
  | Num z => 0 <? z
  | PosInfinity => true
  | NegInfinity | NaN => false
  end.

(** Truthiness of a number: [0] and [NaN] are falsy. *)
Definition truthy (n : number) : bool :=
  match n with
  | Num z => negb (z =? 0)
  | PosInfinity | NegInfinity => true
  | NaN => false
  end.

(** The order of the numbers that are not [NaN]. *)
Definition le (a b : number) : Prop :=
  match a, b with
  | NaN, _ | _, NaN => False
  | NegInfinity, _ | _, PosInfinity => True
  | Num x, Num y => (x <= y)%Z
  | _, _ => False
  end.

(** [Array.prototype.sort(cmp)].  The sort is stable, and on a consistent
    comparator the language fixes its result, which this insertion sort
    computes: [insert a l] puts [a] in front of the first element it does
    not exceed, so that equal elements keep their order.  On a comparator
    that is not consistent (here: one that answers [NaN] for some pairs)
    the language leaves the order to the engine, and the order the engine
    takes is not modelled; statements about the order of such a sort are
    made only where the comparator is consistent ([plain_tiers] below). *)
Section Sort.
Context {A : Type} (cmp : A -> A -> number).

Fixpoint insert (a : A) (l : list A) : list A :=
  match l with
  | [] => [a]
  | y :: l' => if positive (cmp a y) then y :: insert a l' else a :: y :: l'
  end.

Definition Array_sort (l : list A) : list A := foldr insert [] l.
End Sort.

(** An insertion-ordered [Map<string, V>]. *)
Abbreviation Map V := (list (string * V)) (only parsing).

Section MapOps.
Context {V : Type}.

Fixpoint Map_get (m : Map V) (k : string) : option V :=
  match m with
  | [] => None
  | (k', v) :: m' => if decide (k' = k) then Some v else Map_get m' k
  end.

Definition Map_has (m : Map V) (k : string) : bool :=
  match Map_get m k with Some _ => true | None => false end.

(** [m.set(k, v)]: an existing key keeps its place, a new key goes last. *)
Fixpoint Map_set (m : Map V) (k : string) (v : V) : Map V :=
  match m with
  | [] => [(k, v)]
  | (k', v') :: m' =>
      if decide (k' = k) then (k', v) :: m' else (k', v') :: Map_set m' k v
  end.

End MapOps.

(** [s.includes(sub)] *)
Fixpoint includes (s sub : string) : bool :=
  if String.prefix sub s then true
  else match s with
       | EmptyString => false
       | String _ s' => includes s' sub
       end.

(** [a || d] on a possibly missing string: the empty string is falsy. *)
Definition or_else (a : option string) (d : string) : string :=
  match a with
  | Some s => if decide (s = "") then d else s
  | None => d
  end.

Definition falsy (a : option string) : bool :=
  match a with
  | Some s => bool_decide (s = "")
  | None => true
  end.

(** What the code observes of a [Date]: its ISO-8601 rendering and the
    local day of the week. *)
Record Date : Type := mkDate { toISOString : string; getDay : Z }.

#[global] Instance Date_eq_dec : EqDecision Date.
Proof. solve_decision. Defined.

(** The string methods of the runtime that normalise a ticker. *)
Class StringRuntime : Type := {
  toUpperCase : string -> string;
  trim : string -> string
}.

End JS.

Import JS.

(** ** [lib/orchestration/orchestrator.ts]: data *)

Record Subscriber : Type := mkSubscriber {
  userId : string;
  email : string;
  tier : string;
  pageId : string;
  accessToken : string;
  notionUserId : string;
  timezone : string;
  stockAnalysesDbId : string;
  stockHistoryDbId : string
}.

#[global] Instance Subscriber_eq_dec : EqDecision Subscriber.
Proof. solve_decision. Defined.

Record QueueItem : Type := mkQueueItem {
  ticker : string;
  priority : number;
  subscribers : list Subscriber;
  requestedAt : Date
}.

#[global] Instance QueueItem_eq_dec : EqDecision QueueItem.
Proof. solve_decision. Defined.

(** The user record of [lib/core/auth], as far as the collector reads it. *)
Record User : Type := mkUser {
  user_id : string;
  user_email : string;
  user_subscriptionTier : option string;
  user_accessToken : string;
  user_notionUserId : string;
  user_timezone : option string;
  user_stockAnalysesDbId : option string;
  user_stockHistoryDbId : option string
}.

(** A page returned by the "Analysis Cadence = Daily" query:
    [page.id], whether it has [properties], and
    [properties.Ticker?.title?.[0]?.text?.content]. *)
Record Page : Type := mkPage {
  page_id : string;
  page_has_properties : bool;
  page_ticker_content : option string
}.

(** The Notion calls of the collector.  [None] is a rejected promise. *)
Class CollectorAPI : Type := {
  decryptToken : string -> option string;
  (** [databases.retrieve]: [data_sources?.[0]?.id] *)
  retrieve_dataSourceId : string -> string -> option (option string);
  (** the paginated [dataSources.query] loop: [allResults] *)
  query_allResults : string -> string -> option (list Page)
}.

(** ** Step 1: [collectStockRequests] *)

Section Collect.
Context `{StringRuntime} `{CollectorAPI}.

Definition new_subscriber (user : User) (userAccessToken : string) (page : Page)
  : Subscriber :=
  {| userId := user_id user;
     email := user_email user;
     tier := or_else (user_subscriptionTier user) "Free";
     pageId := page_id page;
     accessToken := userAccessToken;
     notionUserId := user_notionUserId user;
     timezone := or_else (user_timezone user) "America/Los_Angeles";
     stockAnalysesDbId := or_else (user_stockAnalysesDbId user) "";
     stockHistoryDbId := or_else (user_stockHistoryDbId user) "" |}.

(** The body of [for (const page of allResults)]. *)
Definition add_page (user : User) (userAccessToken : string)
    (tickerMap : Map (list Subscriber)) (page : Page) : Map (list Subscriber) :=
  if negb (page_has_properties page) then tickerMap
  else
    let ticker := or_else (page_ticker_content page) "" in
    if decide (ticker = "") then tickerMap
    else
      let tickerUpper := trim (toUpperCase ticker) in
      let tickerMap :=
        if Map_has tickerMap tickerUpper then tickerMap
        else Map_set tickerMap tickerUpper [] in
      match Map_get tickerMap tickerUpper with
      | Some subs =>
          Map_set tickerMap tickerUpper
            (subs ++ [new_subscriber user userAccessToken page])
      | None => tickerMap
      end.

(** What the user's try block fetches before the page loop: [None] when the
    user is skipped or an exception takes the catch branch. *)
Definition fetch_user (user : User) : option (string * list Page) :=
  if falsy (user_stockAnalysesDbId user) then None
  else
    userAccessToken ← decryptToken (user_accessToken user);
    dataSourceId ← retrieve_dataSourceId userAccessToken
                     (or_else (user_stockAnalysesDbId user) "");
    if falsy dataSourceId then None
    else
      allResults ← query_allResults userAccessToken (or_else dataSourceId "");
      Some (userAccessToken, allResults).

(** The body of [for (const user of users)]. *)
Definition collect_user (tickerMap : Map (list Subscriber)) (user : User)
  : Map (list Subscriber) :=
  match fetch_user user with
  | Some (userAccessToken, allResults) =>
      foldl (add_page user userAccessToken) tickerMap allResults
  | None => tickerMap
  end.

Definition collectStockRequests (users : list User) : Map (list Subscriber) :=
  foldl collect_user [] users.

(** The per-tenant requests, as the specification speaks of them: every
    (normalised subject, subscriber) pair that a successfully queried
    tenant asks for, in collection order. *)
Definition page_request (user : User) (userAccessToken : string) (page : Page)
  : list (string * Subscriber) :=
  if page_has_properties page then
    let ticker := or_else (page_ticker_content page) "" in
    if decide (ticker = "") then []
    else [(trim (toUpperCase ticker), new_subscriber user userAccessToken page)]
  else [].

Definition user_requests (user : User) : list (string * Subscriber) :=
  match fetch_user user with
  | Some (userAccessToken, allResults) =>
      allResults ≫= page_request user userAccessToken
  | None => []
  end.

Definition requests (users : list User) : list (string * Subscriber) :=
  users ≫= user_requests.

(** What the page loop does to the map for one request. *)
Definition add_request (tickerMap : Map (list Subscriber))
    (r : string * Subscriber) : Map (list Subscriber) :=
  let tickerMap :=
    if Map_has tickerMap r.1 then tickerMap else Map_set tickerMap r.1 [] in
  match Map_get tickerMap r.1 with
  | Some subs => Map_set tickerMap r.1 (subs ++ [r.2])
  | None => tickerMap
  end.

(** The subscribers of all tenants that requested subject [k]. *)
Definition requested_by (users : list User) (k : string) : list Subscriber :=
  (filter (λ r, r.1 = k) (requests users)).*2.
End Collect.

(** ** Step 2: [buildPriorityQueue] *)

Definition TIER_PRIORITY : list (string * Z) :=
  [("Pro", 1); ("Analyst", 2); ("Starter", 3); ("Free", 4)].

(** [TIER_PRIORITY] is an object literal, so a property read that misses its
    own keys goes on to [Object.prototype]. *)
Definition Object_prototype_properties : list string :=
  ["constructor"; "__defineGetter__"; "__defineSetter__"; "hasOwnProperty";
   "__lookupGetter__"; "__lookupSetter__"; "isPrototypeOf";
   "propertyIsEnumerable"; "toString"; "valueOf"; "__proto__";
   "toLocaleString"].

Inductive property : Type :=
| Own (n : Z)        (* one of the four numbers *)
| Inherited          (* a function or object inherited from the prototype *)
| Undefined.

(** [TIER_PRIORITY[k]] *)
Definition TIER_PRIORITY_get (k : string) : property :=
  match Map_get TIER_PRIORITY k with
  | Some n => Own n
  | None =>
      if bool_decide (k ∈ Object_prototype_properties) then Inherited
      else Undefined
  end.

(** [TIER_PRIORITY[s.tier] || 99], converted to a number by [Math.min]:
    an inherited function or object is truthy and converts to [NaN]. *)
Definition tier_index (s : Subscriber) : number :=
  match TIER_PRIORITY_get (tier s) with
  | Own n => if n =? 0 then Num 99 else Num n
  | Inherited => NaN
  | Undefined => Num 99
  end.

Definition by_priority (a b : QueueItem) : number :=
  sub (priority a) (priority b).

(** The item pushed for one entry of the ticker map. *)
Definition new_item (now : Date) (entry : string * list Subscriber) : QueueItem :=
  {| ticker := entry.1;
     priority := Math_min (tier_index <$> entry.2);
     subscribers := entry.2;
     requestedAt := now |}.

Definition buildPriorityQueue (now : Date) (tickerMap : Map (list Subscriber))
  : list QueueItem :=
  Array_sort by_priority (new_item now <$> tickerMap).

(** ** The outside world of the execution engine *)

Inductive Status : Type := Analyzing | Complete | Error.

#[global] Instance Status_eq_dec : EqDecision Status.
Proof. solve_decision. Defined.

(** The fields of [AnalysisResult] that the scheduler reads. *)
Record AnalysisResult : Type := mkAnalysisResult {
  success : bool;
  result_ticker : string;
  error : option string
}.

(** The market snapshot shared by a cycle; the engine reads [regime]. *)
Record MarketContext : Type := mkMarketContext {
  regime : string;
  snapshot : string
}.

#[global] Instance MarketContext_eq_dec : EqDecision MarketContext.
Proof. solve_decision. Defined.

(** [ErrorContext] of [lib/shared/error-handler.ts]. *)
Inductive ErrorType : Type :=
| analysis_failed | sync_failed | api_error | broadcast_failed | timeout | unknown.

Record ErrorContext : Type := mkErrorContext {
  ctx_ticker : string;
  ctx_userEmail : option string;
  ctx_timestamp : Date;
  ctx_errorType : ErrorType;
  ctx_phase : option string
}.

(** An outcome of a call that can reject. *)
Inductive Result (A : Type) : Type :=
| Ok (a : A)
| Throw (message : string).
Arguments Ok {A} a.
Arguments Throw {A} message.

(** Every call that leaves the process, with its outcome. *)
Inductive Event : Type :=
| LogProcessing (index : Z) (ticker : string)
    (* console: "[i+1/n] Processing <ticker>" *)
| PageUpdate (page : string) (status : Status) (notes : option string) (ok : bool)
    (* notion.pages.update on a subscriber's page *)
| Analyze (ticker : string) (attempt : nat)
| Sync (page : string) (attempt : nat)
| Archive (user page : string) (created : option string)
| Delay (ms : number)
| NotifyAdmin (ticker : string) (errorType : ErrorType) (message : string)
| ReportBug (ticker : string).

(** The answers of the collaborators, per subscriber (whose token and page
    the call carries) and per attempt where the code retries. *)
Class EngineAPI : Type := {
  (** [analyzeStockCore], called with the first subscriber's credentials *)
  analyzeStockCore : string -> Subscriber -> nat -> Result AnalysisResult;
  validateAnalysisComplete : AnalysisResult -> bool;
  (** does [pages.update] of the Status property succeed? *)
  pages_update : Subscriber -> Status -> bool;
  (** [syncToNotion(..).analysesPageId] *)
  syncToNotion : Subscriber -> string -> nat -> Result (option string);
  (** [archiveToHistory(pageId, regime)] *)
  archiveToHistory : Subscriber -> option string -> Result (option string)
}.

(** Environment configuration of the engine. *)
Class EngineConfig : Type := {
  ANALYSIS_DELAY_MS : Z;
  DRY_RUN : bool
}.

(** What a queue item offers to the engine; a freshly built [QueueItem] and
    an item parsed back from the store both do. *)
Class QueueItemLike (I : Type) : Type := {
  item_ticker : I -> string;
  item_subscribers : I -> list Subscriber
}.

#[global] Instance QueueItem_like : QueueItemLike QueueItem :=
  {| item_ticker := ticker; item_subscribers := subscribers |}.

(** *** Computations that emit events and may throw *)

Definition Comp (A : Type) : Type := list Event * Result A.

Definition ret {A} (a : A) : Comp A := ([], Ok a).
Definition throw {A} (message : string) : Comp A := ([], Throw message).
Definition emit (e : Event) : Comp unit := ([e], Ok tt).

Definition bind {A B} (c : Comp A) (f : A -> Comp B) : Comp B :=
  match c with
  | (es, Ok a) => let '(es', r) := f a in (es ++ es', r)
  | (es, Throw message) => (es, Throw message)
  end.

(** [try { c } catch (e) { h e }] *)
Definition try_catch {A} (c : Comp A) (h : string -> Comp A) : Comp A :=
  match c with
  | (es, Ok a) => (es, Ok a)
  | (es, Throw message) => let '(es', r) := h message in (es ++ es', r)
  end.

Declare Scope comp_scope.
Delimit Scope comp_scope with comp.
Notation "x <- c1 ;; c2" := (bind c1 (λ x, c2))
  (at level 100, c1 at next level, right associativity) : comp_scope.
Notation "c1 ;; c2" := (bind c1 (λ _, c2))
  (at level 100, right associativity) : comp_scope.
Open Scope comp_scope.

(** [Promise.allSettled(tasks)]: every task runs to its own outcome and the
    outcomes are collected in order; the join itself never rejects.  The
    tasks are run here one after the other in array order, which is one of
    the schedules of the event loop; each task of the engine touches only
    its own subscriber's page. *)
Fixpoint allSettled {A} (tasks : list (Comp A)) : Comp (list (Result A)) :=
  match tasks with
  | [] => ret []
  | task :: tasks' =>
      let '(es, r) := task in
      let '(es', rs) := allSettled tasks' in
      (es ++ es', match rs with
                  | Ok rs => Ok (r :: rs)
                  | Throw message => Throw message
                  end)
  end.

Definition fulfilled {A} (r : Result A) : bool :=
  match r with Ok _ => true | Throw _ => false end.

(** The state of the outside world is the replay of the trace. *)
Record ArchiveRecord : Type := mkArchiveRecord {
  archive_user : string;
  archive_page : string;
  archive_id : string
}.

Record World : Type := mkWorld {
  page_status : gmap string Status;
  history : list ArchiveRecord
}.

Definition apply_event (w : World) (e : Event) : World :=
  match e with
  | PageUpdate page st _ true =>
      {| page_status := <[page := st]> (page_status w); history := history w |}
  | Archive user page (Some id) =>
      {| page_status := page_status w;
         history := history w ++ [mkArchiveRecord user page id] |}
  | _ => w
  end.

Definition replay (w : World) (es : list Event) : World := foldl apply_event w es.

Definition empty_world : World := {| page_status := ∅; history := [] |}.

(** ** [lib/shared/error-handler.ts] *)

Definition ErrorType_name (t : ErrorType) : string :=
  match t with
  | analysis_failed => "analysis_failed"
  | sync_failed => "sync_failed"
  | api_error => "api_error"
  | broadcast_failed => "broadcast_failed"
  | timeout => "timeout"
  | unknown => "unknown"
  end.

Definition newline : string := String (ascii_of_nat 10) EmptyString.

Definition formattedError (errorMessage : string) (context : ErrorContext) : string :=
  "[" +:+ toISOString (ctx_timestamp context) +:+ "] Analysis failed for "
  +:+ ctx_ticker context +:+ newline +:+ "Type: "
  +:+ ErrorType_name (ctx_errorType context)
  +:+ (match ctx_phase context with
       | Some phase => if decide (phase = "") then "" else newline +:+ "Phase: " +:+ phase
       | None => ""
       end)
  +:+ newline +:+ "Error: " +:+ errorMessage.

Section ErrorHandler.
Context `{EngineAPI}.

(** [notion.pages.update] of a subscriber's page. *)
Definition update_page (s : Subscriber) (st : Status) (notes : option string)
  : Comp unit :=
  let ok := pages_update s st in
  emit (PageUpdate (pageId s) st notes ok);;
  if ok then ret tt else throw "pages.update failed".

(** [setAnalysisError(notionClient, pageId, error, context)], the client
    and the page being the subscriber's.  It never throws. *)
Definition setAnalysisError (s : Subscriber) (errorMessage : string)
    (context : ErrorContext) : Comp unit :=
  try_catch
    (update_page s Error
       (Some (String.substring 0 2000 (formattedError errorMessage context)));;
     emit (NotifyAdmin (ctx_ticker context) (ctx_errorType context) errorMessage))
    (λ updateError,
       emit (NotifyAdmin (ctx_ticker context) unknown
               ("Failed to set error state: " +:+ updateError))).
End ErrorHandler.

(** ** Step 3: the execution engine of [orchestrator.ts] *)

(** [isGeminiRateLimitError] *)
Definition isGeminiRateLimitError (error : option string) : bool :=
  match error with
  | None => false
  | Some error =>
      if decide (error = "") then false
      else (includes error "503" && includes error "overloaded")
           || (includes error "429" && includes error "quota")
  end.

(** The longest prefix of [s] made of characters in [p], and the rest. *)
Fixpoint span (p : ascii -> bool) (s : string) : string * string :=
  match s with
  | EmptyString => (EmptyString, EmptyString)
  | String c s' =>
      if p c then let '(run, rest) := span p s' in (String c run, rest)
      else (EmptyString, s)
  end.

Definition is_digit (c : ascii) : bool :=
  let n := nat_of_ascii c in ((48 <=? n) && (n <=? 57))%nat.

Definition is_digit_or_dot (c : ascii) : bool :=
  is_digit c || bool_decide (c = "."%char).

Definition drop_string (n : nat) (s : string) : string :=
  String.substring n (String.length s - n) s.

(** [/Please retry in ([\d.]+)s/] anchored at the start of [s]: the greedy
    group is the whole run of digits and dots, and an "s" must follow it. *)
Definition match_retry_here (s : string) : option string :=
  if String.prefix "Please retry in " s then
    let '(run, rest) := span is_digit_or_dot (drop_string 16 s) in
    if decide (run = "") then None
    else match rest with
         | String "s"%char _ => Some run
         | _ => None
         end
  else None.

(** The first match of the pattern in [s]: its capture group. *)
Fixpoint match_retry (s : string) : option string :=
  match match_retry_here s with
  | Some run => Some run
  | None =>
      match s with
      | EmptyString => None
      | String _ s' => match_retry s'
      end
  end.

Fixpoint digits_value (acc : Z) (s : string) : Z :=
  match s with
  | EmptyString => acc
  | String c s' => digits_value (10 * acc + Z.of_nat (nat_of_ascii c - 48)) s'
  end.

Fixpoint all_zero (s : string) : bool :=
  match s with
  | EmptyString => true
  | String c s' => bool_decide (c = "0"%char) && all_zero s'
  end.

(** [Math.ceil(x)] for the binary64 number [x] that is nearest to the
    quotient [n / d] of two integers, [0 ≤ n] and [0 < d], ties going to the
    even significand.
    - Below 1 the quotient becomes 0 when it is at most half the least
      positive number, [2^-1074], and a number in (0, 1] otherwise.
    - From 1 up to [2^52], with [k] the integer part and [2^e ≤ k < 2^(e+1)],
      the numbers next to [k] lie [2^(e-52)] apart and [k] has an even
      significand: the quotient becomes [k] when it exceeds [k] by at most
      [2^(e-53)], and a number in (k, k+1] otherwise.
    - From [2^52] on every binary64 number is an integer, a multiple of
      [ulp = 2^(e-52)]; the quotient goes to the nearest multiple, and to
      [Infinity] when that is [2^1024] or more. *)
Definition ceil_binary64 (n d : Z) : number :=
  if n <? d then
    if n * 2 ^ 1075 <=? d then Num 0 else Num 1
  else
    let k := n / d in
    let e := Z.log2 k in
    if e <? 52 then
      if (n - k * d) * 2 ^ (53 - e) <=? d then Num k else Num (k + 1)
    else
      let ulp := 2 ^ (e - 52) in
      let q := n / (d * ulp) in
      let r := n - q * (d * ulp) in
      let q' := if (2 * r <? d * ulp) || ((2 * r =? d * ulp) && Z.even q)
                then q else q + 1 in
      if 2 ^ 1024 <=? q' * ulp then PosInfinity else Num (q' * ulp).

(** [Math.ceil(parseFloat(run))] for a run of digits and dots: [parseFloat]
    reads the longest prefix "d*", "d*.d*" with a digit somewhere, takes the
    binary64 number nearest to that decimal, and gives [NaN] when there is
    no digit. *)
Definition ceil_parseFloat (run : string) : number :=
  let '(int_part, rest) := span is_digit run in
  let frac :=
    match rest with
    | String "."%char rest' => fst (span is_digit rest')
    | _ => EmptyString
    end in
  if decide (int_part = "" ∧ frac = "") then NaN
  else ceil_binary64 (digits_value 0 (int_part +:+ frac))
                     (10 ^ Z.of_nat (String.length frac)).

(** [extractRetryAfter]: [Math.min(Math.ceil(seconds), 60)]. *)
Definition extractRetryAfter (error : option string) : option number :=
  match error with
  | None => None
  | Some error =>
      if decide (error = "") then None
      else match match_retry error with
           | Some run => Some (min2 (ceil_parseFloat run) (Num 60))
           | None => None
           end
  end.

Definition backoffDelays : list Z := [2000; 4000; 8000].

(** [n * 1000] *)
Definition times_1000 (n : number) : number :=
  match n with
  | Num z => Num (z * 1000)
  | other => other
  end.

(** [retryAfterSeconds ? retryAfterSeconds * 1000 : backoffDelays[attempt]];
    an index past the schedule reads [undefined], which the timer takes as
    [NaN]. *)
Definition retry_delay (error : option string) (attempt : nat) : number :=
  let scheduled :=
    match backoffDelays !! attempt with
    | Some ms => Num ms
    | None => NaN
    end in
  match extractRetryAfter error with
  | Some retryAfterSeconds =>
      if truthy retryAfterSeconds then times_1000 retryAfterSeconds else scheduled
  | None => scheduled
  end.

Record OrchestratorMetrics : Type := mkMetrics {
  totalTickers : Z;
  totalSubscribers : Z;
  analyzed : Z;
  failed : Z;
  skipped : Z;
  totalBroadcasts : Z;
  successfulBroadcasts : Z;
  failedBroadcasts : Z;
  apiCallsSaved : Z
  (* durationMs: wall-clock time is not modelled *)
}.

(** [queue[i]] *)
Definition at_index {A} (l : list A) (i : Z) : option A :=
  if i <? 0 then None else l !! Z.to_nat i.

Section Engine.
Context `{EngineAPI} `{EngineConfig} {I : Type} `{QueueItemLike I}.
Variable now : Date.

(** The result built in the catch block of [analyzeWithRetry]. *)
Definition exception_result (item : I) (message : string) : AnalysisResult :=
  {| success := false; result_ticker := item_ticker item; error := Some message |}.

(** The retry loop of [analyzeWithRetry], [fuel] iterations from
    [attempt] on. *)
Fixpoint analyzeWithRetry_from (item : I) (maxRetries fuel attempt : nat)
  : Comp AnalysisResult :=
  match fuel with
  | O => throw "Unexpected: retry loop completed without return"
  | S fuel' =>
      match item_subscribers item with
      | [] =>
          (* firstSubscriber is undefined; reading it throws into the catch *)
          emit (ReportBug (item_ticker item));;
          ret (exception_result item
                 "Cannot read properties of undefined (reading 'accessToken')")
      | firstSubscriber :: _ =>
          emit (Analyze (item_ticker item) attempt);;
          match analyzeStockCore (item_ticker item) firstSubscriber attempt with
          | Ok result =>
              if success result || negb (isGeminiRateLimitError (error result))
              then ret result
              else if (attempt <? maxRetries - 1)%nat then
                emit (Delay (retry_delay (error result) attempt));;
                analyzeWithRetry_from item maxRetries fuel' (S attempt)
              else ret result
          | Throw message =>
              emit (ReportBug (item_ticker item));;
              ret (exception_result item message)
          end
      end
  end.

Definition analyzeWithRetry (item : I) (maxRetries : nat) : Comp AnalysisResult :=
  analyzeWithRetry_from item maxRetries maxRetries 0.

(** The retry loop of [broadcastToUser]. *)
Fixpoint broadcastToUser_from (subscriber : Subscriber)
    (analysisResult : AnalysisResult) (maxRetries fuel attempt : nat) : Comp unit :=
  match fuel with
  | O => ret tt
  | S fuel' =>
      emit (Sync (pageId subscriber) attempt);;
      let synced :=
        match syncToNotion subscriber (result_ticker analysisResult) attempt with
        | Ok analysesPageId =>
            if falsy analysesPageId
            then Throw "Sync failed: Stock Analyses page was not created or updated"
            else Ok tt
        | Throw message => Throw message
        end in
      match synced with
      | Ok _ =>
          try_catch (update_page subscriber Complete None) (λ _, ret tt);;
          ret tt
      | Throw message =>
          if (attempt <? maxRetries - 1)%nat then
            emit (Delay (Num 5000));;
            broadcastToUser_from subscriber analysisResult maxRetries fuel' (S attempt)
          else
            setAnalysisError subscriber message
              {| ctx_ticker := result_ticker analysisResult;
                 ctx_userEmail := Some (email subscriber);
                 ctx_timestamp := now;
                 ctx_errorType := broadcast_failed;
                 ctx_phase := Some "notion_write" |};;
            throw ("Broadcast failed after " +:+ pretty maxRetries
                   +:+ " attempts: " +:+ message)
      end
  end.

Definition broadcastToUser (subscriber : Subscriber)
    (analysisResult : AnalysisResult) : Comp unit :=
  broadcastToUser_from subscriber analysisResult 2 2 0.

Definition broadcastToSubscribers (subscribers : list Subscriber)
    (analysisResult : AnalysisResult) : Comp (list (Result unit)) :=
  allSettled ((λ subscriber, broadcastToUser subscriber analysisResult)
                <$> subscribers).

Definition setAnalyzingStatus (subscribers : list Subscriber) : Comp unit :=
  allSettled ((λ subscriber,
                 try_catch (update_page subscriber Analyzing None) (λ _, ret tt))
                <$> subscribers);;
  ret tt.

Definition broadcastError (subscribers : list Subscriber) (errorMessage : string)
    (ticker : string) : Comp unit :=
  allSettled ((λ subscriber,
                 try_catch
                   (setAnalysisError subscriber errorMessage
                      {| ctx_ticker := if decide (ticker = "") then "UNKNOWN" else ticker;
                         ctx_userEmail := Some (email subscriber);
                         ctx_timestamp := now;
                         ctx_errorType := analysis_failed;
                         ctx_phase := Some "analysis" |})
                   (λ _, ret tt))
                <$> subscribers);;
  ret tt.

(** Step 3d: the subscribers with a fulfilled broadcast, one per [userId],
    the first occurrence winning. *)
Definition uniqueSubscribers (subscribers : list Subscriber)
    (broadcastResults : list (Result unit)) : Map Subscriber :=
  foldl (λ unique '(subscriber, broadcastResult),
           if fulfilled broadcastResult
           then if Map_has unique (userId subscriber) then unique
                else Map_set unique (userId subscriber) subscriber
           else unique)
        [] (zip subscribers broadcastResults).

Definition create_history (marketContext : option MarketContext)
    (subscriber : Subscriber) : Comp bool :=
  match archiveToHistory subscriber (regime <$> marketContext) with
  | Ok historyPageId =>
      emit (Archive (userId subscriber) (pageId subscriber)
              (if falsy historyPageId then None else historyPageId));;
      ret (negb (falsy historyPageId))
  | Throw _ =>
      emit (Archive (userId subscriber) (pageId subscriber) None);;
      ret false
  end.

(** The body of the loop of [processQueue] for [queue[i]]. *)
Definition process_item (marketContext : option MarketContext)
    (i endIndex : Z) (item : I) (metrics : OrchestratorMetrics)
  : Comp OrchestratorMetrics :=
  let isLastItem := bool_decide (i = endIndex - 1) in
  let count := Z.of_nat (length (item_subscribers item)) in
  emit (LogProcessing i (item_ticker item));;
  if DRY_RUN then
    ret {| totalTickers := totalTickers metrics;
           totalSubscribers := totalSubscribers metrics;
           analyzed := analyzed metrics + 1;
           failed := failed metrics;
           skipped := skipped metrics;
           totalBroadcasts := totalBroadcasts metrics;
           successfulBroadcasts := successfulBroadcasts metrics;
           failedBroadcasts := failedBroadcasts metrics;
           apiCallsSaved := apiCallsSaved metrics + (count - 1) * 17 |}
  else
    setAnalyzingStatus (item_subscribers item);;
    analysisResult <- analyzeWithRetry item 3;;
    let failure :=
      {| totalTickers := totalTickers metrics;
         totalSubscribers := totalSubscribers metrics;
         analyzed := analyzed metrics;
         failed := failed metrics + 1;
         skipped := skipped metrics;
         totalBroadcasts := totalBroadcasts metrics;
         successfulBroadcasts := successfulBroadcasts metrics;
         failedBroadcasts := failedBroadcasts metrics;
         apiCallsSaved := apiCallsSaved metrics |} in
    if negb (success analysisResult) then
      broadcastError (item_subscribers item)
        (or_else (error analysisResult) "Analysis failed") (item_ticker item);;
      ret failure
    else if negb (validateAnalysisComplete analysisResult) then
      broadcastError (item_subscribers item)
        "Analysis incomplete - missing required fields" (item_ticker item);;
      ret failure
    else
      broadcastResults <- broadcastToSubscribers (item_subscribers item) analysisResult;;
      let successfulCount := Z.of_nat (length (filter (λ r, fulfilled r) broadcastResults)) in
      let failedCount := Z.of_nat (length (filter (λ r, ¬ fulfilled r) broadcastResults)) in
      (if 0 <? successfulCount then
         allSettled (create_history marketContext
                       <$> (uniqueSubscribers (item_subscribers item) broadcastResults).*2);;
         ret tt
       else ret tt);;
      (if negb isLastItem && (0 <? ANALYSIS_DELAY_MS)
       then emit (Delay (Num ANALYSIS_DELAY_MS)) else ret tt);;
      ret {| totalTickers := totalTickers metrics;
             totalSubscribers := totalSubscribers metrics;
             analyzed := analyzed metrics + 1;
             failed := failed metrics;
             skipped := skipped metrics;
             totalBroadcasts :=
               totalBroadcasts metrics + Z.of_nat (length broadcastResults);
             successfulBroadcasts := successfulBroadcasts metrics + successfulCount;
             failedBroadcasts := failedBroadcasts metrics + failedCount;
             apiCallsSaved := apiCallsSaved metrics + (count - 1) * 17 |}.

(** [for (let i = startIndex; i < endIndex; i++)], [n] iterations from [i]. *)
Fixpoint process_from (queue : list I) (marketContext : option MarketContext)
    (endIndex : Z) (n : nat) (i : Z) (metrics : OrchestratorMetrics)
  : Comp OrchestratorMetrics :=
  match n with
  | O => ret metrics
  | S n' =>
      match at_index queue i with
      | Some item =>
          metrics' <- process_item marketContext i endIndex item metrics;;
          process_from queue marketContext endIndex n' (i + 1) metrics'
      | None =>
          (* queue[i] is undefined: reading item.ticker throws *)
          throw "Cannot read properties of undefined (reading 'ticker')"
      end
  end.

Definition processQueue (queue : list I) (marketContext : option MarketContext)
    (startIndex maxItems : Z) : Comp OrchestratorMetrics :=
  let endIndex := Z.min (startIndex + maxItems) (Z.of_nat (length queue)) in
  process_from queue marketContext endIndex
    (Z.to_nat (endIndex - startIndex)) startIndex
    {| totalTickers := Z.of_nat (length queue);
       totalSubscribers :=
         foldl (λ sum item, sum + Z.of_nat (length (item_subscribers item))) 0 queue;
       analyzed := 0; failed := 0; skipped := 0;
       totalBroadcasts := 0; successfulBroadcasts := 0; failedBroadcasts := 0;
       apiCallsSaved := 0 |}.
End Engine.

(** ** The entry point of [orchestrator.ts] *)

(** The market-data side of [getOrFetchMarketContext]: the two API keys
    ([process.env.X || '']) and the outcome of [getMarketContext]. *)
Class MarketEnv : Type := {
  FMP_API_KEY : string;
  FRED_API_KEY : string;
  getMarketContext : Result MarketContext
}.

(** [getOrFetchMarketContext]: [null] without keys or when the fetch throws. *)
Definition getOrFetchMarketContext `{MarketEnv} : option MarketContext :=
  if bool_decide (FMP_API_KEY = "") || bool_decide (FRED_API_KEY = "") then None
  else match getMarketContext with
       | Ok marketContext => Some marketContext
       | Throw _ => None
       end.

(** [Number.MAX_SAFE_INTEGER], the default of [maxItems]. *)
Definition MAX_SAFE_INTEGER : Z := 9007199254740991.

Section Orchestrator.
Context `{StringRuntime} `{CollectorAPI} `{EngineAPI} `{EngineConfig} `{MarketEnv}.
Variable now : Date.

(** [runOrchestrator(users, marketContextOverride, startIndex, maxItems)];
    the override is [None] when the argument is [undefined]. *)
Definition runOrchestrator (users : list User)
    (marketContextOverride : option (option MarketContext))
    (startIndex maxItems : Z) : Comp OrchestratorMetrics :=
  let marketContext :=
    match marketContextOverride with
    | Some given => given
    | None => getOrFetchMarketContext
    end in
  let tickerMap := collectStockRequests users in
  if bool_decide (length tickerMap = 0%nat) then
    ret {| totalTickers := 0; totalSubscribers := 0; analyzed := 0; failed := 0;
           skipped := 0; totalBroadcasts := 0; successfulBroadcasts := 0;
           failedBroadcasts := 0; apiCallsSaved := 0 |}
  else
    let queue := buildPriorityQueue now tickerMap in
    processQueue now queue marketContext startIndex maxItems.
End Orchestrator.

(** ** JSON *)

(** A JavaScript value, as far as the queue store handles one. *)
Unset Elimination Schemes.
Inductive jsval : Type :=
| JNull
| JNumber (n : number)
| JString (s : string)
| JDate (d : Date)
| JArray (elements : list jsval)
| JObject (fields : list (string * jsval)).
Set Elimination Schemes.

(** [JSON.parse(JSON.stringify(v))]: a [Date] comes back as its ISO string
    and a number that is not finite as [null]. *)
Fixpoint JSON_roundtrip (v : jsval) : jsval :=
  match v with
  | JNull => JNull
  | JNumber (Num z) => JNumber (Num z)
  | JNumber _ => JNull
  | JString s => JString s
  | JDate d => JString (toISOString d)
  | JArray elements => JArray (List.map JSON_roundtrip elements)
  | JObject fields => JObject (List.map (λ f, (f.1, JSON_roundtrip f.2)) fields)
  end.

(** A queue item as [JSON.parse] returns it. *)
Record ParsedItem : Type := mkParsedItem {
  parsed_ticker : string;
  parsed_priority : option Z;        (* [null] when the priority was not finite *)
  parsed_subscribers : list Subscriber;
  parsed_requestedAt : string
}.

#[global] Instance ParsedItem_like : QueueItemLike ParsedItem :=
  {| item_ticker := parsed_ticker; item_subscribers := parsed_subscribers |}.

(** What [JSON.stringify] followed by [JSON.parse] makes of a [QueueItem]. *)
Definition JSON_item (item : QueueItem) : ParsedItem :=
  {| parsed_ticker := ticker item;
     parsed_priority := match priority item with Num z => Some z | _ => None end;
     parsed_subscribers := subscribers item;
     parsed_requestedAt := toISOString (requestedAt item) |}.

Definition Subscriber_value (s : Subscriber) : jsval :=
  JObject [("userId", JString (userId s)); ("email", JString (email s));
           ("tier", JString (tier s)); ("pageId", JString (pageId s));
           ("accessToken", JString (accessToken s));
           ("notionUserId", JString (notionUserId s));
           ("timezone", JString (timezone s));
           ("stockAnalysesDbId", JString (stockAnalysesDbId s));
           ("stockHistoryDbId", JString (stockHistoryDbId s))].

Definition QueueItem_value (item : QueueItem) : jsval :=
  JObject [("ticker", JString (ticker item));
           ("priority", JNumber (priority item));
           ("subscribers", JArray (Subscriber_value <$> subscribers item));
           ("requestedAt", JDate (requestedAt item))].

Definition ParsedItem_value (item : ParsedItem) : jsval :=
  JObject [("ticker", JString (parsed_ticker item));
           ("priority", match parsed_priority item with
                        | Some z => JNumber (Num z)
                        | None => JNull
                        end);
           ("subscribers", JArray (Subscriber_value <$> parsed_subscribers item));
           ("requestedAt", JString (parsed_requestedAt item))].

(** ** [lib/orchestration/queue-storage.ts] *)

Record StoredQueue (I : Type) : Type := mkStoredQueue {
  id : string;
  items : list I;
  processedCount : Z;
  totalCount : Z;
  createdAt : string;
  marketContext : option MarketContext;
  chunkSize : Z;
  lastChunkAt : option string
}.
Arguments mkStoredQueue {I}.
Arguments id {I}.
Arguments items {I}.
Arguments processedCount {I}.
Arguments totalCount {I}.
Arguments createdAt {I}.
Arguments marketContext {I}.
Arguments chunkSize {I}.
Arguments lastChunkAt {I}.

(** The text kept under a key, given by the value that parsing it yields. *)
Abbreviation Document := (StoredQueue ParsedItem) (only parsing).

Definition JSON_stringify (q : StoredQueue QueueItem) : Document :=
  {| id := id q;
     items := JSON_item <$> items q;
     processedCount := processedCount q;
     totalCount := totalCount q;
     createdAt := createdAt q;
     marketContext := marketContext q;
     chunkSize := chunkSize q;
     lastChunkAt := lastChunkAt q |}.

(** The Upstash REST endpoint. *)
Inductive RedisRequest : Type :=
| SET (key : string) (value : Document)
| GET (key : string)
| EXPIRE (key : string) (seconds : Z)
| DEL (key : string).

(** How the endpoint treats a request: it serves it, the connection fails,
    or it answers with an error status. *)
Inductive Availability : Type :=
| Serves
| NetworkDown
| Answers (status : Z).

Record Response : Type := mkResponse {
  response_status : Z;
  response_statusText : string;
  response_result : option Document
}.

Definition response_ok (r : Response) : bool :=
  (200 <=? response_status r) && (response_status r <=? 299).

(** The store: what it holds, and the requests it has received. *)
Record Backend : Type := mkBackend {
  data : gmap string Document;
  expiry : gmap string Z;
  received : list RedisRequest
}.

Class RedisService : Type := {
  REDIS_URL : string;
  REDIS_TOKEN : string;
  (** the fate of the n-th request *)
  availability : nat -> Availability;
  (** the status text that the endpoint sends along with a status *)
  reason_phrase : Z -> string
}.

Definition QUEUE_TTL : Z := 86400.

(** [s.split('T')[0]] *)
Fixpoint before_T (s : string) : string :=
  match s with
  | EmptyString => EmptyString
  | String c s' => if decide (c = "T"%char) then EmptyString else String c (before_T s')
  end.

(** [`${response.status} ${response.statusText}`] *)
Definition status_line (response : Response) : string :=
  pretty (response_status response) +:+ " " +:+ response_statusText response.

Section QueueStorage.
Context `{RedisService}.

Definition fetch (request : RedisRequest) (b : Backend) : Result Response * Backend :=
  let next d e :=
    {| data := d; expiry := e; received := received b ++ [request] |} in
  match availability (length (received b)) with
  | NetworkDown => (Throw "fetch failed", next (data b) (expiry b))
  | Answers status =>
      (Ok {| response_status := status;
             response_statusText := reason_phrase status;
             response_result := None |},
       next (data b) (expiry b))
  | Serves =>
      match request with
      | SET key value =>
          (Ok {| response_status := 200;
                 response_statusText := reason_phrase 200;
                 response_result := None |},
           next (<[key := value]> (data b)) (delete key (expiry b)))
      | GET key =>
          (Ok {| response_status := 200;
                 response_statusText := reason_phrase 200;
                 response_result := data b !! key |},
           next (data b) (expiry b))
      | EXPIRE key seconds =>
          (Ok {| response_status := 200;
                 response_statusText := reason_phrase 200;
                 response_result := None |},
           next (data b) (if decide (is_Some (data b !! key))
                              then <[key := seconds]> (expiry b) else expiry b))
      | DEL key =>
          (Ok {| response_status := 200;
                 response_statusText := reason_phrase 200;
                 response_result := None |},
           next (delete key (data b)) (delete key (expiry b)))
      end
  end.

Definition credentials_missing : bool :=
  bool_decide (REDIS_URL = "") || bool_decide (REDIS_TOKEN = "").

Definition saveQueueToRedis (now : Date) (queue : list QueueItem)
    (marketContext : option MarketContext) (chunkSize : Z) (b : Backend)
  : Result string * Backend :=
  if credentials_missing then (Throw "Redis credentials not configured", b)
  else
    let date := before_T (toISOString now) in
    let queueId := "analysis_queue:" +:+ date in
    let storedQueue :=
      {| id := queueId;
         items := queue;
         processedCount := 0;
         totalCount := Z.of_nat (length queue);
         createdAt := toISOString now;
         marketContext := marketContext;
         chunkSize := chunkSize;
         lastChunkAt := None |} in
    match fetch (SET queueId (JSON_stringify storedQueue)) b with
    | (Throw error, b) => (Throw error, b)
    | (Ok response, b) =>
        if negb (response_ok response) then
          (Throw ("Redis SET failed: " +:+ status_line response), b)
        else
          match fetch (EXPIRE queueId QUEUE_TTL) b with
          | (Throw error, b) => (Throw error, b)
          | (Ok _, b) => (Ok queueId, b)
          end
    end.

Definition loadQueueFromRedis (now : Date) (date : option string) (b : Backend)
  : Result (option Document) * Backend :=
  if credentials_missing then (Throw "Redis credentials not configured", b)
  else
    let targetDate := or_else date (before_T (toISOString now)) in
    let queueId := "analysis_queue:" +:+ targetDate in
    match fetch (GET queueId) b with
    | (Throw error, b) => (Throw error, b)
    | (Ok response, b) =>
        if negb (response_ok response) then
          if decide (response_status response = 404) then (Ok None, b)
          else (Throw ("Redis GET failed: " +:+ status_line response), b)
        else (Ok (response_result response), b)
    end.

Definition updateProcessedCount (now : Date) (queueId : string)
    (newProcessedCount : Z) (b : Backend) : Result unit * Backend :=
  if credentials_missing then (Throw "Redis credentials not configured", b)
  else
    match fetch (GET queueId) b with
    | (Throw error, b) => (Throw error, b)
    | (Ok response, b) =>
        if negb (response_ok response) then
          (Throw ("Redis GET failed: " +:+ status_line response), b)
        else
          match response_result response with
          | None => (Throw "Queue not found", b)
          | Some storedQueue =>
              let storedQueue :=
                {| id := id storedQueue;
                   items := items storedQueue;
                   processedCount := newProcessedCount;
                   totalCount := totalCount storedQueue;
                   createdAt := createdAt storedQueue;
                   marketContext := marketContext storedQueue;
                   chunkSize := chunkSize storedQueue;
                   lastChunkAt := Some (toISOString now) |} in
              match fetch (SET queueId storedQueue) b with
              | (Throw error, b) => (Throw error, b)
              | (Ok _, b) => (Ok tt, b)
              end
          end
    end.

Definition deleteQueue (queueId : string) (b : Backend) : Result unit * Backend :=
  if credentials_missing then (Throw "Redis credentials not configured", b)
  else
    match fetch (DEL queueId) b with
    | (Throw error, b) => (Throw error, b)
    | (Ok _, b) => (Ok tt, b)
    end.
End QueueStorage.

(** [QueueStatus]: every field but [exists] is optional. *)
Record QueueStatus : Type := mkQueueStatus {
  status_exists : bool;
  status_queueId : option string;
  status_totalItems : option Z;
  status_processedItems : option Z;
  status_remainingItems : option Z;
  status_progress : option number;
  status_isComplete : option bool;
  status_createdAt : option string;
  status_lastChunkAt : option string
}.

(** The binary64 arithmetic of the runtime behind the progress figure:
    [Math.round((a / b) * 100)]. *)
Class NumberRuntime : Type := {
  round_percent : Z -> Z -> number
}.

Section QueueMonitoring.
Context `{RedisService} `{NumberRuntime}.

Definition getQueueStatus (now : Date) (date : option string) (b : Backend)
  : Result QueueStatus * Backend :=
  match loadQueueFromRedis now date b with
  | (Throw error, b) => (Throw error, b)
  | (Ok None, b) =>
      (Ok {| status_exists := false; status_queueId := None;
             status_totalItems := None; status_processedItems := None;
             status_remainingItems := None; status_progress := None;
             status_isComplete := None; status_createdAt := None;
             status_lastChunkAt := None |}, b)
  | (Ok (Some storedQueue), b) =>
      let processedItems := processedCount storedQueue in
      let totalItems := totalCount storedQueue in
      let remainingItems := totalItems - processedItems in
      let progress := round_percent processedItems totalItems in
      let isComplete := totalItems <=? processedItems in
      (Ok {| status_exists := true;
             status_queueId := Some (id storedQueue);
             status_totalItems := Some totalItems;
             status_processedItems := Some processedItems;
             status_remainingItems := Some remainingItems;
             status_progress := Some progress;
             status_isComplete := Some isComplete;
             status_createdAt := Some (createdAt storedQueue);
             status_lastChunkAt := lastChunkAt storedQueue |}, b)
  end.
End QueueMonitoring.

(** ** [api/cron/scheduled-analyses.ts] *)

Record VercelRequest : Type := mkRequest { authorization : option string }.

Record Summary : Type := mkSummary {
  mode : string;
  chunk : number;
  totalChunks : number;
  processedItems : Z;
  summary_totalTickers : Z;
  summary_metrics : OrchestratorMetrics;
  isComplete : bool
}.

Inductive Reply : Type :=
| Unauthorized                      (* 401 *)
| MarketClosed                      (* 200, nothing executed *)
| ChunkDone (summary : Summary)     (* 200 *)
| InternalError (message : string). (* 500 *)

(** Configuration and collaborators of the entry point. *)
Class CronEnv : Type := {
  CRON_SECRET : string;
  CHUNK_SIZE : Z;
  getAllUsers : Result (list User);
  fetchMarketContext : option MarketContext
}.

(** [s.replace(pattern, '')]: the first occurrence is removed. *)
Fixpoint remove_first (pattern s : string) : string :=
  if String.prefix pattern s then drop_string (String.length pattern) s
  else match s with
       | EmptyString => EmptyString
       | String c s' => String c (remove_first pattern s')
       end.

(** [Math.ceil(a / b)] *)
Definition ceil_div (a b : Z) : number :=
  if b =? 0 then
    if a =? 0 then NaN else if 0 <? a then PosInfinity else NegInfinity
  else Num (- ((- a) / b)).

Definition holidays2025 : list string :=
  ["2025-01-01"; "2025-01-20"; "2025-02-17"; "2025-04-18"; "2025-05-26";
   "2025-07-04"; "2025-09-01"; "2025-11-27"; "2025-12-25"].

Definition checkNYSEMarketDay (today : Date) : bool :=
  if bool_decide (getDay today = 0 ∨ getDay today = 6) then false
  else if bool_decide (before_T (toISOString today) ∈ holidays2025) then false
  else true.

Section Cron.
Context `{StringRuntime} `{CollectorAPI} `{EngineAPI} `{EngineConfig}
        `{RedisService} `{CronEnv}.

(** The tail shared by both cases: checkpoint, clean up when done, report. *)
Definition checkpoint (now : Date) (mode : string) (chunkNumber : number)
    (queueId : string)
    (newProcessedCount total : Z) (metrics : OrchestratorMetrics)
    (es : list Event) (b : Backend) : Reply * Backend * list Event :=
  match updateProcessedCount now queueId newProcessedCount b with
  | (Throw error, b) => (InternalError error, b, es)
  | (Ok _, b) =>
      let isComplete := total <=? newProcessedCount in
      match (if isComplete then deleteQueue queueId b else (Ok tt, b)) with
      | (Throw error, b) => (InternalError error, b, es)
      | (Ok _, b) =>
          (ChunkDone
             {| mode := mode;
                chunk := chunkNumber;
                totalChunks := ceil_div total CHUNK_SIZE;
                processedItems := newProcessedCount;
                summary_totalTickers := total;
                summary_metrics := metrics;
                isComplete := isComplete |},
           b, es)
      end
  end.

Definition handler (req : VercelRequest) (now : Date) (b : Backend)
  : Reply * Backend * list Event :=
  let providedSecret := remove_first "Bearer " <$> authorization req in
  if falsy providedSecret || negb (bool_decide (providedSecret = Some CRON_SECRET))
  then (Unauthorized, b, [])
  else if negb (checkNYSEMarketDay now) then (MarketClosed, b, [])
  else
    match loadQueueFromRedis now None b with
    | (Throw error, b) => (InternalError error, b, [])
    | (Ok (Some existingQueue), b) =>
        (* resume: the queue exists, process the next chunk *)
        let startIndex := processedCount existingQueue in
        let remainingItems := totalCount existingQueue - startIndex in
        let itemsToProcess := Z.min CHUNK_SIZE remainingItems in
        match processQueue now (items existingQueue) (marketContext existingQueue)
                startIndex itemsToProcess with
        | (es, Throw error) => (InternalError error, b, es)
        | (es, Ok metrics) =>
            checkpoint now "resume"
              (ceil_div (startIndex + itemsToProcess) CHUNK_SIZE)
              (id existingQueue)
              (startIndex + itemsToProcess) (totalCount existingQueue) metrics es b
        end
    | (Ok None, b) =>
        (* first run: collect, build, save, process the first chunk *)
        let marketContext := fetchMarketContext in
        match getAllUsers with
        | Throw error => (InternalError error, b, [])
        | Ok users =>
            let tickerMap := collectStockRequests users in
            let queue := buildPriorityQueue now tickerMap in
            match saveQueueToRedis now queue marketContext CHUNK_SIZE b with
            | (Throw error, b) => (InternalError error, b, [])
            | (Ok queueId, b) =>
                let itemsToProcess := Z.min CHUNK_SIZE (Z.of_nat (length queue)) in
                match processQueue now queue marketContext 0 itemsToProcess with
                | (es, Throw error) => (InternalError error, b, es)
                | (es, Ok metrics) =>
                    checkpoint now "first_run" (Num 1) queueId itemsToProcess
                      (Z.of_nat (length queue)) metrics es b
                end
            end
        end
    end.
End Cron.

(** ** Notions used to state the properties *)

(** The round trip as C7 states it: the queue saved and then loaded comes
    back with an equal item list, processed count and total count. *)
Definition round_trip_equal `{RedisService} (now : Date) (queue : list QueueItem)
    (marketContext : option MarketContext) (chunkSize : Z) (b : Backend) : Prop :=
  ∃ loaded,
    (loadQueueFromRedis now None
       (saveQueueToRedis now queue marketContext chunkSize b).2).1 = Ok (Some loaded) ∧
    ParsedItem_value <$> items loaded = QueueItem_value <$> queue ∧
    processedCount loaded = 0 ∧
    totalCount loaded = Z.of_nat (length queue).

Definition empty_backend : Backend := {| data := ∅; expiry := ∅; received := [] |}.

(** The key of the queue of the day. *)
Definition today_key (now : Date) : string :=
  "analysis_queue:" +:+ before_T (toISOString now).

(** The request carries the cron secret. *)
Definition authorized `{CronEnv} (req : VercelRequest) : Prop :=
  let providedSecret := remove_first "Bearer " <$> authorization req in
  falsy providedSecret || negb (bool_decide (providedSecret = Some CRON_SECRET)) = false.

(** The queue document with its cursor moved, as [updateProcessedCount]
    writes it back. *)
Definition advanced (now : Date) (q : Document) (newProcessedCount : Z) : Document :=
  {| id := id q;
     items := items q;
     processedCount := newProcessedCount;
     totalCount := totalCount q;
     createdAt := createdAt q;
     marketContext := marketContext q;
     chunkSize := chunkSize q;
     lastChunkAt := Some (toISOString now) |}.

Section Delivery.
Context `{EngineAPI}.

(** Attempt [attempt] of the primary-record write of [s] goes through. *)
Definition sync_ok (s : Subscriber) (t : string) (attempt : nat) : bool :=
  match syncToNotion s t attempt with
  | Ok analysesPageId => negb (falsy analysesPageId)
  | Throw _ => false
  end.

(** The write goes through within the two attempts of [broadcastToUser]. *)
Definition delivers (s : Subscriber) (t : string) : bool :=
  sync_ok s t 0 || sync_ok s t 1.

End Delivery.

(** The tenant contributes nothing to the collection: it has no database
    configured, its token cannot be decrypted, its database cannot be
    retrieved or has no data source (none, or one with an empty id), or its
    query is rejected. *)
Definition unavailable `{CollectorAPI} (user : User) : Prop :=
  falsy (user_stockAnalysesDbId user) = true
  ∨ decryptToken (user_accessToken user) = None
  ∨ ∃ userAccessToken,
      decryptToken (user_accessToken user) = Some userAccessToken ∧
      let db := retrieve_dataSourceId userAccessToken
                  (or_else (user_stockAnalysesDbId user) "") in
      db = None ∨ (∃ dataSourceId, db = Some dataSourceId ∧ falsy dataSourceId = true)
      ∨ ∃ dataSourceId, db = Some (Some dataSourceId) ∧
                        query_allResults userAccessToken dataSourceId = None.

(** One step of the loop that fills [uniqueSubscribers], the outcome of
    each subscriber's broadcast being [g]. *)
Definition unique_step (g : Subscriber → Result unit)
    (unique : Map Subscriber) (s : Subscriber) : Map Subscriber :=
  if fulfilled (g s)
  then if Map_has unique (userId s) then unique else Map_set unique (userId s) s
  else unique.


(** ** Reading a trace *)

(** The statuses successfully written to page [p], in order. *)
Definition writes (p : string) (es : list Event) : list Status :=
  omap (λ e, match e with
             | PageUpdate q st _ true => if decide (q = p) then Some st else None
             | _ => None
             end) es.

(** The archive records created. *)
Definition archives (es : list Event) : list ArchiveRecord :=
  omap (λ e, match e with
             | Archive user page (Some id) => Some (mkArchiveRecord user page id)
             | _ => None
             end) es.

Definition is_attempt_or_delay (e : Event) : bool :=
  match e with Analyze _ _ | Delay _ => true | _ => false end.

Definition attempts_and_delays (es : list Event) : list Event :=
  filter (λ e, is_attempt_or_delay e) es.

(** The pauses taken. *)
Definition delays (es : list Event) : list number :=
  omap (λ e, match e with Delay ms => Some ms | _ => None end) es.

(** The indices the loop of [processQueue] went through. *)
Definition attempted (es : list Event) : list Z :=
  omap (λ e, match e with LogProcessing i _ => Some i | _ => None end) es.

(** The calls of the analysis step: the analysis, the timer and the bug
    reporter. *)
Definition analysis_event (e : Event) : Prop :=
  match e with
  | Analyze _ _ | Delay _ | ReportBug _ => True
  | _ => False
  end.

(** An analysis outcome on which [analyzeWithRetry] retries. *)
Definition transient_error (r : Result AnalysisResult) : bool :=
  match r with
  | Ok result => negb (success result) && isGeminiRateLimitError (error result)
  | Throw _ => false
  end.

Definition outcome_error (r : Result AnalysisResult) : option string :=
  match r with
  | Ok result => error result
  | Throw message => Some message
  end.

(** The fixed schedule, by attempt. *)
Definition scheduled (attempt : nat) : number :=
  match attempt with
  | 0%nat => Num 2000
  | 1%nat => Num 4000
  | 2%nat => Num 8000
  | _ => NaN
  end.

Fixpoint all_digits (s : string) : bool :=
  match s with
  | EmptyString => true
  | String c s' => is_digit c && all_digits s'
  end.

(** The error text suggests a delay of [int_part.frac] seconds: the first
    "Please retry in " of the text is followed by the digits [int_part],
    by a point and the digits [frac] unless [frac] is empty, and by "s". *)
Definition suggests (text int_part frac : string) : Prop :=
  all_digits int_part = true ∧ all_digits frac = true ∧ int_part ≠ "" ∧
  ∃ pre post,
    includes pre "Please retry in " = false ∧
    text = pre +:+ "Please retry in " +:+ int_part
             +:+ (if decide (frac = "") then "" else "." +:+ frac) +:+ "s" +:+ post.

(** C6 as stated, for a suggestion of [int_part.frac] seconds, that is of
    [n / 10^f] seconds where [n] is the number that the digits of both
    parts spell and [f] the number of digits of [frac]: whenever the error
    text suggests that delay, the backoff is that delay, or 60 seconds when
    it is longer.  The backoff is [ms] milliseconds. *)
Definition suggested_delay_is_used (int_part frac : string) : Prop :=
  ∀ text attempt,
    suggests text int_part frac →
    ∃ ms,
      retry_delay (Some text) attempt = Num ms ∧
      ms * 10 ^ Z.of_nat (String.length frac)
      = Z.min (1000 * digits_value 0 (int_part +:+ frac))
              (60000 * 10 ^ Z.of_nat (String.length frac)).

Definition nonempty {A : Type} (l : list A) : option (list A) :=
  match l with [] => None | _ => Some l end.

(** The ticker map holds, under every key, the subscribers of the requests
    [rs] for that key, in order, and holds no other key. *)
Definition collected (rs : list (string * Subscriber))
    (m : Map (list Subscriber)) : Prop :=
  NoDup m.*1 ∧
  ∀ k, Map_get m k = nonempty (filter (λ r, r.1 = k) rs).*2.

(** No subscriber's tier names a property inherited from
    [Object.prototype]. *)
Definition plain_tiers (tickerMap : Map (list Subscriber)) : Prop :=
  ∀ k subs s, (k, subs) ∈ tickerMap → s ∈ subs →
    tier s ∉ Object_prototype_properties.

Definition recognized_tiers : list string := ["Pro"; "Analyst"; "Starter"; "Free"].

(** Equal priorities are ordered by ascending subject key. *)
Definition ties_by_ticker (queue : list QueueItem) : Prop :=
  ∀ (i j : nat) a b, (i < j)%nat → queue !! i = Some a → queue !! j = Some b →
    priority a = priority b → String.leb (ticker a) (ticker b) = true.

(** The subjects the loop of [processQueue] went through, in order. *)
Definition processed (es : list Event) : list string :=
  omap (λ e, match e with LogProcessing _ t => Some t | _ => None end) es.

(** The subjects whose analysis was started (first attempts only). *)
Definition first_attempts (es : list Event) : list string :=
  omap (λ e, match e with Analyze t O => Some t | _ => None end) es.

(** The archive writes attempted: tenant and page. *)
Definition archive_attempts (es : list Event) : list (string * string) :=
  omap (λ e, match e with Archive user page _ => Some (user, page) | _ => None end) es.

Definition is_sync_or_delay (e : Event) : bool :=
  match e with Sync _ _ | Delay _ => true | _ => false end.

Definition syncs_and_delays (es : list Event) : list Event :=
  filter (λ e, is_sync_or_delay e) es.

(** The admin notifications sent. *)
Definition notifications (es : list Event) : list (string * ErrorType * string) :=
  omap (λ e, match e with
             | NotifyAdmin t errorType message => Some (t, errorType, message)
             | _ => None
             end) es.

(** Every status written to a subscriber page, successfully or not. *)
Definition status_attempts (p : string) (es : list Event) : list Status :=
  omap (λ e, match e with
             | PageUpdate q st _ _ => if decide (q = p) then Some st else None
             | _ => None
             end) es.

(** The trace shows the work of the loop body on the items [chunk]: the
    analysis of each of them that has a subscriber was started, once and in
    this order, and every subscriber page of each of them was sent the
    status Analyzing and a final status, Complete or Error. *)
Definition worked_on {I : Type} `{QueueItemLike I} (chunk : list I) (es : list Event)
  : Prop :=
  first_attempts es
    = item_ticker <$> filter (λ item, item_subscribers item ≠ []) chunk ∧
  ∀ item s, item ∈ chunk → s ∈ item_subscribers item →
    Analyzing ∈ status_attempts (pageId s) es ∧
    (Complete ∈ status_attempts (pageId s) es ∨ Error ∈ status_attempts (pageId s) es).

(** An event of the console only. *)
Definition is_log (e : Event) : Prop :=
  match e with LogProcessing _ _ => True | _ => False end.

(** The calls of the delivery steps: page updates, syncs, archive writes,
    pauses and admin notifications. *)
Definition delivery_event (e : Event) : Prop :=
  match e with
  | PageUpdate _ _ _ _ | Sync _ _ | Archive _ _ _ | Delay _ | NotifyAdmin _ _ _ => True
  | _ => False
  end.

(** The distinct keys of [l], in the order of their first occurrence. *)
Definition first_occurrences (l : list string) : list string :=
  foldl (λ seen k, if bool_decide (k ∈ seen) then seen else seen ++ [k]) [] l.

(** [n] is a pause of between one second and one minute. *)
Definition within_a_minute (n : number) : Prop :=
  ∃ ms, n = Num ms ∧ 1000 ≤ ms ≤ 60000.

Section Invocation.
Context `{StringRuntime} `{CollectorAPI} `{EngineAPI} `{EngineConfig}
        `{RedisService} `{CronEnv}.

(** The scenario of C4 as stated, first invocation: with chunk size 8 and
    15 subjects collected, an authorized invocation on a market day that
    finds no queue of the day goes through the indices 0 to 7 and leaves
    the queue in the store with its cursor at 8. *)
Definition first_chunk_of_fifteen (req : VercelRequest) (now : Date) (b : Backend)
    (users : list User) : Prop :=
  authorized req → checkNYSEMarketDay now = true →
  CHUNK_SIZE = 8 → data b !! today_key now = None → getAllUsers = Ok users →
  length (buildPriorityQueue now (collectStockRequests users)) = 15%nat →
  let '(_, b', es) := handler req now b in
  attempted es = [0; 1; 2; 3; 4; 5; 6; 7] ∧
  processedCount <$> data b' !! today_key now = Some 8.

(** The law of C4 as stated, for an authorized invocation on a market day
    that finds the queue of the day in the store, well formed: the cursor
    moves on by the number of items the invocation attempted, and the queue
    is gone from the store exactly when the cursor so moved has reached the
    total. *)
Definition cursor_counts_attempts (req : VercelRequest) (now : Date) (b : Backend)
  : Prop :=
  authorized req → checkNYSEMarketDay now = true →
  ∀ doc, data b !! today_key now = Some doc → id doc = today_key now →
    0 ≤ processedCount doc ≤ totalCount doc →
    totalCount doc = Z.of_nat (length (items doc)) →
    let '(_, b', es) := handler req now b in
    let cursor := processedCount doc + Z.of_nat (length (attempted es)) in
    match data b' !! today_key now with
    | Some doc' => processedCount doc' = cursor ∧ cursor < totalCount doc
    | None => totalCount doc ≤ cursor
    end.
End Invocation.

(** ** Sample data *)

Module Sample.
Definition clock : Date := {| toISOString := "2025-12-01T13:30:00.000Z"; getDay := 1 |}.

Definition subscriber (user page tier : string) : Subscriber :=
  {| userId := user; email := user; tier := tier; pageId := page;
     accessToken := "token-" +:+ user; notionUserId := "notion-" +:+ user;
     timezone := "America/Los_Angeles";
     stockAnalysesDbId := "analyses-" +:+ user;
     stockHistoryDbId := "history-" +:+ user |}.

(** Two subjects requested at the same tier, in this order. *)
Definition two_free_tickers : Map (list Subscriber) :=
  [("ZZZ", [subscriber "ann" "page-1" "Free"]);
   ("AAA", [subscriber "bob" "page-2" "Free"])].

Definition mixed_tiers : Map (list Subscriber) :=
  [("MSFT", [subscriber "ann" "page-1" "Free"; subscriber "bob" "page-2" "Starter"]);
   ("NVDA", [subscriber "cat" "page-3" "Enterprise"]);
   ("AAPL", [subscriber "dan" "page-4" "Pro"])].

(** A subscriber whose tier string is the name of an inherited property. *)
Definition inherited_tier : Map (list Subscriber) :=
  [("AAPL", [subscriber "eve" "page-5" "constructor"])].

(** Collaborators: the subject "FAIL" fails for good, "BUSY" is always
    overloaded, "PART" comes back incomplete; the page "page-bad" cannot
    be written; everything else works. *)
Definition api : EngineAPI :=
  {| analyzeStockCore t _ _ :=
       if decide (t = "FAIL") then
         Ok {| success := false; result_ticker := t;
               error := Some "FMP API error: 500 Internal Server Error" |}
       else if decide (t = "BUSY") then
         Ok {| success := false; result_ticker := t;
               error := Some "[429 Too Many Requests] quota exceeded. Please retry in 0s." |}
       else Ok {| success := true; result_ticker := t; error := None |};
     validateAnalysisComplete r := negb (bool_decide (result_ticker r = "PART"));
     pages_update _ _ := true;
     syncToNotion s _ _ :=
       if decide (pageId s = "page-bad") then Throw "Notion 502 Bad Gateway"
       else Ok (Some "analyses-page");
     archiveToHistory s _ := Ok (Some ("history-of-" +:+ pageId s)) |}.

(** An engine that is busy twice: its first answer suggests a pause of
    seven seconds, its second suggests none, its third is the analysis. *)
Definition throttled : EngineAPI :=
  {| analyzeStockCore t _ attempt :=
       match attempt with
       | 0%nat =>
           Ok {| success := false; result_ticker := t;
                 error := Some "[429 Too Many Requests] quota exceeded. Please retry in 7s." |}
       | 1%nat =>
           Ok {| success := false; result_ticker := t;
                 error := Some "[503 Service Unavailable] The model is overloaded." |}
       | _ => Ok {| success := true; result_ticker := t; error := None |}
       end;
     validateAnalysisComplete _ := true;
     pages_update _ _ := true;
     syncToNotion _ _ _ := Ok (Some "analyses-page");
     archiveToHistory s _ := Ok (Some ("history-of-" +:+ pageId s)) |}.

Definition config : EngineConfig := {| ANALYSIS_DELAY_MS := 8000; DRY_RUN := false |}.

Definition item (t : string) (subs : list Subscriber) : QueueItem :=
  {| ticker := t; priority := Num 4; subscribers := subs; requestedAt := clock |}.

Definition zero_metrics : OrchestratorMetrics :=
  {| totalTickers := 2; totalSubscribers := 2; analyzed := 0; failed := 0;
     skipped := 0; totalBroadcasts := 0; successfulBroadcasts := 0;
     failedBroadcasts := 0; apiCallsSaved := 0 |}.

(** A failing subject followed by a healthy one. *)
Definition fail_then_ok : list QueueItem :=
  [item "FAIL" [subscriber "ann" "page-1" "Free"];
   item "AAPL" [subscriber "bob" "page-2" "Free"]].

(** The string methods on ASCII text. *)
Definition upper_char (c : ascii) : ascii :=
  let n := nat_of_ascii c in
  if ((97 <=? n) && (n <=? 122))%nat then ascii_of_nat (n - 32) else c.

Fixpoint upper (s : string) : string :=
  match s with
  | EmptyString => EmptyString
  | String c s' => String (upper_char c) (upper s')
  end.

Definition is_space (c : ascii) : bool :=
  let n := nat_of_ascii c in ((n =? 32) || ((9 <=? n) && (n <=? 13)))%nat.

Fixpoint trim_start (s : string) : string :=
  match s with
  | EmptyString => EmptyString
  | String c s' => if is_space c then trim_start s' else s
  end.

Fixpoint trim_end (s : string) : string :=
  match s with
  | EmptyString => EmptyString
  | String c s' =>
      let rest := trim_end s' in
      if is_space c && bool_decide (rest = "") then EmptyString else String c rest
  end.

Definition runtime : StringRuntime :=
  {| toUpperCase := upper; trim := λ s, trim_end (trim_start s) |}.

(** One tenant with fifteen daily subjects, two of them written in lower
    case or with blanks. *)
Definition fifteen_pages : list Page :=
  (λ t, {| page_id := "page-" +:+ t; page_has_properties := true;
           page_ticker_content := Some t |})
    <$> ["AAPL"; "msft"; " NVDA "; "TSM"; "GOOG"; "AMZN"; "META"; "AVGO";
         "ORCL"; "ASML"; "AMD"; "INTC"; "QCOM"; "IBM"; "CRM"].

Definition ann : User :=
  {| user_id := "ann"; user_email := "ann@example.com";
     user_subscriptionTier := Some "Starter"; user_accessToken := "sealed";
     user_notionUserId := "notion-ann"; user_timezone := None;
     user_stockAnalysesDbId := Some "analyses-ann";
     user_stockHistoryDbId := Some "history-ann" |}.

Definition collector : CollectorAPI :=
  {| decryptToken t := Some ("opened-" +:+ t);
     retrieve_dataSourceId _ _ := Some (Some "source-1");
     query_allResults _ _ := Some fifteen_pages |}.

Definition cron : CronEnv :=
  {| CRON_SECRET := "s3cret"; CHUNK_SIZE := 8;
     getAllUsers := Ok [ann]; fetchMarketContext := None |}.

Definition cron_request : VercelRequest :=
  {| authorization := Some "Bearer s3cret" |}.

(** The usual status texts. *)
Definition reason (status : Z) : string :=
  if status =? 200 then "OK"
  else if status =? 404 then "Not Found"
  else if status =? 500 then "Internal Server Error"
  else "".

(** A store that always serves. *)
Definition redis : RedisService :=
  {| REDIS_URL := "https://redis.example"; REDIS_TOKEN := "secret";
     availability _ := Serves;
     reason_phrase := reason |}.

(** A store that serves the first request and answers the second with
    status 500. *)
Definition redis_refusing_second : RedisService :=
  {| REDIS_URL := "https://redis.example"; REDIS_TOKEN := "secret";
     availability n := if decide (n = 1%nat) then Answers 500 else Serves;
     reason_phrase := reason |}.

(** A store that answers every request with status 500. *)
Definition redis_refusing : RedisService :=
  {| REDIS_URL := "https://redis.example"; REDIS_TOKEN := "secret";
     availability _ := Answers 500;
     reason_phrase := reason |}.

Definition stored_queue : StoredQueue ParsedItem :=
  {| id := "analysis_queue:2025-12-01";
     items := JSON_item <$> [item "AAPL" [subscriber "ann" "page-1" "Free"];
                             item "MSFT" [subscriber "bob" "page-2" "Free"]];
     processedCount := 0;
     totalCount := 2;
     createdAt := "2025-12-01T13:30:00.000Z";
     marketContext := None;
     chunkSize := 1;
     lastChunkAt := None |}.

Definition backend_with_queue : Backend :=
  {| data := {[ "analysis_queue:2025-12-01" := stored_queue ]};
     expiry := {[ "analysis_queue:2025-12-01" := 86400 ]};
     received := [] |}.

(** No market data keys are configured. *)
Definition market : MarketEnv :=
  {| FMP_API_KEY := ""; FRED_API_KEY := ""; getMarketContext := Throw "unreachable" |}.

(** A tenant who has not set up a database yet. *)
Definition newcomer : User :=
  {| user_id := "new"; user_email := "new@example.com";
     user_subscriptionTier := None; user_accessToken := "sealed-new";
     user_notionUserId := "notion-new"; user_timezone := None;
     user_stockAnalysesDbId := None; user_stockHistoryDbId := None |}.

(** One subject that a tenant follows on two pages, and another tenant on one. *)
Definition two_pages_one_tenant : QueueItem :=
  item "AAPL" [subscriber "ann" "page-1" "Free";
               subscriber "ann" "page-2" "Free";
               subscriber "bob" "page-3" "Pro"].

(** A store whose credentials are not configured. *)
Definition redis_unconfigured : RedisService :=
  {| REDIS_URL := ""; REDIS_TOKEN := ""; availability _ := Serves;
     reason_phrase := reason |}.

(** A store that serves the first request and is unreachable for the second. *)
Definition redis_dropping_second : RedisService :=
  {| REDIS_URL := "https://redis.example"; REDIS_TOKEN := "secret";
     availability n := if decide (n = 1%nat) then NetworkDown else Serves;
     reason_phrase := reason |}.

(** A store that is unreachable. *)
Definition redis_down : RedisService :=
  {| REDIS_URL := "https://redis.example"; REDIS_TOKEN := "secret";
     availability _ := NetworkDown;
     reason_phrase := reason |}.

(** Percentages rounded half up, in exact arithmetic. *)
Definition percent : NumberRuntime :=
  {| round_percent a b := if b =? 0 then NaN else Num ((200 * a + b) / (2 * b)) |}.

(** An entry point whose only tenant has not set up a database yet. *)
Definition cron_newcomer : CronEnv :=
  {| CRON_SECRET := "s3cret"; CHUNK_SIZE := 8;
     getAllUsers := Ok [newcomer]; fetchMarketContext := None |}.

(** An entry point whose chunk size was set to -1. *)
Definition cron_negative_chunk : CronEnv :=
  {| CRON_SECRET := "s3cret"; CHUNK_SIZE := -1;
     getAllUsers := Ok [ann]; fetchMarketContext := None |}.

(** A page whose ticker is two blanks, and a workspace that holds it. *)
Definition blank_page : Page :=
  {| page_id := "page-blank"; page_has_properties := true;
     page_ticker_content := Some "  " |}.

Definition collector_blank : CollectorAPI :=
  {| decryptToken t := Some ("opened-" +:+ t);
     retrieve_dataSourceId _ _ := Some (Some "source-1");
     query_allResults _ _ := Some [blank_page] |}.

(** The engine switched to dry-run mode. *)
Definition rehearsal : EngineConfig := {| ANALYSIS_DELAY_MS := 8000; DRY_RUN := true |}.

(** One subject, three subscribers; the second one's page is unwritable. *)
Definition one_bad_page : QueueItem :=
  item "AAPL" [subscriber "ann" "page-1" "Free";
               subscriber "bob" "page-bad" "Free";
               subscriber "cat" "page-3" "Pro"].


(** The collaborators of [api], but the page "page-3" has no Status
    property: every status write to it is refused. *)
Definition api_without_status : EngineAPI :=
  {| analyzeStockCore := @analyzeStockCore api;
     validateAnalysisComplete := @validateAnalysisComplete api;
     pages_update s _ := negb (bool_decide (pageId s = "page-3"));
     syncToNotion := @syncToNotion api;
     archiveToHistory := @archiveToHistory api |}.

(** The collaborators of [api], but the tenant "cat" has no history
    database: the archive write returns no record. *)
Definition api_without_history : EngineAPI :=
  {| analyzeStockCore := @analyzeStockCore api;
     validateAnalysisComplete := @validateAnalysisComplete api;
     pages_update := @pages_update api;
     syncToNotion := @syncToNotion api;
     archiveToHistory s regime :=
       if decide (userId s = "cat") then Ok None else @archiveToHistory api s regime |}.

(** The collaborators of [api], but the error report (status, notes and
    date in one write) is refused on the page "page-bad". *)
Definition api_without_notes : EngineAPI :=
  {| analyzeStockCore := @analyzeStockCore api;
     validateAnalysisComplete := @validateAnalysisComplete api;
     pages_update s st := negb (bool_decide (pageId s = "page-bad" ∧ st = Error));
     syncToNotion := @syncToNotion api;
     archiveToHistory := @archiveToHistory api |}.

(** Two tenants of one workspace follow the subject on the same page; the
    primary-record write of the second one fails. *)
Definition api_shared_page : EngineAPI :=
  {| analyzeStockCore := @analyzeStockCore api;
     validateAnalysisComplete := @validateAnalysisComplete api;
     pages_update := @pages_update api;
     syncToNotion s _ _ :=
       if decide (userId s = "bob") then Throw "Notion 502 Bad Gateway"
       else Ok (Some "analyses-page");
     archiveToHistory := @archiveToHistory api |}.

Definition shared_page : QueueItem :=
  item "AAPL" [subscriber "ann" "page-1" "Free"; subscriber "bob" "page-1" "Free"].
End Sample.

(* ===================================================================== *)
(** * Part II.  Properties                                                *)
(* ===================================================================== *)

(** ** Facts about the JavaScript fragment *)

Section SortFacts.
Context {A : Type} (cmp : A -> A -> number).

Lemma insert_Permutation a l : insert cmp a l ≡ₚ a :: l.
Proof.
  induction l as [|y l IH]; simpl; [done|].
  destruct (positive (cmp a y)); [|done].
  rewrite IH. apply Permutation_swap.
Qed.

Lemma Array_sort_Permutation l : Array_sort cmp l ≡ₚ l.
Proof.
  induction l as [|a l IH]; simpl; [done|].
  rewrite insert_Permutation. by f_equiv.
Qed.

Lemma Array_sort_elem_of x l : x ∈ Array_sort cmp l ↔ x ∈ l.
Proof. by rewrite Array_sort_Permutation. Qed.

(** Stability: a class of elements that the comparator never orders
    strictly keeps its relative order. *)
Lemma insert_filter (P : A → Prop) `{∀ x, Decision (P x)} a l :
  (∀ y, P a → P y → positive (cmp a y) = false) →
  filter P (insert cmp a l) = filter P (a :: l).
Proof.
  intros Hties. induction l as [|y l IH]; simpl; [done|].
  destruct (positive (cmp a y)) eqn:Hpos; [|done].
  rewrite !filter_cons. rewrite IH. rewrite filter_cons.
  destruct (decide (P a)) as [Ha|Ha], (decide (P y)) as [Hy|Hy]; try done.
  rewrite (Hties y Ha Hy) in Hpos. done.
Qed.

Lemma Array_sort_filter (P : A → Prop) `{∀ x, Decision (P x)} l :
  (∀ x y, P x → P y → positive (cmp x y) = false) →
  filter P (Array_sort cmp l) = filter P l.
Proof.
  intros Hties. induction l as [|a l IH]; simpl; [done|].
  rewrite insert_filter by eauto. rewrite !filter_cons, IH. done.
Qed.

(** Sortedness, for a comparator that agrees with a transitive relation
    on the elements at hand (those satisfying [Q]). *)
Section Sorted.
Context (R : A → A → Prop) (Q : A → Prop).
Hypothesis cmp_le : ∀ x y, Q x → Q y → positive (cmp x y) = false → R x y.
Hypothesis cmp_gt : ∀ x y, Q x → Q y → positive (cmp x y) = true → R y x.
Hypothesis R_trans : ∀ x y z, R x y → R y z → R x z.

Lemma insert_sorted a l :
  Q a → Forall Q l →
  StronglySorted R l → StronglySorted R (insert cmp a l).
Proof.
  intros Ha HQ Hsorted. induction Hsorted as [|y l Hl IH Hy]; simpl.
  - repeat constructor.
  - apply Forall_cons in HQ as [HQy HQ].
    destruct (positive (cmp a y)) eqn:Hpos.
    + constructor; [by apply IH|].
      rewrite Forall_forall. intros x Hx.
      rewrite insert_Permutation in Hx.
      apply elem_of_cons in Hx as [->|Hx]; [by apply cmp_gt|].
      rewrite Forall_forall in Hy. by apply Hy.
    + constructor; [by constructor|].
      constructor; [by apply cmp_le|].
      eapply Forall_impl; [exact Hy|]. intros z Hz. simpl in Hz.
      eapply R_trans; [|exact Hz]. by apply cmp_le.
Qed.

Lemma Array_sort_sorted l :
  Forall Q l → StronglySorted R (Array_sort cmp l).
Proof.
  induction 1 as [|a l Ha HQ IH]; simpl; [constructor|].
  apply insert_sorted; [done| |done].
  rewrite Forall_forall. intros x Hx.
  rewrite Array_sort_elem_of in Hx.
  rewrite Forall_forall in HQ. by apply HQ.
Qed.
End Sorted.
End SortFacts.

Lemma le_trans a b c : JS.le a b → JS.le b c → JS.le a c.
Proof. destruct a, b, c; simpl; try done; lia. Qed.

Lemma positive_sub_false a b :
  a ≠ NaN → b ≠ NaN → positive (sub a b) = false → JS.le a b.
Proof.
  destruct a, b; simpl; try done; intros _ _ Hp.
  apply Z.ltb_ge in Hp. lia.
Qed.

Lemma positive_sub_true a b :
  a ≠ NaN → b ≠ NaN → positive (sub a b) = true → JS.le b a.
Proof.
  destruct a, b; simpl; try done; intros _ _ Hp.
  apply Z.ltb_lt in Hp. lia.
Qed.

Lemma positive_sub_diag a : positive (sub a a) = false.
Proof. destruct a; simpl; try done. rewrite Z.sub_diag. done. Qed.

Lemma min2_le_l a b : min2 a b ≠ NaN → JS.le (min2 a b) a.
Proof. destruct a, b; simpl; try done; lia. Qed.

Lemma min2_le_r a b : min2 a b ≠ NaN → JS.le (min2 a b) b.
Proof. destruct a, b; simpl; try done; lia. Qed.

Lemma min2_cases a b : min2 a b = a ∨ min2 a b = b.
Proof.
  destruct a, b; simpl; auto.
  destruct (Z.min_spec z z0) as [[_ ->]|[_ ->]]; auto.
Qed.

Lemma Math_min_not_NaN l : Forall (λ n, n ≠ NaN) l → Math_min l ≠ NaN.
Proof.
  induction 1 as [|a l Ha _ IH]; simpl; [done|].
  destruct (min2_cases a (Math_min l)) as [->| ->]; done.
Qed.

Lemma Math_min_lower_bound l n :
  Forall (λ n, n ≠ NaN) l → n ∈ l → JS.le (Math_min l) n.
Proof.
  intros Hl. induction Hl as [|a l Ha Hl IH]; [by intros ?%elem_of_nil|].
  assert (Math_min (a :: l) ≠ NaN) as Hmin
    by (apply Math_min_not_NaN; by constructor).
  intros [->|Hn]%elem_of_cons; simpl in *.
  - by apply min2_le_l.
  - eapply le_trans; [by apply min2_le_r|]. by apply IH.
Qed.

Lemma Math_min_attained l : l ≠ [] → Math_min l ∈ l.
Proof.
  induction l as [|a l IH]; [done|]. intros _. simpl.
  destruct l as [|b l].
  - simpl. destruct a; simpl; apply list_elem_of_here.
  - destruct (min2_cases a (Math_min (b :: l))) as [->| ->].
    + apply list_elem_of_here.
    + apply list_elem_of_further, IH. done.
Qed.

Section MapFacts.
Context {V : Type}.
Implicit Types (m : Map V) (k : string) (v : V).

Lemma Map_get_set m k v k' :
  Map_get (Map_set m k v) k' = if decide (k = k') then Some v else Map_get m k'.
Proof.
  induction m as [|[k0 v0] m IH]; simpl.
  - repeat case_decide; congruence.
  - destruct (decide (k0 = k)) as [->|Hne]; simpl.
    + repeat case_decide; congruence.
    + rewrite IH. repeat case_decide; congruence.
Qed.

Lemma Map_get_None m k : Map_get m k = None ↔ k ∉ m.*1.
Proof.
  induction m as [|[k0 v0] m IH]; simpl.
  - split; [intros _; apply not_elem_of_nil|done].
  - rewrite not_elem_of_cons. case_decide; subst.
    + split; [done|]. intros [? _]. done.
    + rewrite IH. split; [done|]. by intros [_ ?].
Qed.

Lemma Map_get_elem_of m k v : Map_get m k = Some v → (k, v) ∈ m.
Proof.
  induction m as [|[k0 v0] m IH]; simpl; [done|].
  case_decide; [intros [= <-]; subst; left|right; auto].
Qed.

Lemma Map_elem_of_get m k v : NoDup m.*1 → (k, v) ∈ m → Map_get m k = Some v.
Proof.
  induction m as [|[k0 v0] m IH]; simpl; [by intros _ ?%elem_of_nil|].
  intros [Hk0 Hnd]%NoDup_cons [[= -> ->]|Hin]%elem_of_cons.
  - by rewrite decide_True.
  - rewrite decide_False; [by apply IH|].
    intros ->. apply Hk0. apply list_elem_of_fmap. by exists (k, v).
Qed.

Lemma Map_set_keys m k v :
  (Map_set m k v).*1 = if Map_has m k then m.*1 else m.*1 ++ [k].
Proof.
  unfold Map_has. induction m as [|[k0 v0] m IH]; csimpl; [done|].
  case_decide; csimpl; [done|]. rewrite IH. by destruct (Map_get m k).
Qed.

Lemma Map_set_NoDup m k v : NoDup m.*1 → NoDup (Map_set m k v).*1.
Proof.
  intros Hnd. rewrite Map_set_keys. unfold Map_has.
  destruct (Map_get m k) eqn:Hget; [done|].
  apply NoDup_app. split_and!; [done| |apply NoDup_singleton].
  intros x Hx ->%list_elem_of_singleton. by apply Map_get_None in Hget.
Qed.
End MapFacts.

(** ** The request collector *)

Lemma collected_nil : collected [] [].
Proof. split; [constructor|done]. Qed.

Lemma collected_snoc rs m r :
  collected rs m → collected (rs ++ [r]) (add_request m r).
Proof.
  destruct r as [k0 s0]. intros [Hnd Hget]. unfold add_request, Map_has. simpl.
  pose proof (Hget k0) as Hk0.
  assert (∀ k, (filter (λ r : string * Subscriber, r.1 = k) (rs ++ [(k0, s0)])).*2
               = (filter (λ r, r.1 = k) rs).*2 ++ if decide (k0 = k) then [s0] else [])
    as Hfilter.
  { intros k. rewrite filter_app, fmap_app. f_equal.
    rewrite filter_cons, filter_nil. simpl. by case_decide. }
  destruct (Map_get m k0) as [subs|] eqn:Hm.
  - rewrite Hm. split; [by apply Map_set_NoDup|].
    intros k. rewrite Map_get_set, Hfilter.
    destruct (decide (k0 = k)) as [<-|Hne].
    + destruct ((filter (λ r, r.1 = k0) rs).*2) as [|x l]; [done|].
      injection Hk0 as ->. done.
    + by rewrite app_nil_r.
  - rewrite Map_get_set, decide_True by done.
    split; [by do 2 apply Map_set_NoDup|].
    intros k. rewrite !Map_get_set, Hfilter.
    destruct (decide (k0 = k)) as [<-|Hne].
    + destruct ((filter (λ r, r.1 = k0) rs).*2) as [|x l]; [done|done].
    + by rewrite app_nil_r.
Qed.

Lemma collected_foldl rs' rs m :
  collected rs m → collected (rs ++ rs') (foldl add_request m rs').
Proof.
  revert rs m. induction rs' as [|r rs' IH]; intros rs m Hm; simpl.
  - by rewrite app_nil_r.
  - change (r :: rs') with ([r] ++ rs'). rewrite (assoc_L (++)).
    apply IH. by apply collected_snoc.
Qed.

Section CollectFacts.
Context `{StringRuntime} `{CollectorAPI}.

Lemma add_page_requests user tok m page :
  add_page user tok m page = foldl add_request m (page_request user tok page).
Proof.
  unfold add_page, page_request.
  destruct (page_has_properties page); simpl; [|done].
  case_decide; done.
Qed.

Lemma foldl_add_page user tok pages m :
  foldl (add_page user tok) m pages
  = foldl add_request m (pages ≫= page_request user tok).
Proof.
  revert m. induction pages as [|p pages IH]; intros m; csimpl; [done|].
  rewrite foldl_app, IH, add_page_requests. done.
Qed.

Lemma collect_user_requests m user :
  collect_user m user = foldl add_request m (user_requests user).
Proof.
  unfold collect_user, user_requests.
  destruct (fetch_user user) as [[tok pages]|]; [|done].
  apply foldl_add_page.
Qed.

Lemma collectStockRequests_requests users :
  collectStockRequests users = foldl add_request [] (requests users).
Proof.
  unfold collectStockRequests, requests. generalize ([] : Map (list Subscriber)).
  induction users as [|u users IH]; intros m; csimpl; [done|].
  rewrite foldl_app, IH, collect_user_requests. done.
Qed.

Lemma collectStockRequests_collected users :
  collected (requests users) (collectStockRequests users).
Proof.
  rewrite collectStockRequests_requests.
  apply (collected_foldl (requests users) []), collected_nil.
Qed.
End CollectFacts.

(** ** The queue builder *)

Lemma buildPriorityQueue_elem_of now m it :
  it ∈ buildPriorityQueue now m ↔ ∃ e, e ∈ m ∧ it = new_item now e.
Proof.
  unfold buildPriorityQueue. rewrite Array_sort_elem_of, list_elem_of_fmap.
  split; intros (e & ? & ?); by exists e.
Qed.

Lemma buildPriorityQueue_tickers now m :
  ticker <$> buildPriorityQueue now m ≡ₚ m.*1.
Proof.
  unfold buildPriorityQueue. rewrite Array_sort_Permutation.
  rewrite <- list_fmap_compose. done.
Qed.

Lemma Array_sort_fmap {A B : Type} (f : A → B) cmpA cmpB l :
  (∀ x y, cmpB (f x) (f y) = cmpA x y) →
  Array_sort cmpB (f <$> l) = f <$> Array_sort cmpA l.
Proof.
  intros Hcmp. induction l as [|a l IH]; csimpl; [done|].
  rewrite IH. generalize (Array_sort cmpA l). intros k.
  induction k as [|y k IHk]; csimpl; [done|].
  rewrite Hcmp. destruct (positive (cmpA a y)); csimpl; [by rewrite IHk|done].
Qed.

Lemma StronglySorted_lookup {A : Type} (R : A → A → Prop) l (i j : nat) a b :
  StronglySorted R l → (i < j)%nat → l !! i = Some a → l !! j = Some b → R a b.
Proof.
  intros Hs. revert i j. induction Hs as [|x l Hs IH Hx]; intros i j Hij Hi Hj.
  - done.
  - destruct j as [|j]; [lia|]. simpl in Hj.
    destruct i as [|i]; simpl in Hi.
    + injection Hi as ->. rewrite Forall_forall in Hx.
      eapply Hx, list_elem_of_lookup_2, Hj.
    + eapply (IH i j); [lia|done..].
Qed.

Lemma tier_index_recognized s :
  tier s ∈ recognized_tiers → ∃ n, tier_index s = Num n ∧ 1 ≤ n ≤ 4.
Proof.
  unfold tier_index, TIER_PRIORITY_get, recognized_tiers.
  rewrite !elem_of_cons, elem_of_nil.
  intros [->|[->|[->|[->|[]]]]]; simpl; eexists; (split; [done|lia]).
Qed.

Lemma TIER_PRIORITY_get_unrecognized t :
  t ∉ recognized_tiers → Map_get TIER_PRIORITY t = None.
Proof.
  unfold recognized_tiers. rewrite !not_elem_of_cons. intros (?&?&?&?&_).
  simpl. rewrite !decide_False by done. done.
Qed.

(** The fallback index, for every unrecognised tier that is not the name of
    an inherited property. *)
Lemma tier_index_fallback s :
  tier s ∉ recognized_tiers → tier s ∉ Object_prototype_properties →
  tier_index s = Num 99.
Proof.
  intros Hrec Hplain. unfold tier_index, TIER_PRIORITY_get.
  rewrite TIER_PRIORITY_get_unrecognized by done.
  rewrite bool_decide_eq_false_2 by done. done.
Qed.

Lemma tier_index_plain s :
  tier s ∉ Object_prototype_properties →
  ∃ n, tier_index s = Num n ∧ 1 ≤ n ≤ 99.
Proof.
  intros Hplain. destruct (decide (tier s ∈ recognized_tiers)) as [Hrec|Hrec].
  - destruct (tier_index_recognized s Hrec) as (n&->&?). exists n. split; [done|lia].
  - rewrite tier_index_fallback by done. exists 99. split; [done|lia].
Qed.

Lemma new_item_priority_not_NaN now m e :
  plain_tiers m → e ∈ m → priority (new_item now e) ≠ NaN.
Proof.
  intros Hplain He. destruct e as [k subs]. simpl.
  apply Math_min_not_NaN. rewrite Forall_fmap, Forall_forall. intros s Hs. simpl.
  destruct (tier_index_plain s) as (n&->&_); [exact (Hplain _ _ _ He Hs)|done].
Qed.

Lemma buildPriorityQueue_sorted now m :
  plain_tiers m →
  StronglySorted (λ a b, JS.le (priority a) (priority b)) (buildPriorityQueue now m).
Proof.
  intros Hplain. unfold buildPriorityQueue.
  apply (Array_sort_sorted by_priority _ (λ it, priority it ≠ NaN)).
  - intros x y Hx Hy. by apply positive_sub_false.
  - intros x y Hx Hy. by apply positive_sub_true.
  - intros x y z. apply le_trans.
  - rewrite Forall_fmap, Forall_forall. intros e He.
    by eapply new_item_priority_not_NaN.
Qed.

Lemma buildPriorityQueue_stable now m p :
  ticker <$> filter (λ it, priority it = p) (buildPriorityQueue now m)
  = (filter (λ e, Math_min (tier_index <$> e.2) = p) m).*1.
Proof.
  unfold buildPriorityQueue. rewrite Array_sort_filter.
  - induction m as [|e m IH]; csimpl; [done|].
    rewrite !filter_cons. simpl. case_decide; csimpl; by rewrite IH.
  - intros x y Hx Hy. unfold by_priority. rewrite Hx, Hy.
    apply positive_sub_diag.
Qed.

Lemma buildPriorityQueue_clock now now' m :
  ticker <$> buildPriorityQueue now' m = ticker <$> buildPriorityQueue now m.
Proof.
  unfold buildPriorityQueue.
  set (f := λ it, {| ticker := ticker it; priority := priority it;
                     subscribers := subscribers it; requestedAt := now' |}).
  assert (new_item now' <$> m = f <$> (new_item now <$> m)) as ->.
  { rewrite <- list_fmap_compose. by apply list_fmap_ext. }
  rewrite (Array_sort_fmap f by_priority by_priority) by done.
  rewrite <- list_fmap_compose. by apply list_fmap_ext.
Qed.

Example buildPriorityQueue_mixed :
  (λ it, (ticker it, priority it)) <$> buildPriorityQueue Sample.clock Sample.mixed_tiers
  = [("AAPL", Num 1); ("MSFT", Num 3); ("NVDA", Num 99)].
Proof. reflexivity. Qed.

(** An item all of whose subscribers have an unrecognised tier comes after
    every item with a recognised-tier subscriber, inherited property names
    apart. *)
Lemma unrecognized_sorts_last now m (i j : nat) a b :
  plain_tiers m →
  buildPriorityQueue now m !! i = Some a →
  buildPriorityQueue now m !! j = Some b →
  subscribers a ≠ [] →
  (∀ s, s ∈ subscribers a → tier s ∉ recognized_tiers) →
  (∃ s, s ∈ subscribers b ∧ tier s ∈ recognized_tiers) →
  priority a = Num 99 ∧ (j < i)%nat.
Proof.
  intros Hplain Hi Hj Hne Ha (sb & Hsb & Hrec).
  pose proof (list_elem_of_lookup_2 _ _ _ Hi) as Hain.
  pose proof (list_elem_of_lookup_2 _ _ _ Hj) as Hbin.
  apply buildPriorityQueue_elem_of in Hain as ([ka sa] & Hea & ->).
  apply buildPriorityQueue_elem_of in Hbin as ([kb sbs] & Heb & ->).
  simpl in *.
  assert (Math_min (tier_index <$> sa) = Num 99) as Hpa.
  { assert (tier_index <$> sa = (λ _, Num 99) <$> sa) as ->.
    { apply list_fmap_ext. intros idx s Hs%list_elem_of_lookup_2.
      apply tier_index_fallback; [by apply Ha|exact (Hplain _ _ _ Hea Hs)]. }
    clear -Hne. induction sa as [|s [|s' sa] IH]; [done|done|].
    specialize (IH ltac:(done)). csimpl in *. by rewrite IH. }
  split; [done|].
  assert (∃ n, Math_min (tier_index <$> sbs) = Num n ∧ n ≤ 4) as (n & Hpb & Hn).
  { destruct (tier_index_recognized sb Hrec) as (nb & Hnb & ?).
    assert (Forall (λ n, n ≠ NaN) (tier_index <$> sbs)) as HF.
    { rewrite Forall_fmap, Forall_forall. intros s Hs. simpl.
      destruct (tier_index_plain s) as (?&->&_); [exact (Hplain _ _ _ Heb Hs)|done]. }
    pose proof (Math_min_lower_bound _ _ HF (list_elem_of_fmap_2 tier_index _ _ Hsb))
      as Hle.
    assert (tier_index <$> sbs ≠ []) as Hne'.
    { intros Hnil. rewrite Hnil in Hle. simpl in Hle. by rewrite Hnb in Hle. }
    apply Math_min_attained, list_elem_of_fmap in Hne' as (s0 & Hs0 & Hin0).
    destruct (tier_index_plain s0) as (n & Hn & _); [exact (Hplain _ _ _ Heb Hin0)|].
    rewrite Hs0, Hn, Hnb in Hle. simpl in Hle.
    exists n. split; [congruence|lia]. }
  destruct (decide (j < i)%nat) as [|Hge]; [done|]. exfalso.
  assert (i ≠ j) as Hij.
  { intros ->. rewrite Hi in Hj.
    assert (new_item now (ka, sa) = new_item now (kb, sbs)) as Heq by congruence.
    apply (f_equal priority) in Heq. simpl in Heq. rewrite Hpa, Hpb in Heq.
    injection Heq as <-. lia. }
  pose proof (StronglySorted_lookup _ _ i j _ _
                (buildPriorityQueue_sorted now m Hplain) ltac:(lia) Hi Hj) as Hle.
  simpl in Hle. rewrite Hpa, Hpb in Hle. simpl in Hle. lia.
Qed.

Section Deduplication.
Context `{StringRuntime} `{CollectorAPI}.

(** C1.  For every set of per-tenant requests, the queue produced by
    collecting the requests and building the priority queue holds exactly
    one item per distinct normalised subject key (no key twice, and a key
    is present exactly when some tenant requested it), and the subscriber
    list of that item is the list of the subscribers of all tenants that
    requested the subject. *)
Theorem queue_one_item_per_subject (now : Date) (users : list User) :
  let queue := buildPriorityQueue now (collectStockRequests users) in
  NoDup (ticker <$> queue) ∧
  (∀ k, k ∈ ticker <$> queue ↔ k ∈ (requests users).*1) ∧
  (∀ it, it ∈ queue →
     subscribers it = requested_by users (ticker it) ∧ subscribers it ≠ []).
Proof.
  intros queue. subst queue.
  destruct (collectStockRequests_collected users) as [Hnd Hget].
  set (m := collectStockRequests users) in *.
  split_and!.
  - rewrite buildPriorityQueue_tickers. done.
  - intros k. rewrite buildPriorityQueue_tickers.
    destruct (Map_get m k) as [subs|] eqn:Hk.
    + split; intros _.
      * rewrite Hget in Hk.
        destruct (filter (λ r, r.1 = k) (requests users)) as [|r rs] eqn:Hf;
          [done|].
        assert (r ∈ filter (λ r, r.1 = k) (requests users)) as Hr
          by (rewrite Hf; left).
        apply list_elem_of_filter in Hr as [<- Hr].
        by apply list_elem_of_fmap_2.
      * apply Map_get_elem_of in Hk.
        apply (list_elem_of_fmap_2 fst) in Hk. done.
    + split; intros Hin.
      * by apply Map_get_None in Hk.
      * exfalso. rewrite Hget in Hk.
        apply list_elem_of_fmap in Hin as (r & -> & Hr).
        assert (r ∈ filter (λ r0, r0.1 = r.1) (requests users)) as Hf
          by (by apply list_elem_of_filter).
        destruct (filter (λ r0, r0.1 = r.1) (requests users));
          [by apply elem_of_nil in Hf|done].
  - intros it ([k subs] & He & ->)%buildPriorityQueue_elem_of. simpl.
    apply Map_elem_of_get in He; [|done]. rewrite Hget in He.
    unfold requested_by.
    destruct ((filter (λ r, r.1 = k) (requests users)).*2); [done|].
    by injection He as <-.
Qed.
End Deduplication.

(** C5, as the code has it.  For every ticker map whose tiers are not names
    of inherited properties, each item's priority is the minimum tier index
    among its subscribers (a lower bound of all of them, attained by one),
    the list is in ascending priority order, items of equal priority keep the
    insertion order of the ticker map (the sort is stable and compares
    priorities only), and a second build of the same map lists the subjects
    in the same order. *)
Theorem priority_order_stable (now : Date) (m : Map (list Subscriber)) :
  plain_tiers m →
  let queue := buildPriorityQueue now m in
  (∀ it, it ∈ queue →
     priority it = Math_min (tier_index <$> subscribers it) ∧
     (∀ s, s ∈ subscribers it → JS.le (priority it) (tier_index s)) ∧
     (subscribers it ≠ [] → ∃ s, s ∈ subscribers it ∧ priority it = tier_index s)) ∧
  StronglySorted (λ a b, JS.le (priority a) (priority b)) queue ∧
  (∀ p, ticker <$> filter (λ it, priority it = p) queue
        = (filter (λ e, Math_min (tier_index <$> e.2) = p) m).*1) ∧
  (∀ now', ticker <$> buildPriorityQueue now' m = ticker <$> queue).
Proof.
  intros Hplain queue. subst queue. split_and!.
  - intros it ([k subs] & He & ->)%buildPriorityQueue_elem_of. simpl.
    assert (Forall (λ n, n ≠ NaN) (tier_index <$> subs)) as HF.
    { rewrite Forall_fmap, Forall_forall. intros s Hs. simpl.
      destruct (tier_index_plain s) as (?&->&_); [exact (Hplain _ _ _ He Hs)|done]. }
    split_and!; [done| |].
    + intros s Hs. apply Math_min_lower_bound; [done|].
      by apply list_elem_of_fmap_2.
    + intros Hne.
      assert (tier_index <$> subs ≠ []) as Hne' by (by destruct subs).
      apply Math_min_attained, list_elem_of_fmap in Hne' as (s & Hs & Hin).
      by exists s.
  - by apply buildPriorityQueue_sorted.
  - apply buildPriorityQueue_stable.
  - intros now'. apply buildPriorityQueue_clock.
Qed.

Lemma plain_tiers_Forall (m : Map (list Subscriber)) :
  Forall (λ e, Forall (λ s, tier s ∉ Object_prototype_properties) e.2) m →
  plain_tiers m.
Proof.
  rewrite Forall_forall. intros Hm k subs s Hk Hs.
  specialize (Hm _ Hk). rewrite Forall_forall in Hm. by apply Hm.
Qed.

Lemma mixed_tiers_plain : plain_tiers Sample.mixed_tiers.
Proof. apply plain_tiers_Forall. compute_done. Qed.

Lemma priority_order_stable_witness :
  StronglySorted (λ a b, JS.le (priority a) (priority b))
    (buildPriorityQueue Sample.clock Sample.mixed_tiers).
Proof.
  exact (proj1 (proj2
    (priority_order_stable Sample.clock Sample.mixed_tiers mixed_tiers_plain))).
Defined.

(** C5, as stated, fails: two subjects of equal priority come out in the
    order in which the ticker map holds them, here "ZZZ" before "AAA". *)
Lemma ties_not_broken_by_ticker :
  ¬ ties_by_ticker (buildPriorityQueue Sample.clock Sample.two_free_tickers).
Proof.
  intros Hties.
  specialize (Hties 0%nat 1%nat _ _ ltac:(lia) eq_refl eq_refl eq_refl).
  vm_compute in Hties. discriminate.
Qed.

(** C10 at a tier string outside the four recognised tiers that names an
    inherited property: the index is [NaN], not the fallback 99. *)
Theorem inherited_tier_has_no_fallback :
  let s := Sample.subscriber "eve" "page-5" "constructor" in
  (tier s ∉ recognized_tiers) ∧
  tier_index s = NaN ∧
  priority <$> buildPriorityQueue Sample.clock Sample.inherited_tier = [NaN].
Proof.
  split_and!.
  - unfold recognized_tiers. simpl. rewrite !not_elem_of_cons.
    split_and!; try discriminate. apply not_elem_of_nil.
  - reflexivity.
  - reflexivity.
Qed.


(** ** Traces and the world *)

Lemma writes_app p es1 es2 : writes p (es1 ++ es2) = writes p es1 ++ writes p es2.
Proof. apply omap_app. Qed.

Lemma archives_app es1 es2 : archives (es1 ++ es2) = archives es1 ++ archives es2.
Proof. apply omap_app. Qed.

Lemma attempted_app es1 es2 : attempted (es1 ++ es2) = attempted es1 ++ attempted es2.
Proof. apply omap_app. Qed.

Lemma replay_app w es1 es2 : replay w (es1 ++ es2) = replay (replay w es1) es2.
Proof. apply foldl_app. Qed.

Lemma replay_status w es p :
  page_status (replay w es) !! p
  = match last (writes p es) with
    | Some st => Some st
    | None => page_status w !! p
    end.
Proof.
  induction es as [|e es IH] using rev_ind; [done|].
  rewrite replay_app, writes_app. simpl.
  destruct e as [| q st notes [|] | | | u q [id|] | | |]; simpl;
    rewrite ?app_nil_r; try exact IH.
  destruct (decide (q = p)) as [->|Hne]; simpl.
  - rewrite last_snoc. apply lookup_insert_eq.
  - rewrite app_nil_r, lookup_insert_ne by done. exact IH.
Qed.

Lemma replay_history w es : history (replay w es) = history w ++ archives es.
Proof.
  induction es as [|e es IH] using rev_ind; [by rewrite app_nil_r|].
  rewrite replay_app, archives_app. simpl.
  destruct e as [| q st notes [|] | | | u q [id|] | | |]; simpl;
    rewrite ?app_nil_r; try exact IH.
  rewrite IH. by rewrite (assoc_L (++)).
Qed.

Lemma last_all_equal {A} (l : list A) (x : A) :
  Forall (λ y, y = x) l → l ≠ [] → last l = Some x.
Proof.
  induction l as [|y l IH] using rev_ind; [done|].
  intros [_ Hy]%Forall_app _. apply Forall_singleton in Hy as ->.
  apply last_snoc.
Qed.

(** ** The join *)

Lemma allSettled_events {A} (tasks : list (Comp A)) :
  (allSettled tasks).1 = tasks ≫= fst.
Proof.
  induction tasks as [|[es r] tasks IH]; [done|]. csimpl.
  destruct (allSettled tasks) as [es' rs]. simpl in *. by rewrite IH.
Qed.

Lemma allSettled_result {A} (tasks : list (Comp A)) :
  (allSettled tasks).2 = Ok (snd <$> tasks).
Proof.
  induction tasks as [|[es r] tasks IH]; [done|]. csimpl.
  destruct (allSettled tasks) as [es' rs]. simpl in *. by rewrite IH.
Qed.

Lemma allSettled_eq {A} (tasks : list (Comp A)) :
  allSettled tasks = (tasks ≫= fst, Ok (snd <$> tasks)).
Proof.
  rewrite <- allSettled_events, <- allSettled_result. by destruct (allSettled tasks).
Qed.

(** ** The engine, piece by piece *)

Section EngineFacts.
Context `{EngineAPI} `{EngineConfig} {I : Type} `{QueueItemLike I}.
Context (now : Date).

Lemma setAnalysisError_eq s message context :
  setAnalysisError s message context =
    ([PageUpdate (pageId s) Error
        (Some (String.substring 0 2000 (formattedError message context)))
        (pages_update s Error);
      if pages_update s Error
      then NotifyAdmin (ctx_ticker context) (ctx_errorType context) message
      else NotifyAdmin (ctx_ticker context) unknown
             ("Failed to set error state: " +:+ "pages.update failed")],
     Ok tt).
Proof.
  unfold setAnalysisError, update_page. by destruct (pages_update s Error).
Qed.

Lemma setAnalyzingStatus_eq subs :
  setAnalyzingStatus subs =
    (subs ≫= (λ s, [PageUpdate (pageId s) Analyzing None (pages_update s Analyzing)]),
     Ok tt).
Proof.
  unfold setAnalyzingStatus. rewrite allSettled_eq. simpl.
  rewrite app_nil_r. f_equal.
  induction subs as [|s subs IH]; csimpl; [done|]. rewrite IH. f_equal.
  unfold update_page. by destruct (pages_update s Analyzing).
Qed.

Lemma broadcastError_eq subs message t :
  ∃ context : Subscriber → ErrorContext,
    broadcastError now subs message t =
      (subs ≫= (λ s, (setAnalysisError s message (context s)).1), Ok tt).
Proof.
  exists (λ s, {| ctx_ticker := if decide (t = "") then "UNKNOWN" else t;
                  ctx_userEmail := Some (email s);
                  ctx_timestamp := now;
                  ctx_errorType := analysis_failed;
                  ctx_phase := Some "analysis" |}).
  unfold broadcastError. rewrite allSettled_eq. simpl.
  rewrite app_nil_r. f_equal.
  induction subs as [|s subs IH]; csimpl; [done|]. rewrite IH. f_equal.
  by rewrite setAnalysisError_eq.
Qed.

Lemma analyzeWithRetry_from_events item maxRetries fuel attempt :
  Forall analysis_event (analyzeWithRetry_from item maxRetries fuel attempt).1.
Proof.
  revert attempt. induction fuel as [|fuel IH]; intros attempt; simpl; [constructor|].
  destruct (item_subscribers item) as [|first rest]; simpl.
  { by repeat constructor. }
  destruct (analyzeStockCore _ _ _) as [result|message]; simpl;
    [|by repeat constructor].
  destruct (success result || negb (isGeminiRateLimitError (error result)));
    simpl; [by repeat constructor|].
  destruct (attempt <? maxRetries - 1)%nat; simpl; [|by repeat constructor].
  specialize (IH (S attempt)).
  destruct (analyzeWithRetry_from item maxRetries fuel (S attempt)) as [es r].
  simpl in *. by repeat constructor.
Qed.

Lemma analysis_events_silent es p :
  Forall analysis_event es → writes p es = [] ∧ archives es = [] ∧ attempted es = [].
Proof.
  induction 1 as [|e es He _ (IH1 & IH2 & IH3)]; [done|].
  destruct e; try done; simpl; by rewrite ?IH1, ?IH2, ?IH3.
Qed.

(** With a positive retry budget the analysis step returns. *)
Lemma analyzeWithRetry_from_returns item maxRetries fuel attempt :
  (maxRetries ≤ attempt + fuel)%nat → (0 < fuel)%nat →
  ∃ result, (analyzeWithRetry_from item maxRetries fuel attempt).2 = Ok result.
Proof.
  revert attempt. induction fuel as [|fuel IH]; intros attempt Hle Hpos; [lia|].
  simpl. destruct (item_subscribers item) as [|first rest]; simpl; [by eexists|].
  destruct (analyzeStockCore _ _ _) as [result|message]; simpl; [|by eexists].
  destruct (success result || negb (isGeminiRateLimitError (error result)));
    simpl; [by eexists|].
  destruct (attempt <? maxRetries - 1)%nat eqn:Hlt; simpl; [|by eexists].
  apply Nat.ltb_lt in Hlt.
  destruct (IH (S attempt)) as [r Hr]; [lia..|].
  destruct (analyzeWithRetry_from item maxRetries fuel (S attempt)) as [es r'].
  simpl in *. by exists r.
Qed.

Lemma analyzeWithRetry_returns item :
  ∃ result, (analyzeWithRetry item 3).2 = Ok result.
Proof. apply analyzeWithRetry_from_returns; lia. Qed.
End EngineFacts.

(** ** Strings, and the decimal in an error text *)

Lemma substring_0_all n s : (String.length s ≤ n)%nat → String.substring 0 n s = s.
Proof.
  revert n. induction s as [|c s IH]; intros [|n] Hn; simpl in *; try done; [lia|].
  rewrite IH by lia. done.
Qed.

Lemma prefix_app p s : String.prefix p (p +:+ s) = true.
Proof.
  induction p as [|c p IH]; simpl; [by destruct s|].
  by destruct (Ascii.ascii_dec c c).
Qed.

Lemma drop_string_app p s : drop_string (String.length p) (p +:+ s) = s.
Proof.
  unfold drop_string. induction p as [|c p IH]; simpl.
  - rewrite Nat.sub_0_r. by apply substring_0_all.
  - done.
Qed.

Lemma append_cons c (a b : string) : String c a +:+ b = String c (a +:+ b).
Proof. reflexivity. Qed.

Lemma append_nil_l (s : string) : "" +:+ s = s.
Proof. reflexivity. Qed.

Lemma string_app_assoc (a b c : string) : (a +:+ b) +:+ c = a +:+ (b +:+ c).
Proof.
  induction a as [|x a IH]; [done|]. rewrite !append_cons. f_equal. exact IH.
Qed.

Lemma digits_value_app acc a b :
  digits_value acc (a +:+ b) = digits_value (digits_value acc a) b.
Proof. revert acc. induction a as [|c a IH]; intros acc; simpl; [done|]. apply IH. Qed.

Lemma digits_value_shift acc s :
  digits_value acc s = acc * 10 ^ Z.of_nat (String.length s) + digits_value 0 s.
Proof.
  revert acc. induction s as [|c s IH]; intros acc.
  - simpl. lia.
  - cbn [digits_value String.length]. rewrite IH, (IH (10 * 0 + _)).
    rewrite Nat2Z.inj_succ, Z.pow_succ_r by lia. lia.
Qed.

Lemma is_digit_value c : is_digit c = true → 0 ≤ Z.of_nat (nat_of_ascii c - 48) ≤ 9.
Proof.
  unfold is_digit. intros [H1 H2]%andb_true_iff.
  apply Nat.leb_le in H1, H2. lia.
Qed.

Lemma digits_value_bound s :
  all_digits s = true → 0 ≤ digits_value 0 s < 10 ^ Z.of_nat (String.length s).
Proof.
  induction s as [|c s IH]; [simpl; lia|].
  cbn [all_digits]. intros [Hc Hs]%andb_true_iff. specialize (IH Hs).
  cbn [digits_value String.length]. rewrite digits_value_shift.
  rewrite Nat2Z.inj_succ, Z.pow_succ_r by lia.
  pose proof (is_digit_value c Hc). nia.
Qed.

Lemma is_digit_zero c :
  is_digit c = true → Z.of_nat (nat_of_ascii c - 48) = 0 → c = "0"%char.
Proof.
  unfold is_digit. intros [H1 H2]%andb_true_iff Hz.
  apply Nat.leb_le in H1, H2.
  assert (nat_of_ascii c = 48%nat) as Hc by lia.
  rewrite <- (ascii_nat_embedding c), Hc. reflexivity.
Qed.

Lemma all_zero_value s :
  all_digits s = true → all_zero s = bool_decide (digits_value 0 s = 0).
Proof.
  induction s as [|c s IH]; [done|].
  cbn [all_digits]. intros [Hc Hs]%andb_true_iff. specialize (IH Hs).
  cbn [all_zero digits_value]. rewrite digits_value_shift, IH.
  pose proof (is_digit_value c Hc) as Hv.
  pose proof (digits_value_bound s Hs) as Hb.
  assert (0 < 10 ^ Z.of_nat (String.length s)) as Hp by (apply Z.pow_pos_nonneg; lia).
  destruct (decide (c = "0"%char)) as [->|Hne].
  - rewrite bool_decide_eq_true_2 by done. simpl.
    apply bool_decide_ext. simpl. lia.
  - rewrite (bool_decide_eq_false_2 (c = _)) by done. simpl.
    symmetry. apply bool_decide_eq_false_2. intros Hz.
    apply Hne, is_digit_zero; [done|]. nia.
Qed.

Lemma span_digits s rest :
  all_digits s = true →
  match rest with String c _ => is_digit c = false | EmptyString => True end →
  span is_digit (s +:+ rest) = (s, rest).
Proof.
  intros Hs Hrest. induction s as [|c s IH].
  - rewrite append_nil_l. destruct rest as [|c rest]; [done|]. simpl. by rewrite Hrest.
  - cbn [all_digits] in Hs. apply andb_true_iff in Hs as [Hc Hs].
    rewrite append_cons. cbn [span]. rewrite Hc, IH by done. done.
Qed.

Lemma span_digits_or_dots s rest :
  all_digits s = true →
  span is_digit_or_dot (s +:+ rest)
  = ((s +:+ (span is_digit_or_dot rest).1), (span is_digit_or_dot rest).2).
Proof.
  intros Hs. induction s as [|c s IH].
  - rewrite !append_nil_l. by destruct (span is_digit_or_dot rest).
  - cbn [all_digits] in Hs. apply andb_true_iff in Hs as [Hc Hs].
    rewrite !append_cons. cbn [span]. unfold is_digit_or_dot at 1. rewrite Hc. cbn [orb].
    rewrite IH by done. done.
Qed.

Lemma append_nil_r (s : string) : s +:+ "" = s.
Proof. induction s as [|c s IH]; [done|]. by rewrite append_cons, IH. Qed.

(** The capture group for a text that starts with the phrase. *)
Lemma match_retry_here_decimal int_part frac post :
  all_digits int_part = true → all_digits frac = true → int_part ≠ "" →
  let point := if decide (frac = "") then "" else "." +:+ frac in
  match_retry_here ("Please retry in " +:+ int_part +:+ point +:+ "s" +:+ post)
  = Some (int_part +:+ point).
Proof.
  intros Hi Hf Hne point. unfold match_retry_here.
  rewrite prefix_app.
  rewrite (drop_string_app "Please retry in ").
  assert (span is_digit_or_dot (int_part +:+ point +:+ "s" +:+ post)
          = (int_part +:+ point, "s" +:+ post)) as ->.
  { rewrite span_digits_or_dots by done. subst point.
    case_decide as Hfrac.
    - rewrite append_nil_l. simpl. by rewrite append_nil_r.
    - rewrite string_app_assoc, append_cons, append_nil_l. cbn [span].
      change (is_digit_or_dot ".") with true. cbv iota.
      rewrite span_digits_or_dots by done. simpl. by rewrite append_nil_r. }
  rewrite decide_False; [done|]. by destruct int_part.
Qed.

(** The phrase has no border: where it begins within a text that is
    followed by the phrase, it lies within that text. *)
Lemma phrase_begins_within (u rest : string) :
  u ≠ "" → String.prefix "Please retry in " (u +:+ "Please retry in " +:+ rest) = true →
  String.prefix "Please retry in " u = true.
Proof.
  intros Hu Hp.
  do 16 (destruct u as [|? u];
         [first [done | by vm_compute in Hp]
         |rewrite append_cons in Hp; cbn [String.prefix] in Hp |- *;
          destruct (Ascii.ascii_dec _ _); [|done]]).
  by destruct u.
Qed.

Lemma match_retry_skip (pre rest : string) :
  includes pre "Please retry in " = false →
  match_retry (pre +:+ "Please retry in " +:+ rest)
  = match_retry ("Please retry in " +:+ rest).
Proof.
  induction pre as [|c pre IH]; [done|]. intros Hinc.
  cbn [includes] in Hinc.
  destruct (String.prefix "Please retry in " (String c pre)) eqn:Hp; [done|].
  rewrite append_cons. cbn [match_retry]. unfold match_retry_here at 1.
  destruct (String.prefix "Please retry in " (String c (pre +:+ "Please retry in " +:+ rest)))
    eqn:Hp'.
  - exfalso. apply (phrase_begins_within (String c pre) rest) in Hp'; [|done]. congruence.
  - by apply IH.
Qed.

Lemma match_retry_absent (text : string) :
  includes text "Please retry in " = false → match_retry text = None.
Proof.
  induction text as [|c text IH]; intros Hinc.
  - done.
  - cbn [includes] in Hinc.
    destruct (String.prefix "Please retry in " (String c text)) eqn:Hp; [done|].
    cbn [match_retry]. unfold match_retry_here. rewrite Hp. by apply IH.
Qed.

(** Where the binary64 rounding does not show: the ceiling of [i + r/d],
    capped at 60, when the quotient is a whole number or has at most
    fourteen decimals. *)
Lemma ceil_binary64_capped i r d :
  0 ≤ i → 0 ≤ r < d → r = 0 ∨ d ≤ 10 ^ 14 →
  min2 (ceil_binary64 (i * d + r) d) (Num 60)
  = Num (Z.min (i + if decide (r = 0) then 0 else 1) 60).
Proof.
  intros Hi Hr Hshort. unfold ceil_binary64.
  assert ((i * d + r) / d = i) as Hdiv.
  { symmetry. apply (Z.div_unique_pos _ _ i r); lia. }
  rewrite Hdiv.
  destruct (i * d + r <? d) eqn:Hlt.
  { apply Z.ltb_lt in Hlt. assert (i = 0) as -> by nia. rewrite Z.mul_0_l, Z.add_0_l.
    case_decide as Hr0.
    - subst r. rewrite Z.mul_0_l, (proj2 (Z.leb_le 0 d)) by lia. done.
    - destruct Hshort as [|Hd]; [done|].
      rewrite (proj2 (Z.leb_gt _ _)); [done|].
      assert (10 ^ 14 < 2 ^ 1075) by (by vm_compute). nia. }
  apply Z.ltb_ge in Hlt. assert (1 ≤ i) as Hi1 by nia.
  pose proof (Z.log2_nonneg i) as He0.
  destruct (Z.log2 i <? 52) eqn:He.
  - apply Z.ltb_lt in He.
    replace (i * d + r - i * d) with r by lia.
    case_decide as Hr0.
    + subst r. rewrite Z.mul_0_l. rewrite (proj2 (Z.leb_le _ _)) by lia.
      simpl. f_equal. lia.
    + destruct Hshort as [|Hd]; [done|].
      destruct (decide (i < 64)) as [Hsmall|Hbig].
      * assert (Z.log2 i < 6) as He6 by (apply Z.log2_lt_pow2; [lia|by vm_compute]).
        rewrite (proj2 (Z.leb_gt _ _)); [done|].
        assert (2 ^ 48 ≤ 2 ^ (53 - Z.log2 i)) as Hpow
          by (apply Z.pow_le_mono_r; lia).
        assert (10 ^ 14 < 2 ^ 48) by (by vm_compute). nia.
      * destruct (_ <=? d); simpl; f_equal; lia.
  - apply Z.ltb_ge in He. cbv zeta.
    set (ulp := 2 ^ (Z.log2 i - 52)).
    assert (0 < ulp) as Hulp by (apply Z.pow_pos_nonneg; lia).
    assert (2 ^ 52 * ulp ≤ i) as Hbig.
    { subst ulp. rewrite <- Z.pow_add_r by lia.
      replace (52 + (Z.log2 i - 52)) with (Z.log2 i) by lia.
      apply Z.log2_spec. lia. }
    assert (2 ^ 52 ≤ (i * d + r) / (d * ulp)) as Hq.
    { apply Z.div_le_lower_bound; nia. }
    assert (4503599627370496 = 2 ^ 52) as Hc by (by vm_compute).
    rewrite <- Hc in Hq, Hbig.
    assert (Z.min (i + (if decide (r = 0) then 0 else 1)) 60 = 60) as ->
      by (case_decide; nia).
    destruct (2 ^ 1024 <=? _); [done|]. simpl. f_equal.
    destruct (_ || _); nia.
Qed.

Lemma ceil_parseFloat_decimal int_part frac :
  all_digits int_part = true → all_digits frac = true → int_part ≠ "" →
  all_zero frac = true ∨ (String.length frac ≤ 14)%nat →
  min2 (ceil_parseFloat (int_part +:+ if decide (frac = "") then "" else "." +:+ frac))
       (Num 60)
  = Num (Z.min (digits_value 0 int_part + if all_zero frac then 0 else 1) 60).
Proof.
  intros Hi Hf Hne Hshort. unfold ceil_parseFloat.
  assert (span is_digit (int_part +:+ (if decide (frac = "") then "" else "." +:+ frac))
          = (int_part, if decide (frac = "") then "" else "." +:+ frac)) as ->.
  { apply span_digits; [done|]. by case_decide. }
  assert (match (if decide (frac = "") then "" else "." +:+ frac) with
          | String "."%char rest' => (span is_digit rest').1
          | _ => ""
          end = frac) as ->.
  { case_decide as Hfrac; [done|]. rewrite append_cons, append_nil_l.
    rewrite <- (append_nil_r frac) at 1. by rewrite span_digits. }
  rewrite decide_False by (intros [? _]; done).
  rewrite digits_value_app, digits_value_shift.
  pose proof (digits_value_bound _ Hi) as [Hi0 _].
  pose proof (digits_value_bound _ Hf) as Hf0.
  rewrite ceil_binary64_capped; [|done|done|].
  - rewrite (all_zero_value frac Hf).
    destruct (decide (digits_value 0 frac = 0)) as [Hz|Hz].
    + by rewrite bool_decide_eq_true_2.
    + by rewrite bool_decide_eq_false_2.
  - destruct Hshort as [Hz|Hlen].
    + left. rewrite (all_zero_value frac Hf) in Hz. by apply bool_decide_eq_true in Hz.
    + right. apply Z.pow_le_mono_r; lia.
Qed.

Lemma suggests_not_empty text int_part frac : suggests text int_part frac → text ≠ "".
Proof.
  intros (_ & _ & _ & pre & post & _ & ->). by destruct pre.
Qed.

(** What [extractRetryAfter] reads from a text that suggests a delay. *)
Lemma extractRetryAfter_suggested text int_part frac :
  suggests text int_part frac →
  all_zero frac = true ∨ (String.length frac ≤ 14)%nat →
  extractRetryAfter (Some text)
  = Some (Num (Z.min (digits_value 0 int_part + if all_zero frac then 0 else 1) 60)).
Proof.
  intros Hsug Hshort. pose proof (suggests_not_empty _ _ _ Hsug) as Hne.
  destruct Hsug as (Hi & Hf & Hint & pre & post & Hpre & ->).
  unfold extractRetryAfter. rewrite decide_False by done.
  rewrite match_retry_skip by done.
  assert (match_retry ("Please retry in " +:+ int_part
                         +:+ (if decide (frac = "") then "" else "." +:+ frac)
                         +:+ "s" +:+ post)
          = Some (int_part +:+ if decide (frac = "") then "" else "." +:+ frac)) as ->.
  { rewrite append_cons. cbn [match_retry]. rewrite <- append_cons.
    by rewrite match_retry_here_decimal. }
  by rewrite ceil_parseFloat_decimal.
Qed.

Lemma retry_delay_scheduled error attempt :
  match extractRetryAfter error with
  | Some n => truthy n = false
  | None => True
  end →
  retry_delay error attempt = scheduled attempt.
Proof.
  intros Hex. unfold retry_delay.
  assert (match backoffDelays !! attempt with Some ms => Num ms | None => NaN end
          = scheduled attempt) as ->.
  { by destruct attempt as [|[|[|]]]. }
  destruct (extractRetryAfter error); [by rewrite Hex|done].
Qed.

Lemma retry_delay_suggested text int_part frac attempt :
  suggests text int_part frac →
  all_zero frac = true ∨ (String.length frac ≤ 14)%nat →
  let seconds := digits_value 0 int_part + if all_zero frac then 0 else 1 in
  retry_delay (Some text) attempt
  = if decide (seconds = 0) then scheduled attempt else Num (Z.min seconds 60 * 1000).
Proof.
  intros Hsug Hshort seconds.
  pose proof (extractRetryAfter_suggested text int_part frac Hsug Hshort) as Hex.
  fold seconds in Hex. case_decide as Hz.
  - apply retry_delay_scheduled. rewrite Hex, Hz. done.
  - unfold retry_delay. rewrite Hex. simpl.
    destruct Hsug as (Hi & _).
    pose proof (digits_value_bound _ Hi) as [Hi0 _].
    rewrite (proj2 (Z.eqb_neq _ _)); [done|].
    subst seconds. destruct (all_zero frac); lia.
Qed.

(** ** The retry delay *)

Lemma digits_value_nonneg acc s : 0 ≤ acc → 0 ≤ digits_value acc s.
Proof. revert acc. induction s as [|c s IH]; intros acc Hacc; simpl; [done|]. apply IH. lia. Qed.

Lemma ceil_binary64_range n d :
  0 ≤ n → 0 < d →
  ceil_binary64 n d = PosInfinity ∨ ∃ z, ceil_binary64 n d = Num z ∧ 0 ≤ z.
Proof.
  intros Hn Hd. unfold ceil_binary64.
  destruct (n <? d) eqn:Hlt.
  { destruct (_ <=? d); right; eexists; (split; [done|lia]). }
  apply Z.ltb_ge in Hlt.
  assert (1 ≤ n / d) as Hk by (apply Z.div_le_lower_bound; lia).
  destruct (Z.log2 (n / d) <? 52) eqn:He.
  { destruct (_ <=? d); right; eexists; (split; [done|lia]). }
  cbv zeta. destruct (2 ^ 1024 <=? _); [by left|right].
  eexists. split; [done|].
  apply Z.ltb_ge in He.
  assert (0 < 2 ^ (Z.log2 (n / d) - 52)) as Hulp by (apply Z.pow_pos_nonneg; lia).
  assert (0 ≤ n / (d * 2 ^ (Z.log2 (n / d) - 52))) as Hq
    by (apply Z.div_pos; nia).
  destruct (_ || _); nia.
Qed.

Lemma ceil_parseFloat_range run :
  ceil_parseFloat run = NaN ∨ ceil_parseFloat run = PosInfinity
  ∨ ∃ z, ceil_parseFloat run = Num z ∧ 0 ≤ z.
Proof.
  unfold ceil_parseFloat. destruct (span is_digit run) as [int_part rest].
  case_decide; [by left|]. right.
  apply ceil_binary64_range.
  - by apply digits_value_nonneg.
  - apply Z.pow_pos_nonneg; lia.
Qed.

Lemma extractRetryAfter_range error n :
  extractRetryAfter error = Some n → n = NaN ∨ ∃ z, n = Num z ∧ 0 ≤ z ≤ 60.
Proof.
  unfold extractRetryAfter. destruct error as [error|]; [|done].
  case_decide; [done|]. destruct (match_retry error) as [run|]; [|done].
  intros [= <-]. destruct (ceil_parseFloat_range run) as [->|[->|(z & -> & Hz)]].
  - by left.
  - right. by exists 60.
  - right. exists (Z.min z 60). split; [done|lia].
Qed.

Example extractRetryAfter_fraction :
  extractRetryAfter (Some "429 quota exceeded. Please retry in 48.50719905s.") = Some (Num 49).
Proof. reflexivity. Qed.

Example extractRetryAfter_capped :
  extractRetryAfter (Some "Please retry in 3600s") = Some (Num 60).
Proof. reflexivity. Qed.

Example extractRetryAfter_absent :
  extractRetryAfter (Some "503 The model is overloaded. Please try again later.") = None.
Proof. reflexivity. Qed.

Example extractRetryAfter_zero :
  extractRetryAfter (Some "Please retry in 0s") = Some (Num 0).
Proof. reflexivity. Qed.

Example extractRetryAfter_dot :
  extractRetryAfter (Some "Please retry in .s") = Some NaN.
Proof. reflexivity. Qed.

Section RetryPolicy.
Context `{EngineAPI} {I : Type} `{QueueItemLike I}.

(** C6, as the code has it.  The analysis step always returns and makes at
    most three attempts; attempt k+1 is made only when attempt k came back
    unsuccessful with a transient-overload error, which is an error text
    that holds "503" and "overloaded", or "429" and "quota"; the pause
    before it is read from that text.  When the text suggests a whole
    number of seconds that is not zero, the pause is that number of
    seconds, and 60 seconds when the number is larger; when it suggests a
    number of seconds with a fractional part (of up to fourteen digits), the
    pause is the next whole number of seconds, again at most 60; when it
    suggests zero seconds, when it does not hold the phrase "Please retry
    in ", or when there is no text, the pause is the one scheduled for the
    attempt: 2s before the second attempt, 4s before the third. *)
Theorem analysis_retry_policy (item : I) (first : Subscriber) (rest : list Subscriber) :
  item_subscribers item = first :: rest →
  let t := item_ticker item in
  let outcome k := analyzeStockCore t first k in
  let run := analyzeWithRetry item 3 in
  (∃ result, run.2 = Ok result) ∧
  attempts_and_delays run.1 =
    Analyze t 0 ::
      (if transient_error (outcome 0%nat) then
         Delay (retry_delay (outcome_error (outcome 0%nat)) 0) :: Analyze t 1 ::
           (if transient_error (outcome 1%nat) then
              [Delay (retry_delay (outcome_error (outcome 1%nat)) 1); Analyze t 2]
            else [])
       else []) ∧
  (∀ result,
     transient_error (Ok result) = true ↔
     success result = false ∧
     ∃ text, error result = Some text ∧
       (includes text "503" = true ∧ includes text "overloaded" = true
        ∨ includes text "429" = true ∧ includes text "quota" = true)) ∧
  (∀ text int_part frac attempt,
     suggests text int_part frac → all_zero frac = true →
     let seconds := digits_value 0 int_part in
     retry_delay (Some text) attempt
     = if decide (seconds = 0) then scheduled attempt
       else Num (Z.min seconds 60 * 1000)) ∧
  (∀ text int_part frac attempt,
     suggests text int_part frac → all_zero frac = false →
     (String.length frac ≤ 14)%nat →
     retry_delay (Some text) attempt
     = Num (Z.min (digits_value 0 int_part + 1) 60 * 1000)) ∧
  (∀ attempt, retry_delay None attempt = scheduled attempt) ∧
  (∀ text attempt,
     includes text "Please retry in " = false →
     retry_delay (Some text) attempt = scheduled attempt).
Proof.
  intros Hsubs t outcome run. subst run. split_and!.
  - apply analyzeWithRetry_returns.
  - unfold analyzeWithRetry. simpl. rewrite Hsubs. subst outcome t. simpl.
    destruct (analyzeStockCore (item_ticker item) first 0) as [r0|m0]; simpl; [|done].
    destruct (success r0), (isGeminiRateLimitError (error r0)); simpl; try done.
    destruct (analyzeStockCore (item_ticker item) first 1) as [r1|m1]; simpl; [|done].
    destruct (success r1), (isGeminiRateLimitError (error r1)); simpl; try done.
    destruct (analyzeStockCore (item_ticker item) first 2) as [r2|m2]; simpl; [|done].
    destruct (success r2), (isGeminiRateLimitError (error r2)); simpl; done.
  - intros result. unfold transient_error, isGeminiRateLimitError.
    rewrite andb_true_iff, negb_true_iff.
    destruct (error result) as [text|]; [|split; [by intros [_ ?]|by intros (_ & ? & ? & _)]].
    case_decide as Hempty.
    + subst text. split; [by intros [_ ?]|].
      intros (_ & text & [= <-] & [[Hc _]|[Hc _]]); by vm_compute in Hc.
    + rewrite orb_true_iff, !andb_true_iff. split.
      * intros [Hs Hsignal]. split; [done|]. by exists text.
      * by intros (Hs & text' & [= <-] & Hsignal).
  - intros text int_part frac attempt Hsug Hzero seconds.
    pose proof (retry_delay_suggested text int_part frac attempt Hsug (or_introl Hzero))
      as Hdelay.
    rewrite Hzero, Z.add_0_r in Hdelay. exact Hdelay.
  - intros text int_part frac attempt Hsug Hfrac Hlen.
    pose proof (retry_delay_suggested text int_part frac attempt Hsug (or_intror Hlen))
      as Hdelay.
    rewrite Hfrac in Hdelay. rewrite Hdelay.
    destruct Hsug as (Hdigits & _).
    pose proof (digits_value_bound _ Hdigits). by rewrite decide_False by lia.
  - intros attempt. by apply retry_delay_scheduled.
  - intros text attempt Habsent. apply retry_delay_scheduled.
    unfold extractRetryAfter. case_decide; [done|].
    by rewrite match_retry_absent.
Qed.
End RetryPolicy.

Lemma suggests_seven_seconds :
  suggests "[429 Too Many Requests] quota exceeded. Please retry in 7s." "7" "".
Proof.
  split_and!; [done..|].
  by exists "[429 Too Many Requests] quota exceeded. ", ".".
Qed.

Lemma analysis_retry_policy_witness :
  let item := Sample.item "NVDA" [Sample.subscriber "ann" "page-9" "Free"] in
  attempts_and_delays (@analyzeWithRetry Sample.throttled _ _ item 3).1
  = [Analyze "NVDA" 0; Delay (Num 7000); Analyze "NVDA" 1; Delay (Num 4000);
     Analyze "NVDA" 2] ∧
  retry_delay (Some "[429 Too Many Requests] quota exceeded. Please retry in 7s.") 0
  = Num 7000.
Proof.
  intros item.
  pose proof (@analysis_retry_policy Sample.throttled _ _ item
                (Sample.subscriber "ann" "page-9" "Free") [] eq_refl)
    as (_ & Htrace & _ & Hwhole & _).
  split; [exact Htrace|].
  exact (Hwhole _ "7" "" 0%nat suggests_seven_seconds eq_refl).
Defined.

(** C6, as stated, fails.  The text "Please retry in 0s" suggests a delay of
    zero seconds, and the pause taken is the scheduled 2s; the text "Please
    retry in 1.5s" suggests a delay of 1500 ms, and the pause taken is
    2000 ms. *)
Lemma suggested_delay_is_not_used :
  ¬ suggested_delay_is_used "0" "" ∧ ¬ suggested_delay_is_used "1" "5".
Proof.
  split; intros Hused.
  - destruct (Hused "429 quota exceeded. Please retry in 0s" 0%nat) as (ms & Hms & Heq).
    { split_and!; [done..|]. by exists "429 quota exceeded. ", "". }
    vm_compute in Hms. injection Hms as <-. vm_compute in Heq. discriminate.
  - destruct (Hused "429 quota exceeded. Please retry in 1.5s" 0%nat) as (ms & Hms & Heq).
    { split_and!; [done..|]. by exists "429 quota exceeded. ", "". }
    vm_compute in Hms. injection Hms as <-. vm_compute in Heq. discriminate.
Qed.

Example extractRetryAfter_nearest_binary64 :
  extractRetryAfter (Some "Please retry in 2.0000000000000000001s") = Some (Num 2).
Proof. reflexivity. Qed.

(** C9 at a chunk whose first subject fails: both subjects are attempted and
    no pause is taken between them. *)
Theorem failed_subject_is_not_followed_by_pause :
  let run := @processQueue Sample.api Sample.config _ _ Sample.clock
               Sample.fail_then_ok None 0 2 in
  attempted run.1 = [0; 1] ∧
  delays run.1 = [] ∧
  (∃ metrics, run.2 = Ok metrics ∧ failed metrics = 1 ∧ analyzed metrics = 1).
Proof.
  split_and!; [reflexivity|reflexivity|].
  eexists. split; [reflexivity|]. split; reflexivity.
Qed.

Lemma archives_bind_nil {A} (f : A → list Event) (l : list A) :
  (∀ x, archives (f x) = []) → archives (l ≫= f) = [].
Proof.
  intros Hf. induction l as [|x l IH]; csimpl; [done|].
  by rewrite archives_app, Hf, IH.
Qed.

Section TerminalFailure.
Context `{EngineAPI} `{EngineConfig} {I : Type} `{QueueItemLike I}.
Context (now : Date).

Lemma process_item_failure marketContext i endIndex item metrics es_a r :
  DRY_RUN = false →
  analyzeWithRetry item 3 = (es_a, Ok r) →
  success r = false ∨ validateAnalysisComplete r = false →
  ∃ message metrics',
    process_item now marketContext i endIndex item metrics =
      (LogProcessing i (item_ticker item) ::
         (setAnalyzingStatus (item_subscribers item)).1 ++ es_a ++
         (broadcastError now (item_subscribers item) message (item_ticker item)).1,
       Ok metrics')
    ∧ failed metrics' = failed metrics + 1
    ∧ analyzed metrics' = analyzed metrics.
Proof.
  intros Hdry Hrun Hfail. unfold process_item. rewrite Hdry.
  rewrite setAnalyzingStatus_eq, Hrun. cbn [bind emit fst snd].
  destruct (success r) eqn:Hs; simpl negb; cbv iota.
  - destruct Hfail as [|Hv]; [done|]. rewrite Hv. simpl negb. cbv iota.
    destruct (broadcastError_eq now (item_subscribers item)
                "Analysis incomplete - missing required fields" (item_ticker item))
      as [context Hbe].
    exists "Analysis incomplete - missing required fields".
    rewrite Hbe. cbn [bind ret fst snd]. eexists. split; [by rewrite app_nil_r|].
    split; reflexivity.
  - destruct (broadcastError_eq now (item_subscribers item)
                (or_else (error r) "Analysis failed") (item_ticker item))
      as [context Hbe].
    exists (or_else (error r) "Analysis failed").
    rewrite Hbe. cbn [bind ret fst snd]. eexists. split; [by rewrite app_nil_r|].
    split; reflexivity.
Qed.

(** C2.  When the analysis of a queue item fails for good (a failure that
    is not transient, exhausted retries, or a result that fails the
    completeness validation), [processQueue] sends an error status to every
    subscriber of the subject; a subscriber whose write succeeds ends with
    status Error whatever happens to the writes of the others; no archive
    record is created; and the loop goes on with the next subject. *)
Theorem terminal_failure_marks_every_subscriber
    (queue : list I) (marketContext : option MarketContext)
    (i endIndex : Z) (n : nat) (item : I) (metrics : OrchestratorMetrics)
    (w : World) (result : AnalysisResult) :
  DRY_RUN = false →
  (analyzeWithRetry item 3).2 = Ok result →
  success result = false ∨ validateAnalysisComplete result = false →
  at_index queue i = Some item →
  let run := process_item now marketContext i endIndex item metrics in
  (∀ s, s ∈ item_subscribers item →
     ∃ notes, PageUpdate (pageId s) Error notes (pages_update s Error) ∈ run.1) ∧
  (∀ s, s ∈ item_subscribers item → pages_update s Error = true →
     page_status (replay w run.1) !! pageId s = Some Error) ∧
  archives run.1 = [] ∧
  history (replay w run.1) = history w ∧
  ∃ metrics',
    run.2 = Ok metrics' ∧ failed metrics' = failed metrics + 1 ∧
    let rest := process_from now queue marketContext endIndex n (i + 1) metrics' in
    process_from now queue marketContext endIndex (S n) i metrics
    = (run.1 ++ rest.1, rest.2).
Proof.
  intros Hdry Hrun Hfail Hitem run.
  destruct (analyzeWithRetry item 3) as [es_a r] eqn:Hrun'. simpl in Hrun. subst r.
  destruct (process_item_failure marketContext i endIndex item metrics es_a result
              Hdry Hrun' Hfail) as (message & metrics' & Hrun_eq & Hfailed & _).
  subst run. rewrite Hrun_eq. simpl fst. simpl snd.
  destruct (broadcastError_eq now (item_subscribers item) message (item_ticker item))
    as [context Hbe].
  rewrite Hbe. simpl fst.
  set (subs := item_subscribers item).
  set (errs := subs ≫= λ s, (setAnalysisError s message (context s)).1).
  assert (∀ s, s ∈ subs → ∃ notes other,
            [PageUpdate (pageId s) Error notes (pages_update s Error); other]
            = (setAnalysisError s message (context s)).1 ) as Hshape.
  { intros s _. rewrite setAnalysisError_eq. by do 2 eexists. }
  assert (∀ p, Forall (λ st, st = Error) (writes p errs)) as Hall.
  { intros p. subst errs. induction subs as [|s subs IH]; csimpl; [constructor|].
    rewrite writes_app. apply Forall_app. split; [|apply IH; intros; apply Hshape; by right].
    rewrite setAnalysisError_eq. simpl.
    destruct (pages_update s Error); simpl; [|constructor].
    case_decide; repeat constructor. }
  assert (archives (LogProcessing i (item_ticker item)
                    :: (setAnalyzingStatus subs).1 ++ es_a ++ errs) = []) as Harch.
  { change (LogProcessing i (item_ticker item) :: ?l)
      with ([LogProcessing i (item_ticker item)] ++ l).
    rewrite !archives_app, setAnalyzingStatus_eq. simpl.
    assert (archives es_a = []) as ->.
    { pose proof (analyzeWithRetry_from_events item 3 3 0) as Hev.
      unfold analyzeWithRetry in Hrun'. rewrite Hrun' in Hev.
      by apply (analysis_events_silent _ ""). }
    rewrite archives_bind_nil; [|done].
    rewrite app_nil_l. subst errs. apply archives_bind_nil.
    intros s. rewrite setAnalysisError_eq. simpl. by destruct (pages_update s Error). }
  split_and!.
  - intros s Hs. destruct (Hshape s Hs) as (notes & other & Heq). exists notes.
    right. apply elem_of_app. right. apply elem_of_app. right.
    subst errs. apply list_elem_of_bind. exists s. split; [|done].
    rewrite <- Heq. left.
  - intros s Hs Hok. rewrite replay_status.
    change (LogProcessing i (item_ticker item) :: ?l) with ([LogProcessing i (item_ticker item)] ++ l).
    rewrite !writes_app, !last_app.
    rewrite (last_all_equal (writes (pageId s) errs) Error); [done|apply Hall|].
    subst errs. apply list_elem_of_split in Hs as (l1 & l2 & ->).
    rewrite bind_app, bind_cons, !writes_app, setAnalysisError_eq. simpl.
    rewrite Hok, decide_True by done. simpl. by destruct (writes _ _).
  - exact Harch.
  - rewrite replay_history, Harch. apply app_nil_r.
  - exists metrics'. split_and!; [done..|].
    simpl. rewrite Hitem, Hrun_eq, Hbe. simpl.
    by destruct (process_from now queue marketContext endIndex n (i + 1) metrics').
Qed.
End TerminalFailure.

Lemma terminal_failure_marks_every_subscriber_witness :
  let s := Sample.subscriber "ann" "page-1" "Free" in
  page_status
    (replay empty_world
       (@process_item Sample.api Sample.config _ _ Sample.clock None 0 2
          (Sample.item "FAIL" [s]) Sample.zero_metrics).1) !! pageId s
  = Some Error.
Proof.
  intros s.
  refine (proj1 (proj2
    (@terminal_failure_marks_every_subscriber Sample.api Sample.config _ _
       Sample.clock Sample.fail_then_ok None 0 2 1 (Sample.item "FAIL" [s])
       Sample.zero_metrics empty_world _ eq_refl eq_refl (or_introl eq_refl) eq_refl))
    s _ eq_refl).
  left.
Defined.

(** ** Broadcast and archive *)

Lemma writes_bind_nil {A} (f : A → list Event) (l : list A) p :
  (∀ x, x ∈ l → writes p (f x) = []) → writes p (l ≫= f) = [].
Proof.
  induction l as [|x l IH]; intros Hf; csimpl; [done|].
  rewrite writes_app, Hf, IH; [done| |left]. intros y Hy. apply Hf. by right.
Qed.

Lemma writes_bind_unique (f : Subscriber → list Event) subs s :
  NoDup (pageId <$> subs) → s ∈ subs →
  (∀ s' p, pageId s' ≠ p → writes p (f s') = []) →
  writes (pageId s) (subs ≫= f) = writes (pageId s) (f s).
Proof.
  intros Hnd Hs Hf. induction subs as [|s0 subs IH]; [by apply elem_of_nil in Hs|].
  csimpl in *. apply NoDup_cons in Hnd as [Hs0 Hnd]. rewrite writes_app.
  apply elem_of_cons in Hs as [->|Hs].
  - rewrite writes_bind_nil, app_nil_r; [done|].
    intros s' Hs'. apply Hf. intros Heq. apply Hs0. rewrite <- Heq.
    by apply list_elem_of_fmap_2.
  - rewrite IH by done. rewrite Hf; [done|].
    intros Heq. apply Hs0. rewrite Heq. by apply list_elem_of_fmap_2.
Qed.

Lemma uniqueSubscribers_foldl (g : Subscriber → Result unit) subs :
  uniqueSubscribers subs (g <$> subs) = foldl (unique_step g) [] subs.
Proof.
  unfold uniqueSubscribers. generalize ([] : Map Subscriber).
  induction subs as [|s subs IH]; intros u; [done|]. csimpl. by rewrite IH.
Qed.

Lemma unique_step_keeps g u s k v :
  Map_get u k = Some v → Map_get (unique_step g u s) k = Some v.
Proof.
  intros Hk. unfold unique_step, Map_has.
  destruct (fulfilled (g s)); [|done].
  destruct (Map_get u (userId s)) eqn:Hu; [done|].
  rewrite Map_get_set. case_decide; [congruence|done].
Qed.

Lemma unique_foldl_keeps g l u k v :
  Map_get u k = Some v → Map_get (foldl (unique_step g) u l) k = Some v.
Proof.
  revert u. induction l as [|s l IH]; intros u Hk; [done|]. simpl.
  by apply IH, unique_step_keeps.
Qed.

(** Every subscriber with a fulfilled broadcast is represented by the first
    fulfilled subscriber of the same user. *)
Lemma unique_foldl_represents g l u s :
  s ∈ l → fulfilled (g s) →
  ∃ s', Map_get (foldl (unique_step g) u l) (userId s) = Some s' ∧
        (Map_get u (userId s) = Some s' ∨
         (s' ∈ l ∧ fulfilled (g s') ∧ userId s' = userId s)).
Proof.
  revert u. induction l as [|s0 l IH]; intros u Hs Hok; [by apply elem_of_nil in Hs|].
  simpl. apply elem_of_cons in Hs as [->|Hs].
  - unfold unique_step at 2, Map_has. rewrite (Is_true_true_1 _ Hok).
    destruct (Map_get u (userId s0)) as [s'|] eqn:Hu.
    + exists s'. split; [by apply unique_foldl_keeps|by left].
    + exists s0. split; [|right; split_and!; [left|done..]].
      apply unique_foldl_keeps. rewrite Map_get_set. by rewrite decide_True.
  - destruct (IH (unique_step g u s0) Hs Hok) as (s' & Hget & Hfrom).
    exists s'. split; [done|].
    destruct Hfrom as [Hstep|(?&?&?)]; [|right; split_and!; [by right|done..]].
    unfold unique_step, Map_has in Hstep.
    destruct (fulfilled (g s0)) eqn:Hok0; [|by left].
    destruct (Map_get u (userId s0)) eqn:Hu; [by left|].
    rewrite Map_get_set in Hstep. case_decide as Heq; [|by left].
    injection Hstep as <-. right. split_and!; [left|by rewrite Hok0|done].
Qed.

Section Broadcast.
Context `{EngineAPI} `{EngineConfig} {I : Type} `{QueueItemLike I}.
Context (now : Date).

Lemma broadcastToUser_delivered s r :
  delivers s (result_ticker r) = true →
  (broadcastToUser now s r).2 = Ok tt ∧
  (∀ p, writes p (broadcastToUser now s r).1
        = if decide (pageId s = p)
          then if pages_update s Complete then [Complete] else []
          else []) ∧
  archives (broadcastToUser now s r).1 = [].
Proof.
  unfold delivers, sync_ok, broadcastToUser, update_page. simpl.
  destruct (syncToNotion s (result_ticker r) 0) as [id0|m0];
    [destruct (falsy id0)|]; simpl;
    try (destruct (syncToNotion s (result_ticker r) 1) as [id1|m1];
         [destruct (falsy id1)|]; simpl); try done.
  all: intros _; unfold update_page; destruct (pages_update s Complete); simpl.
  all: (split_and!; [done| |done]); intros p; by case_decide.
Qed.

Lemma broadcastToUser_failed s r :
  delivers s (result_ticker r) = false →
  fulfilled (broadcastToUser now s r).2 = false ∧
  (∀ p, writes p (broadcastToUser now s r).1
        = if decide (pageId s = p)
          then if pages_update s Error then [Error] else []
          else []) ∧
  archives (broadcastToUser now s r).1 = [].
Proof.
  unfold delivers, sync_ok, broadcastToUser. simpl.
  destruct (syncToNotion s (result_ticker r) 0) as [id0|m0];
    [destruct (falsy id0)|]; simpl; try done;
    (destruct (syncToNotion s (result_ticker r) 1) as [id1|m1];
         [destruct (falsy id1)|]; simpl); try done.
  all: intros _; rewrite setAnalysisError_eq; simpl.
  all: destruct (pages_update s Error); simpl.
  all: (split_and!; [done| |done]); intros p; by case_decide.
Qed.

Lemma broadcastToUser_other_page s r p :
  pageId s ≠ p → writes p (broadcastToUser now s r).1 = [].
Proof.
  intros Hne. destruct (delivers s (result_ticker r)) eqn:Hd.
  - destruct (broadcastToUser_delivered s r Hd) as (_ & -> & _). by rewrite decide_False.
  - destruct (broadcastToUser_failed s r Hd) as (_ & -> & _). by rewrite decide_False.
Qed.

Lemma broadcastToUser_fulfilled s r :
  fulfilled (broadcastToUser now s r).2 = delivers s (result_ticker r).
Proof.
  destruct (delivers s (result_ticker r)) eqn:Hd.
  - by destruct (broadcastToUser_delivered s r Hd) as (-> & _).
  - by destruct (broadcastToUser_failed s r Hd) as (-> & _).
Qed.

Lemma broadcastToSubscribers_eq subs r :
  broadcastToSubscribers now subs r =
    (subs ≫= (λ s, (broadcastToUser now s r).1),
     Ok ((λ s, (broadcastToUser now s r).2) <$> subs)).
Proof.
  unfold broadcastToSubscribers. rewrite allSettled_eq. f_equal.
  - induction subs as [|s subs IH]; csimpl; [done|]. by rewrite IH.
  - f_equal. by rewrite <- list_fmap_compose.
Qed.

Lemma create_history_eq marketContext s :
  ∃ created ok,
    create_history marketContext s
    = ([Archive (userId s) (pageId s) created], Ok ok) ∧
    (∀ id, archiveToHistory s (regime <$> marketContext) = Ok (Some id) → id ≠ "" →
           created = Some id).
Proof.
  unfold create_history.
  destruct (archiveToHistory s (regime <$> marketContext)) as [[id|]|message]; simpl.
  - do 2 eexists. split; [done|]. intros id' [= <-] Hne.
    by rewrite bool_decide_eq_false_2.
  - do 2 eexists. split; [done|]. by intros id' [=].
  - do 2 eexists. split; [done|]. by intros id' [=].
Qed.
End Broadcast.

Section PartialDelivery.
Context `{EngineAPI} `{EngineConfig} {I : Type} `{QueueItemLike I}.
Context (now : Date).

Lemma process_item_success marketContext i endIndex item metrics es_a r :
  DRY_RUN = false →
  analyzeWithRetry item 3 = (es_a, Ok r) →
  success r = true → validateAnalysisComplete r = true →
  let subs := item_subscribers item in
  let outcomes := (λ s, (broadcastToUser now s r).2) <$> subs in
  ∃ metrics' pause,
    process_item now marketContext i endIndex item metrics =
      (LogProcessing i (item_ticker item) ::
         (setAnalyzingStatus subs).1 ++ es_a ++
         (subs ≫= λ s, (broadcastToUser now s r).1) ++
         (if 0 <? Z.of_nat (length (filter (λ o, fulfilled o) outcomes))
          then (uniqueSubscribers subs outcomes).*2
                 ≫= (λ s, (create_history marketContext s).1)
          else []) ++ pause,
       Ok metrics')
    ∧ pause = (if negb (bool_decide (i = endIndex - 1)) && (0 <? ANALYSIS_DELAY_MS)
           then [Delay (Num ANALYSIS_DELAY_MS)] else [])
    ∧ analyzed metrics' = analyzed metrics + 1.
Proof.
  intros Hdry Hrun Hs Hv subs outcomes. subst subs outcomes.
  unfold process_item. rewrite Hdry.
  rewrite !setAnalyzingStatus_eq, Hrun. cbn [bind emit fst snd].
  rewrite Hs, Hv. simpl negb. cbv iota.
  rewrite broadcastToSubscribers_eq. cbn [bind fst snd].
  set (outcomes := (λ s, (broadcastToUser now s r).2) <$> item_subscribers item).
  destruct (0 <? Z.of_nat (length (filter (λ o, fulfilled o) outcomes))).
  - rewrite allSettled_eq. cbn [bind ret fst snd]. rewrite list_fmap_bind.
    destruct (negb (bool_decide (i = endIndex - 1)) && (0 <? ANALYSIS_DELAY_MS));
      cbn [bind ret emit fst snd].
    + eexists _, [Delay (Num ANALYSIS_DELAY_MS)].
      split; [rewrite ?app_nil_r; reflexivity|]. split; done.
    + eexists _, []. split; [rewrite ?app_nil_r; reflexivity|]. split; done.
  - cbn [bind ret fst snd].
    destruct (negb (bool_decide (i = endIndex - 1)) && (0 <? ANALYSIS_DELAY_MS));
      cbn [bind ret emit fst snd].
    + eexists _, [Delay (Num ANALYSIS_DELAY_MS)].
      split; [rewrite ?app_nil_r; reflexivity|]. split; done.
    + eexists _, []. split; [rewrite ?app_nil_r; reflexivity|]. split; done.
Qed.

Lemma create_history_writes marketContext (l : list Subscriber) p :
  writes p (l ≫= λ s, (create_history marketContext s).1) = [].
Proof.
  apply writes_bind_nil. intros s _.
  destruct (create_history_eq marketContext s) as (created & ok & -> & _). done.
Qed.


(** After a subject that went through, the loop pauses for the configured
    delay when the subject is not the last of the chunk. *)
Lemma successful_subject_is_followed_by_pause
    marketContext i endIndex item metrics result :
  DRY_RUN = false →
  (analyzeWithRetry item 3).2 = Ok result →
  success result = true → validateAnalysisComplete result = true →
  i ≠ endIndex - 1 → 0 < ANALYSIS_DELAY_MS →
  last (process_item now marketContext i endIndex item metrics).1
  = Some (Delay (Num ANALYSIS_DELAY_MS)).
Proof.
  intros Hdry Hrun Hs Hv Hlast Hdelay.
  destruct (analyzeWithRetry item 3) as [es_a r] eqn:Hrun'. simpl in Hrun. subst r.
  destruct (process_item_success marketContext i endIndex item metrics es_a result
              Hdry Hrun' Hs Hv) as (metrics' & pause & -> & -> & _).
  rewrite bool_decide_eq_false_2 by done.
  rewrite (proj2 (Z.ltb_lt _ _) Hdelay). simpl.
  change (LogProcessing i (item_ticker item) :: ?l)
    with ([LogProcessing i (item_ticker item)] ++ l).
  by rewrite !(assoc_L (++)), last_snoc.
Qed.
End PartialDelivery.



(** What the refusals leave behind: the page without a Status property has
    no status at all, the page that refused the error report is still
    Analyzing, and the shared page is in Error. *)
Example refused_writes_leave_their_pages :
  let world api item :=
    replay empty_world
      (@processQueue api Sample.config _ _ Sample.clock [item] None 0 1).1 in
  page_status (world Sample.api_without_status Sample.one_bad_page) !! "page-3" = None ∧
  page_status (world Sample.api_without_notes Sample.one_bad_page) !! "page-bad"
    = Some Analyzing ∧
  page_status (world Sample.api_shared_page Sample.shared_page) !! "page-1" = Some Error ∧
  archive_user <$> history (world Sample.api_without_history Sample.one_bad_page)
    = ["ann"].
Proof.
  intros world. subst world. cbv beta.
  rewrite !replay_status, replay_history. by vm_compute.
Qed.

(** ** The queue store *)

Lemma JSON_roundtrip_Subscriber s :
  JSON_roundtrip (Subscriber_value s) = Subscriber_value s.
Proof. reflexivity. Qed.

(** [JSON_item] is what the JSON round trip does to the value of an item. *)
Lemma JSON_item_roundtrip item :
  JSON_roundtrip (QueueItem_value item) = ParsedItem_value (JSON_item item).
Proof.
  unfold QueueItem_value, ParsedItem_value, JSON_item. simpl. repeat f_equal.
  - by destruct (priority item).
  - induction (subscribers item) as [|s l IH]; csimpl; [done|]. by rewrite IH.
Qed.

Section QueueStoreFacts.
Context `{RedisService}.

Lemma save_then_load now now' queue ctx chunkSize b :
  credentials_missing = false →
  (∀ n, availability n = Serves) →
  before_T (toISOString now') = before_T (toISOString now) →
  ∃ b1 b2,
    saveQueueToRedis now queue ctx chunkSize b
      = (Ok ("analysis_queue:" +:+ before_T (toISOString now)), b1) ∧
    loadQueueFromRedis now' None b1
      = (Ok (Some {| id := "analysis_queue:" +:+ before_T (toISOString now);
                     items := JSON_item <$> queue;
                     processedCount := 0;
                     totalCount := Z.of_nat (length queue);
                     createdAt := toISOString now;
                     marketContext := ctx;
                     chunkSize := chunkSize;
                     lastChunkAt := None |}), b2).
Proof.
  intros Hcred Havail Hdate.
  unfold saveQueueToRedis, loadQueueFromRedis, fetch. rewrite Hcred.
  repeat (rewrite Havail; simpl). rewrite Hdate.
  do 2 eexists. split; [reflexivity|].
  repeat (rewrite Havail; simpl). rewrite lookup_insert_eq. reflexivity.
Qed.
End QueueStoreFacts.

Section QueueStoreClaims.
Context `{RedisService}.

(** C7, as the code has it.  A queue saved to a serving store and loaded
    back within the same calendar day yields the processed count 0, the
    total count of the item list, and the item list under the JSON round
    trip: every item keeps its ticker, its subscribers and a finite
    priority, and its [requestedAt] comes back as the ISO string of the
    date that was saved. *)
Theorem saved_queue_loads_back (now now' : Date) (queue : list QueueItem)
    (ctx : option MarketContext) (chunkSize : Z) (b : Backend) :
  credentials_missing = false →
  (∀ n, availability n = Serves) →
  before_T (toISOString now') = before_T (toISOString now) →
  ∃ queueId loaded,
    (saveQueueToRedis now queue ctx chunkSize b).1 = Ok queueId ∧
    (loadQueueFromRedis now' None
       (saveQueueToRedis now queue ctx chunkSize b).2).1 = Ok (Some loaded) ∧
    id loaded = queueId ∧
    processedCount loaded = 0 ∧
    totalCount loaded = Z.of_nat (length queue) ∧
    items loaded = JSON_item <$> queue ∧
    ParsedItem_value <$> items loaded = JSON_roundtrip <$> (QueueItem_value <$> queue) ∧
    Forall2 (λ item parsed,
               parsed_ticker parsed = ticker item ∧
               parsed_subscribers parsed = subscribers item ∧
               parsed_requestedAt parsed = toISOString (requestedAt item) ∧
               ∀ z, priority item = Num z → parsed_priority parsed = Some z)
            queue (items loaded).
Proof.
  intros Hcred Havail Hdate.
  destruct (save_then_load now now' queue ctx chunkSize b Hcred Havail Hdate)
    as (b1 & b2 & Hsave & Hload).
  rewrite Hsave. simpl. rewrite Hload. simpl.
  do 2 eexists. split_and!; try reflexivity.
  - simpl. rewrite <- (list_fmap_compose JSON_item ParsedItem_value).
    rewrite <- (list_fmap_compose QueueItem_value JSON_roundtrip).
    apply list_fmap_ext. intros ? item _. simpl.
    symmetry. apply JSON_item_roundtrip.
  - apply Forall2_fmap_r, Forall_Forall2_diag, Forall_forall. intros item _.
    split_and!; try done. intros z Hz. simpl. by rewrite Hz.
Qed.

(** A store that cannot be reached makes every operation fail. *)
Lemma unreachable_store_fails now queue ctx chunkSize date queueId count b :
  credentials_missing = false →
  availability (length (received b)) = NetworkDown →
  (saveQueueToRedis now queue ctx chunkSize b).1 = Throw "fetch failed" ∧
  (loadQueueFromRedis now date b).1 = Throw "fetch failed" ∧
  (updateProcessedCount now queueId count b).1 = Throw "fetch failed" ∧
  (deleteQueue queueId b).1 = Throw "fetch failed".
Proof.
  intros Hcred Hdown.
  unfold saveQueueToRedis, loadQueueFromRedis, updateProcessedCount, deleteQueue, fetch.
  rewrite Hcred, !Hdown. done.
Qed.

(** An error response is noticed where the code looks at [response.ok]:
    by the write of [saveQueueToRedis] and by the reads. *)
Lemma refused_request_noticed now queue ctx chunkSize queueId count b status :
  credentials_missing = false →
  availability (length (received b)) = Answers status →
  ¬ (200 ≤ status ≤ 299) →
  (∃ message, (saveQueueToRedis now queue ctx chunkSize b).1 = Throw message) ∧
  (∃ message, (updateProcessedCount now queueId count b).1 = Throw message) ∧
  (status ≠ 404 → ∃ message, (loadQueueFromRedis now None b).1 = Throw message).
Proof.
  intros Hcred Hans Hstatus.
  assert (response_ok {| response_status := status;
                         response_statusText := reason_phrase status;
                         response_result := None |} = false)
    as Hok.
  { unfold response_ok. simpl. apply andb_false_iff.
    rewrite Z.leb_gt, Z.leb_gt. lia. }
  unfold saveQueueToRedis, loadQueueFromRedis, updateProcessedCount, fetch.
  rewrite Hcred, !Hans. simpl. rewrite !Hok. simpl.
  split_and!; [by eexists..|]. intros Hne. rewrite decide_False by done. by eexists.
Qed.
End QueueStoreClaims.

Lemma saved_queue_loads_back_witness :
  ∃ loaded,
    (@loadQueueFromRedis Sample.redis Sample.clock None
       (@saveQueueToRedis Sample.redis Sample.clock Sample.fail_then_ok None 8
          empty_backend).2).1 = Ok (Some loaded) ∧
    processedCount loaded = 0 ∧ totalCount loaded = 2.
Proof.
  destruct (@saved_queue_loads_back Sample.redis Sample.clock Sample.clock
              Sample.fail_then_ok None 8 empty_backend eq_refl (λ _, eq_refl) eq_refl)
    as (queueId & loaded & _ & Hload & _ & Hprocessed & Htotal & _).
  exists loaded. split_and!; [exact Hload|exact Hprocessed|exact Htotal].
Defined.

(** C7, as stated, fails: the item that comes back is not equal to the item
    that was saved, its [requestedAt] being a string where a [Date] was. *)
Lemma loaded_items_are_not_equal :
  ¬ @round_trip_equal Sample.redis Sample.clock Sample.fail_then_ok None 8 empty_backend.
Proof.
  intros (loaded & Hload & Hitems & _).
  destruct (@save_then_load Sample.redis Sample.clock Sample.clock
              Sample.fail_then_ok None 8 empty_backend eq_refl (λ _, eq_refl) eq_refl)
    as (b1 & b2 & Hsave & Hload').
  rewrite Hsave in Hload. cbn [snd] in Hload. rewrite Hload' in Hload.
  cbn [fst] in Hload. injection Hload as <-. simpl in Hitems. discriminate.
Qed.

(** C8 at a store that serves the read of [updateProcessedCount] and answers
    its write with status 500, and at a store that answers the delete with
    status 500: both operations return normally, the cursor in the store is
    still 0 and the queue is still there. *)
Theorem refused_write_goes_unnoticed :
  let key := "analysis_queue:2025-12-01" in
  let update := @updateProcessedCount Sample.redis_refusing_second Sample.clock
                  key 1 Sample.backend_with_queue in
  let remove := @deleteQueue Sample.redis_refusing key Sample.backend_with_queue in
  update.1 = Ok tt ∧
  processedCount <$> data update.2 !! key = Some 0 ∧
  remove.1 = Ok tt ∧
  processedCount <$> data remove.2 !! key = Some 0.
Proof.
  split_and!; try reflexivity.
Qed.

(** ** The indices a chunk goes through *)

Lemma attempted_bind_nil {A} (f : A → list Event) (l : list A) :
  (∀ x, attempted (f x) = []) → attempted (l ≫= f) = [].
Proof.
  intros Hf. induction l as [|x l IH]; csimpl; [done|].
  by rewrite attempted_app, Hf, IH.
Qed.

Section Chunk.
Context `{EngineAPI} `{EngineConfig} {I : Type} `{QueueItemLike I}.
Context (now : Date).

Lemma broadcastToUser_attempted s r : attempted (broadcastToUser now s r).1 = [].
Proof.
  unfold broadcastToUser. simpl.
  destruct (syncToNotion s (result_ticker r) 0) as [id0|m0];
    [destruct (falsy id0)|]; simpl;
    try (destruct (syncToNotion s (result_ticker r) 1) as [id1|m1];
         [destruct (falsy id1)|]; simpl).
  all: rewrite ?setAnalysisError_eq; unfold update_page; simpl.
  all: try destruct (pages_update s Complete); simpl; try done.
  all: try destruct (pages_update s Error); simpl; try done.
Qed.

(** Whatever happens to a subject, the loop body logs its index once and
    returns. *)
Lemma process_item_attempted marketContext i endIndex item metrics :
  attempted (process_item now marketContext i endIndex item metrics).1 = [i] ∧
  ∃ metrics', (process_item now marketContext i endIndex item metrics).2 = Ok metrics'.
Proof.
  destruct DRY_RUN eqn:Hdry.
  { unfold process_item. rewrite Hdry. simpl. split; [done|by eexists]. }
  destruct (analyzeWithRetry_returns item) as [r Hr].
  destruct (analyzeWithRetry item 3) as [es_a r'] eqn:Hrun. simpl in Hr. subst r'.
  assert (attempted es_a = []) as Hes_a.
  { pose proof (analyzeWithRetry_from_events item 3 3 0) as Hev.
    unfold analyzeWithRetry in Hrun. rewrite Hrun in Hev.
    by apply (analysis_events_silent _ ""). }
  assert (attempted (setAnalyzingStatus (item_subscribers item)).1 = []) as Han.
  { rewrite setAnalyzingStatus_eq. simpl. by apply attempted_bind_nil. }
  destruct (decide (success r = true ∧ validateAnalysisComplete r = true))
    as [[Hs Hv]|Hfail].
  - destruct (process_item_success now marketContext i endIndex item metrics es_a r
                Hdry Hrun Hs Hv) as (metrics' & pause & -> & Hpause & _).
    simpl. split; [|by eexists].
    rewrite !attempted_app, Han, Hes_a. simpl. f_equal.
    rewrite (attempted_bind_nil (λ s, (broadcastToUser now s r).1))
      by (intros; apply broadcastToUser_attempted).
    simpl.
    assert (attempted pause = []) as ->.
    { rewrite Hpause. by destruct (negb _ && _). }
    clear Hpause. rewrite app_nil_r. destruct (0 <? _); [|done].
    apply attempted_bind_nil. intros s.
    by destruct (create_history_eq marketContext s) as (? & ? & -> & _).
  - assert (success r = false ∨ validateAnalysisComplete r = false) as Hfail'.
    { destruct (success r), (validateAnalysisComplete r); auto.
      exfalso. by apply Hfail. }
    destruct (process_item_failure now marketContext i endIndex item metrics es_a r
                Hdry Hrun Hfail') as (message & metrics' & -> & _).
    simpl. split; [|by eexists].
    rewrite !attempted_app, Han, Hes_a. simpl. f_equal.
    destruct (broadcastError_eq now (item_subscribers item) message (item_ticker item))
      as [context ->]. simpl.
    apply attempted_bind_nil. intros s. rewrite setAnalysisError_eq. simpl.
    by destruct (pages_update s Error).
Qed.

Lemma process_from_attempted (queue : list I) marketContext endIndex n i metrics :
  0 ≤ i → i + Z.of_nat n ≤ Z.of_nat (length queue) →
  attempted (process_from now queue marketContext endIndex n i metrics).1
    = seqZ i (Z.of_nat n) ∧
  ∃ metrics', (process_from now queue marketContext endIndex n i metrics).2 = Ok metrics'.
Proof.
  revert i metrics. induction n as [|n IH]; intros i metrics Hi Hlen.
  { simpl. split; [done|by eexists]. }
  simpl process_from. unfold at_index.
  rewrite (proj2 (Z.ltb_ge _ _)) by done.
  destruct (lookup_lt_is_Some_2 queue (Z.to_nat i)) as [item Hitem]; [lia|].
  rewrite Hitem.
  destruct (process_item_attempted marketContext i endIndex item metrics)
    as (Hatt & metrics1 & Hok).
  destruct (process_item now marketContext i endIndex item metrics) as [es r].
  simpl in Hatt, Hok. subst r. cbn [bind].
  destruct (IH (i + 1) metrics1) as (Hatt' & metrics2 & Hok'); [lia..|].
  destruct (process_from now queue marketContext endIndex n (i + 1) metrics1)
    as [es' r']. simpl in *. subst r'.
  split; [|by eexists].
  rewrite attempted_app, Hatt, Hatt'.
  rewrite (seqZ_cons i) by lia. simpl. do 2 f_equal; lia.
Qed.

(** A chunk goes through the indices from [startIndex] up to the end of
    the chunk or of the queue, each once and in order, and returns. *)
Lemma processQueue_attempted (queue : list I) marketContext startIndex maxItems :
  0 ≤ startIndex →
  attempted (processQueue now queue marketContext startIndex maxItems).1
    = seqZ startIndex
        (Z.min (startIndex + maxItems) (Z.of_nat (length queue)) - startIndex) ∧
  ∃ metrics, (processQueue now queue marketContext startIndex maxItems).2 = Ok metrics.
Proof.
  intros Hstart. unfold processQueue.
  set (endIndex := Z.min (startIndex + maxItems) (Z.of_nat (length queue))).
  destruct (decide (endIndex - startIndex ≤ 0)) as [Hle|Hgt].
  - rewrite (Z2Nat.nonpos _ Hle). simpl. split; [|by eexists].
    by rewrite seqZ_nil.
  - match goal with |- context [process_from _ _ _ _ _ _ ?m] => set (metrics := m) end.
    destruct (process_from_attempted queue marketContext endIndex
                (Z.to_nat (endIndex - startIndex)) startIndex metrics)
      as (Hatt & Hok); [lia|lia|].
    rewrite Hatt. split; [|done]. f_equal. lia.
Qed.
End Chunk.

(** ** The shape of one turn of the loop *)

Lemma omap_silent {C} (P : Event → Prop) (f : Event → option C) (es : list Event) :
  Forall P es → (∀ e, P e → f e = None) → omap f es = [].
Proof.
  intros Hes Hf. induction Hes as [|e es He _ IH]; [done|].
  csimpl. by rewrite (Hf e He).
Qed.

Lemma Forall_bind_events {A} (P : Event → Prop) (f : A → list Event) (l : list A) :
  (∀ x, x ∈ l → Forall P (f x)) → Forall P (l ≫= f).
Proof.
  induction l as [|x l IH]; intros Hf; csimpl; [constructor|].
  apply Forall_app. split; [apply Hf; left|]. apply IH. intros y Hy. apply Hf. by right.
Qed.

Section Shape.
Context `{EngineAPI} `{EngineConfig} {I : Type} `{QueueItemLike I}.
Context (now : Date).

Lemma setAnalysisError_delivery s message context :
  Forall delivery_event (setAnalysisError s message context).1.
Proof.
  rewrite setAnalysisError_eq. simpl.
  by destruct (pages_update s Error); repeat constructor.
Qed.

Lemma broadcastToUser_delivery s r : Forall delivery_event (broadcastToUser now s r).1.
Proof.
  unfold broadcastToUser. simpl.
  destruct (syncToNotion s (result_ticker r) 0) as [id0|m0];
    [destruct (falsy id0)|]; simpl;
    try (destruct (syncToNotion s (result_ticker r) 1) as [id1|m1];
         [destruct (falsy id1)|]; simpl).
  all: rewrite ?setAnalysisError_eq; unfold update_page; simpl.
  all: try destruct (pages_update s Complete); simpl.
  all: try destruct (pages_update s Error); simpl.
  all: by repeat constructor.
Qed.

Lemma create_history_delivery marketContext s :
  Forall delivery_event (create_history marketContext s).1.
Proof.
  destruct (create_history_eq marketContext s) as (created & ok & -> & _).
  by repeat constructor.
Qed.

(** Outside dry-run mode a turn of the loop is: the console line, the
    status updates to Analyzing, the analysis step, and delivery calls. *)
Lemma process_item_shape marketContext i endIndex item metrics :
  DRY_RUN = false →
  ∃ es_a r before after,
    analyzeWithRetry item 3 = (es_a, Ok r) ∧
    (process_item now marketContext i endIndex item metrics).1
      = LogProcessing i (item_ticker item) :: before ++ es_a ++ after ∧
    Forall delivery_event before ∧ Forall delivery_event after.
Proof.
  intros Hdry.
  destruct (analyzeWithRetry_returns item) as [r Hr].
  destruct (analyzeWithRetry item 3) as [es_a r'] eqn:Hrun. simpl in Hr. subst r'.
  exists es_a, r, (setAnalyzingStatus (item_subscribers item)).1.
  assert (Forall delivery_event (setAnalyzingStatus (item_subscribers item)).1) as Han.
  { rewrite setAnalyzingStatus_eq. simpl. apply Forall_bind_events.
    intros s _. by repeat constructor. }
  destruct (decide (success r = true ∧ validateAnalysisComplete r = true))
    as [[Hs Hv]|Hfail].
  - destruct (process_item_success now marketContext i endIndex item metrics es_a r
                Hdry Hrun Hs Hv) as (metrics' & pause & -> & Hpause & _).
    eexists. split; [done|]. split; [reflexivity|]. split; [done|].
    repeat apply Forall_app_2.
    + apply Forall_bind_events. intros s _. apply broadcastToUser_delivery.
    + destruct (0 <? Z.of_nat _); [|constructor].
      apply Forall_bind_events. intros s _. apply create_history_delivery.
    + rewrite Hpause. destruct (negb _ && _); by repeat constructor.
  - assert (success r = false ∨ validateAnalysisComplete r = false) as Hfail'.
    { destruct (success r), (validateAnalysisComplete r); auto.
      exfalso. by apply Hfail. }
    destruct (process_item_failure now marketContext i endIndex item metrics es_a r
                Hdry Hrun Hfail') as (message & metrics' & -> & _).
    eexists. split; [done|]. split; [reflexivity|]. split; [done|].
    destruct (broadcastError_eq now (item_subscribers item) message (item_ticker item))
      as [context ->]. simpl.
    apply Forall_bind_events. intros s _. apply setAnalysisError_delivery.
Qed.

Lemma analyzeWithRetry_from_later_attempts item maxRetries fuel attempt :
  attempt ≠ 0%nat →
  first_attempts (analyzeWithRetry_from item maxRetries fuel attempt).1 = [].
Proof.
  revert attempt. induction fuel as [|fuel IH]; intros attempt Hne; simpl; [done|].
  destruct (item_subscribers item) as [|first rest]; simpl; [done|].
  destruct attempt as [|attempt]; [done|].
  destruct (analyzeStockCore _ _ _) as [result|message]; simpl; [|done].
  destruct (success result || negb (isGeminiRateLimitError (error result)));
    simpl; [done|].
  destruct (S attempt <? maxRetries - 1)%nat; simpl; [|done].
  specialize (IH (S (S attempt))).
  destruct (analyzeWithRetry_from item maxRetries fuel (S (S attempt))) as [es r].
  simpl in *. by apply IH.
Qed.

Lemma analyzeWithRetry_first_attempt item :
  item_subscribers item ≠ [] →
  first_attempts (analyzeWithRetry item 3).1 = [item_ticker item].
Proof.
  intros Hsubs. unfold analyzeWithRetry. simpl.
  destruct (item_subscribers item) as [|first rest] eqn:Hs; [done|]. simpl.
  destruct (analyzeStockCore _ _ _) as [result|message]; simpl; [|done].
  destruct (success result || negb (isGeminiRateLimitError (error result)));
    simpl; [done|].
  pose proof (analyzeWithRetry_from_later_attempts item 3 2 1) as Hrest.
  simpl in Hrest. rewrite Hs in Hrest.
  destruct (analyzeStockCore (item_ticker item) first 1) as [result1|message1];
    simpl in *; [|done].
  destruct (success result1 || negb (isGeminiRateLimitError (error result1)));
    simpl in *; [done|].
  destruct (analyzeStockCore (item_ticker item) first 2) as [result2|message2];
    simpl in *; [|done].
  by destruct (success result2 || negb (isGeminiRateLimitError (error result2))).
Qed.

(** Each turn of the loop names its subject once on the console, and
    outside dry-run mode starts its analysis once. *)
Lemma process_item_subject marketContext i endIndex item metrics :
  processed (process_item now marketContext i endIndex item metrics).1
    = [item_ticker item] ∧
  (DRY_RUN = false → item_subscribers item ≠ [] →
   first_attempts (process_item now marketContext i endIndex item metrics).1
     = [item_ticker item]).
Proof.
  destruct DRY_RUN eqn:Hdry.
  { unfold process_item. rewrite Hdry. simpl. done. }
  destruct (process_item_shape marketContext i endIndex item metrics Hdry)
    as (es_a & r & before & after & Hrun & -> & Hb & Ha).
  pose proof (analyzeWithRetry_from_events item 3 3 0) as Hev.
  unfold analyzeWithRetry in Hrun. rewrite Hrun in Hev. simpl in Hev.
  unfold processed, first_attempts. simpl. rewrite !omap_app.
  rewrite !(omap_silent delivery_event _ before), !(omap_silent delivery_event _ after);
    try done; try (by intros [] He).
  rewrite (omap_silent analysis_event _ es_a); [|done|by intros [] He].
  split; [done|]. intros _ Hsubs. rewrite app_nil_r. simpl.
  pose proof (analyzeWithRetry_first_attempt item Hsubs) as Hfirst.
  unfold analyzeWithRetry in Hfirst. by rewrite Hrun in Hfirst.
Qed.

Lemma process_from_subjects (queue : list I) marketContext endIndex n i metrics :
  0 ≤ i → i + Z.of_nat n ≤ Z.of_nat (length queue) →
  let run := process_from now queue marketContext endIndex n i metrics in
  processed run.1 = item_ticker <$> take n (drop (Z.to_nat i) queue) ∧
  (DRY_RUN = false → Forall (λ item, item_subscribers item ≠ []) queue →
   first_attempts run.1 = item_ticker <$> take n (drop (Z.to_nat i) queue)).
Proof.
  revert i metrics. induction n as [|n IH]; intros i metrics Hi Hlen.
  { simpl. done. }
  simpl process_from. unfold at_index.
  rewrite (proj2 (Z.ltb_ge _ _)) by done.
  destruct (lookup_lt_is_Some_2 queue (Z.to_nat i)) as [item Hitem]; [lia|].
  rewrite Hitem.
  destruct (process_item_subject marketContext i endIndex item metrics) as [Hp Hf].
  destruct (process_item_attempted now marketContext i endIndex item metrics)
    as (_ & metrics1 & Hok).
  destruct (process_item now marketContext i endIndex item metrics) as [es r].
  simpl in Hp, Hf, Hok. subst r. cbn [bind].
  destruct (IH (i + 1) metrics1) as (Hp' & Hf'); [lia..|].
  destruct (process_from now queue marketContext endIndex n (i + 1) metrics1)
    as [es' r']. simpl in *.
  replace (Z.to_nat (i + 1)) with (S (Z.to_nat i)) in * by lia.
  rewrite (drop_S _ _ _ Hitem). csimpl.
  unfold processed, first_attempts in *. rewrite !omap_app.
  split; [by rewrite Hp, Hp'|].
  intros Hdry Hall. rewrite Hf, Hf'; try done.
  rewrite Forall_forall in Hall. apply Hall. by eapply list_elem_of_lookup_2.
Qed.
End Shape.

(** ** The work of a chunk *)

Lemma status_attempts_app p es1 es2 :
  status_attempts p (es1 ++ es2) = status_attempts p es1 ++ status_attempts p es2.
Proof. apply omap_app. Qed.

Lemma first_attempts_app es1 es2 :
  first_attempts (es1 ++ es2) = first_attempts es1 ++ first_attempts es2.
Proof. apply omap_app. Qed.

Lemma status_attempted p st notes ok es :
  PageUpdate p st notes ok ∈ es → st ∈ status_attempts p es.
Proof.
  intros He. apply list_elem_of_omap. eexists. split; [exact He|].
  simpl. by rewrite decide_True.
Qed.

Lemma worked_on_nil {I : Type} `{QueueItemLike I} : worked_on ([] : list I) [].
Proof. split; [done|]. intros item s Hin. by apply elem_of_nil in Hin. Qed.

Lemma worked_on_cons {I : Type} `{QueueItemLike I} (item : I) chunk es1 es2 :
  worked_on [item] es1 → worked_on chunk es2 → worked_on (item :: chunk) (es1 ++ es2).
Proof.
  intros [Hf1 Hs1] [Hf2 Hs2]. split.
  - rewrite first_attempts_app, Hf1, Hf2. rewrite (filter_cons _ item chunk).
    rewrite filter_cons, filter_nil. by case_decide.
  - intros it s Hin Hs. rewrite !status_attempts_app, !elem_of_app.
    apply elem_of_cons in Hin as [->|Hin].
    + destruct (Hs1 item s) as [Ha Hfin]; [left|done|]. tauto.
    + destruct (Hs2 it s Hin Hs) as [Ha Hfin]. tauto.
Qed.

Section Work.
Context `{EngineAPI} `{EngineConfig} {I : Type} `{QueueItemLike I}.
Context (now : Date).

Lemma analyzeWithRetry_no_subscriber item :
  item_subscribers item = [] → first_attempts (analyzeWithRetry item 3).1 = [].
Proof. intros Hsubs. unfold analyzeWithRetry. simpl. by rewrite Hsubs. Qed.

Lemma broadcastToUser_final_status s r :
  Complete ∈ status_attempts (pageId s) (broadcastToUser now s r).1
  ∨ Error ∈ status_attempts (pageId s) (broadcastToUser now s r).1.
Proof.
  unfold broadcastToUser. simpl.
  destruct (syncToNotion s (result_ticker r) 0) as [id0|m0];
    [destruct (falsy id0)|]; simpl;
    try (destruct (syncToNotion s (result_ticker r) 1) as [id1|m1];
         [destruct (falsy id1)|]; simpl).
  all: rewrite ?setAnalysisError_eq; unfold update_page; simpl.
  all: try destruct (pages_update s Complete); simpl.
  all: try destruct (pages_update s Error); simpl.
  all: rewrite !decide_True by done.
  all: first [left; by repeat constructor | right; by repeat constructor].
Qed.

(** Outside dry-run mode a turn of the loop works on its subject. *)
Lemma process_item_worked marketContext i endIndex item metrics :
  DRY_RUN = false →
  worked_on [item] (process_item now marketContext i endIndex item metrics).1.
Proof.
  intros Hdry.
  destruct (process_item_subject now marketContext i endIndex item metrics) as [_ Hfirst].
  split.
  - rewrite filter_cons, filter_nil. case_decide as Hsubs; [by apply Hfirst|].
    assert (item_subscribers item = []) as Hnone
      by (by destruct (item_subscribers item)).
    destruct (process_item_shape now marketContext i endIndex item metrics Hdry)
      as (es_a & r & before & after & Hrun & -> & Hb & Ha).
    pose proof (analyzeWithRetry_no_subscriber item Hnone) as Hno.
    rewrite Hrun in Hno. simpl in Hno.
    unfold first_attempts in *. simpl. rewrite !omap_app, Hno.
    rewrite (omap_silent delivery_event _ before), (omap_silent delivery_event _ after);
      try done; by intros [] He.
  - intros it s Hit Hs. apply list_elem_of_singleton in Hit as ->.
    destruct (analyzeWithRetry_returns item) as [r Hr].
    destruct (analyzeWithRetry item 3) as [es_a r'] eqn:Hrun. simpl in Hr. subst r'.
    assert (Analyzing ∈ status_attempts (pageId s)
                          (setAnalyzingStatus (item_subscribers item)).1) as Han.
    { rewrite setAnalyzingStatus_eq. simpl.
      apply (status_attempted _ _ None (pages_update s Analyzing)).
      apply list_elem_of_bind. exists s. split; [left|done]. }
    destruct (decide (success r = true ∧ validateAnalysisComplete r = true))
      as [[Hsuccess Hvalid]|Hfail].
    + destruct (process_item_success now marketContext i endIndex item metrics es_a r
                  Hdry Hrun Hsuccess Hvalid) as (metrics' & pause & -> & _).
      simpl fst.
      change (LogProcessing i (item_ticker item) :: ?l)
        with ([LogProcessing i (item_ticker item)] ++ l).
      rewrite !status_attempts_app, !elem_of_app. split; [tauto|].
      assert (Complete ∈ status_attempts (pageId s)
                (item_subscribers item ≫= λ s, (broadcastToUser now s r).1)
              ∨ Error ∈ status_attempts (pageId s)
                  (item_subscribers item ≫= λ s, (broadcastToUser now s r).1)) as Hfin.
      { apply list_elem_of_split in Hs as (l1 & l2 & ->).
        rewrite bind_app, bind_cons, !status_attempts_app, !elem_of_app.
        destruct (broadcastToUser_final_status s r); tauto. }
      tauto.
    + assert (success r = false ∨ validateAnalysisComplete r = false) as Hfail'.
      { destruct (success r), (validateAnalysisComplete r); auto.
        exfalso. by apply Hfail. }
      destruct (process_item_failure now marketContext i endIndex item metrics es_a r
                  Hdry Hrun Hfail') as (message & metrics' & -> & _).
      simpl fst.
      change (LogProcessing i (item_ticker item) :: ?l)
        with ([LogProcessing i (item_ticker item)] ++ l).
      rewrite !status_attempts_app, !elem_of_app. split; [tauto|].
      right. do 3 right.
      destruct (broadcastError_eq now (item_subscribers item) message (item_ticker item))
        as [context ->]. simpl.
      apply list_elem_of_split in Hs as (l1 & l2 & ->).
      rewrite bind_app, bind_cons, !status_attempts_app, !elem_of_app.
      right. left. rewrite setAnalysisError_eq. simpl. rewrite decide_True by done. left.
Qed.

Lemma process_from_worked (queue : list I) marketContext endIndex n i metrics :
  DRY_RUN = false → 0 ≤ i → i + Z.of_nat n ≤ Z.of_nat (length queue) →
  worked_on (take n (drop (Z.to_nat i) queue))
    (process_from now queue marketContext endIndex n i metrics).1.
Proof.
  intros Hdry. revert i metrics. induction n as [|n IH]; intros i metrics Hi Hlen.
  { simpl. apply worked_on_nil. }
  simpl process_from. unfold at_index.
  rewrite (proj2 (Z.ltb_ge _ _)) by done.
  destruct (lookup_lt_is_Some_2 queue (Z.to_nat i)) as [item Hitem]; [lia|].
  rewrite Hitem.
  pose proof (process_item_worked marketContext i endIndex item metrics Hdry) as Hw.
  destruct (process_item_attempted now marketContext i endIndex item metrics)
    as (_ & metrics1 & Hok).
  destruct (process_item now marketContext i endIndex item metrics) as [es r].
  simpl in Hw, Hok. subst r. cbn [bind].
  specialize (IH (i + 1) metrics1 ltac:(lia) ltac:(lia)).
  destruct (process_from now queue marketContext endIndex n (i + 1) metrics1)
    as [es' r']. simpl in *.
  replace (Z.to_nat (i + 1)) with (S (Z.to_nat i)) in IH by lia.
  rewrite (drop_S _ _ _ Hitem). simpl take.
  by apply worked_on_cons.
Qed.

(** What a chunk goes through: the subjects of its slice of the queue, on
    the console and, outside dry-run mode, in the work done. *)
Lemma processQueue_worked (queue : list I) marketContext startIndex maxItems :
  0 ≤ startIndex → 0 ≤ maxItems →
  startIndex + maxItems ≤ Z.of_nat (length queue) →
  let chunk := take (Z.to_nat maxItems) (drop (Z.to_nat startIndex) queue) in
  let es := (processQueue now queue marketContext startIndex maxItems).1 in
  processed es = item_ticker <$> chunk ∧
  (DRY_RUN = false → worked_on chunk es).
Proof.
  intros Hstart Hmax Hlen chunk es. subst chunk es. unfold processQueue.
  rewrite Z.min_l by lia.
  replace (startIndex + maxItems - startIndex) with maxItems by lia.
  match goal with |- context [process_from _ _ _ _ _ _ ?m] => set (metrics := m) end.
  split.
  - by apply process_from_subjects; lia.
  - intros Hdry. apply process_from_worked; [done|lia..].
Qed.
End Work.

Lemma collected_nonempty rs m e : collected rs m → e ∈ m → e.2 ≠ [].
Proof.
  intros [Hnd Hget] He. destruct e as [k subs]. simpl.
  apply Map_elem_of_get in He; [|done]. rewrite Hget in He.
  destruct ((filter (λ r, r.1 = k) rs).*2); [done|]. by injection He as <-.
Qed.

Lemma built_queue_has_subscribers `{StringRuntime} `{CollectorAPI} now users :
  Forall (λ item : QueueItem, item_subscribers item ≠ [])
    (buildPriorityQueue now (collectStockRequests users)).
Proof.
  apply Forall_forall. intros it (e & He & ->)%buildPriorityQueue_elem_of. simpl.
  by eapply collected_nonempty; [apply collectStockRequests_collected|].
Qed.

Lemma worked_on_stored (chunk : list QueueItem) (es : list Event) :
  worked_on (JSON_item <$> chunk) es → worked_on chunk es.
Proof.
  intros [Hfirst Hstatus]. split.
  - rewrite Hfirst. clear. induction chunk as [|item chunk IH]; [done|].
    rewrite fmap_cons, !filter_cons.
    change (item_subscribers (JSON_item item)) with (item_subscribers item).
    case_decide; [rewrite !fmap_cons; f_equal|]; exact IH.
  - intros item s Hitem Hs. apply (Hstatus (JSON_item item) s); [|done].
    by apply list_elem_of_fmap_2.
Qed.

Lemma worked_on_first_attempts {I : Type} `{QueueItemLike I} (chunk : list I) es :
  Forall (λ item, item_subscribers item ≠ []) chunk →
  worked_on chunk es → first_attempts es = item_ticker <$> chunk.
Proof.
  intros Hall [-> _]. f_equal. induction Hall as [|item chunk Hitem _ IH]; [done|].
  rewrite filter_cons. rewrite decide_True by done. by rewrite IH.
Qed.

(** ** The entry point on a serving store *)

Section ServingStore.
Context `{RedisService}.
Hypothesis credentials : credentials_missing = false.
Hypothesis serving : ∀ n, availability n = Serves.

Lemma load_serving now b :
  loadQueueFromRedis now None b
  = (Ok (data b !! today_key now),
     {| data := data b; expiry := expiry b;
        received := received b ++ [GET (today_key now)] |}).
Proof.
  unfold loadQueueFromRedis, fetch. rewrite credentials, serving. done.
Qed.

Lemma save_serving now queue ctx chunkSize b :
  let doc := {| id := today_key now;
                items := JSON_item <$> queue;
                processedCount := 0;
                totalCount := Z.of_nat (length queue);
                createdAt := toISOString now;
                marketContext := ctx;
                chunkSize := chunkSize;
                lastChunkAt := None |} in
  saveQueueToRedis now queue ctx chunkSize b
  = (Ok (today_key now),
     {| data := <[today_key now := doc]> (data b);
        expiry := <[today_key now := QUEUE_TTL]> (delete (today_key now) (expiry b));
        received := (received b ++ [SET (today_key now) doc])
                      ++ [EXPIRE (today_key now) QUEUE_TTL] |}).
Proof.
  intros doc. unfold saveQueueToRedis, fetch. rewrite credentials.
  repeat (rewrite serving; simpl).
  rewrite decide_True by (rewrite lookup_insert_eq; by eexists). done.
Qed.

Lemma update_serving now queueId count b doc :
  data b !! queueId = Some doc →
  updateProcessedCount now queueId count b
  = (Ok tt,
     {| data := <[queueId := advanced now doc count]> (data b);
        expiry := delete queueId (expiry b);
        received := (received b ++ [GET queueId])
                      ++ [SET queueId (advanced now doc count)] |}).
Proof.
  intros Hdoc. unfold updateProcessedCount, fetch. rewrite credentials.
  repeat (rewrite serving; simpl). rewrite Hdoc. simpl.
  repeat (rewrite serving; simpl). done.
Qed.

Lemma delete_serving queueId b :
  deleteQueue queueId b
  = (Ok tt,
     {| data := delete queueId (data b);
        expiry := delete queueId (expiry b);
        received := received b ++ [DEL queueId] |}).
Proof.
  unfold deleteQueue, fetch. rewrite credentials, serving. done.
Qed.
End ServingStore.

Section EntryPoint.
Context `{StringRuntime} `{CollectorAPI} `{EngineAPI} `{EngineConfig}
        `{RedisService} `{CronEnv}.
Hypothesis credentials : credentials_missing = false.
Hypothesis serving : ∀ n, availability n = Serves.

(** Checkpoint and clean-up on a serving store. *)
Lemma checkpoint_serving now mode chunkNumber queueId count total metrics es b doc :
  data b !! queueId = Some doc →
  ∃ summary b',
    checkpoint now mode chunkNumber queueId count total metrics es b
    = (ChunkDone summary, b', es) ∧
    processedItems summary = count ∧
    isComplete summary = bool_decide (total ≤ count) ∧
    received b' = received b ++ [GET queueId; SET queueId (advanced now doc count)]
                    ++ (if bool_decide (total ≤ count) then [DEL queueId] else []) ∧
    data b' !! queueId = if bool_decide (total ≤ count) then None
                         else Some (advanced now doc count).
Proof.
  intros Hdoc. unfold checkpoint.
  rewrite (update_serving credentials serving now queueId count b doc Hdoc).
  destruct (total <=? count) eqn:Hc.
  - rewrite delete_serving by done. simpl.
    apply Z.leb_le in Hc. rewrite bool_decide_eq_true_2 by done.
    do 2 eexists. split_and!; [reflexivity|done|done| |].
    + simpl. by rewrite <- !(assoc_L (++)).
    + simpl. apply lookup_delete_eq.
  - apply Z.leb_gt in Hc. rewrite bool_decide_eq_false_2 by lia.
    do 2 eexists. split_and!; [reflexivity|done|done| |].
    + simpl. by rewrite <- !(assoc_L (++)).
    + simpl. apply lookup_insert_eq.
Qed.

(** A resumed invocation: the chunk starts at the stored cursor. *)
Lemma handler_resume req now b doc :
  authorized req → checkNYSEMarketDay now = true →
  data b !! today_key now = Some doc → id doc = today_key now →
  0 ≤ processedCount doc →
  let start := processedCount doc in
  let n := Z.min CHUNK_SIZE (totalCount doc - start) in
  ∃ summary b' es,
    handler req now b = (ChunkDone summary, b', es) ∧
    es = (processQueue now (items doc) (marketContext doc) start n).1 ∧
    attempted es = seqZ start (Z.min (start + n) (Z.of_nat (length (items doc))) - start) ∧
    processedItems summary = start + n ∧
    isComplete summary = bool_decide (totalCount doc ≤ start + n) ∧
    received b' = received b
                    ++ [GET (today_key now); GET (today_key now);
                        SET (today_key now) (advanced now doc (start + n))]
                    ++ (if bool_decide (totalCount doc ≤ start + n)
                        then [DEL (today_key now)] else []) ∧
    data b' !! today_key now
      = if bool_decide (totalCount doc ≤ start + n) then None
        else Some (advanced now doc (start + n)).
Proof.
  intros Hauth Hday Hdoc Hid Hstart start n. unfold handler.
  unfold authorized in Hauth. simpl in Hauth. rewrite Hauth, Hday. simpl negb. cbv iota.
  rewrite (load_serving credentials serving), Hdoc.
  fold start. fold n.
  destruct (processQueue_attempted now (items doc) (marketContext doc) start n Hstart)
    as (Hatt & metrics & Hok).
  destruct (processQueue now (items doc) (marketContext doc) start n) as [es r].
  simpl in Hatt, Hok. subst r.
  edestruct (checkpoint_serving now "resume" (ceil_div (start + n) CHUNK_SIZE)
               (id doc) (start + n) (totalCount doc) metrics es
               {| data := data b; expiry := expiry b;
                  received := received b ++ [GET (today_key now)] |} doc)
    as (summary & b' & Hcp & Hitems & Hcomplete & Hreceived & Hdata).
  { simpl. by rewrite Hid. }
  rewrite Hcp. exists summary, b', es. rewrite Hid in *.
  split_and!; try done.
  rewrite Hreceived. simpl. by rewrite <- !(assoc_L (++)).
Qed.

(** A first invocation of the day: the queue is built, saved, and its
    first chunk processed. *)
Lemma handler_first_run req now b users :
  authorized req → checkNYSEMarketDay now = true →
  data b !! today_key now = None → getAllUsers = Ok users →
  let queue := buildPriorityQueue now (collectStockRequests users) in
  let total := Z.of_nat (length queue) in
  let n := Z.min CHUNK_SIZE total in
  let doc := {| id := today_key now;
                items := JSON_item <$> queue;
                processedCount := 0;
                totalCount := total;
                createdAt := toISOString now;
                marketContext := fetchMarketContext;
                chunkSize := CHUNK_SIZE;
                lastChunkAt := None |} in
  ∃ summary b' es,
    handler req now b = (ChunkDone summary, b', es) ∧
    es = (processQueue now queue fetchMarketContext 0 n).1 ∧
    attempted es = seqZ 0 (Z.min (0 + n) total - 0) ∧
    processedItems summary = n ∧
    isComplete summary = bool_decide (total ≤ n) ∧
    received b' = received b
                    ++ [GET (today_key now); SET (today_key now) doc;
                        EXPIRE (today_key now) QUEUE_TTL; GET (today_key now);
                        SET (today_key now) (advanced now doc n)]
                    ++ (if bool_decide (total ≤ n) then [DEL (today_key now)] else []) ∧
    data b' !! today_key now
      = if bool_decide (total ≤ n) then None else Some (advanced now doc n).
Proof.
  intros Hauth Hday Hnone Husers queue total n doc. unfold handler.
  unfold authorized in Hauth. simpl in Hauth. rewrite Hauth, Hday. simpl negb. cbv iota.
  rewrite (load_serving credentials serving), Hnone, Husers.
  fold queue. rewrite (save_serving credentials serving). fold total. fold n. fold doc.
  destruct (processQueue_attempted now queue fetchMarketContext 0 n ltac:(done))
    as (Hatt & metrics & Hok).
  destruct (processQueue now queue fetchMarketContext 0 n) as [es r].
  simpl in Hatt, Hok. subst r.
  match goal with
  | |- context [checkpoint ?a1 ?a2 ?a3 ?a4 ?a5 ?a6 ?a7 ?a8 ?a9] =>
      destruct (checkpoint_serving a1 a2 a3 a4 a5 a6 a7 a8 a9 doc)
        as (summary & b' & Hcp & Hitems & Hcomplete & Hreceived & Hdata)
  end.
  { simpl. apply lookup_insert_eq. }
  rewrite Hcp. exists summary, b', es.
  split_and!; try done.
  rewrite Hreceived. simpl. by rewrite <- !(assoc_L (++)).
Qed.
End EntryPoint.

Section ChunkedRun.
Context `{StringRuntime} `{CollectorAPI} `{EngineAPI} `{EngineConfig}
        `{RedisService} `{CronEnv}.

(** C4, as the code has it.  For authorized invocations on a market day
    and a store that is configured and serves every request.  With chunk
    size 8 and a queue of 15 subjects, the first invocation of the day goes
    through exactly the indices 0 to 7, writes the checkpoint 8 and leaves
    the queue in the store; the next invocation of that day resumes at
    index 8, goes through the indices 8 to 14, writes the checkpoint 15 and
    deletes the queue.  Going through an index is: the console line of its
    subject and, outside dry-run mode, the start of the analysis of that
    subject and, for every subscriber page of it, the status Analyzing and
    a final status, Complete or Error; the console names no other subject
    and the analysis of no other subject is started.  In general, for a chunk size that is not negative, an
    invocation moves the cursor by exactly the number of items it went
    through, whatever became of each of them, and the queue is gone from
    the store exactly when the new cursor has reached the total. *)
Theorem chunks_advance_the_cursor
    (req : VercelRequest) (now now' : Date) (b : Backend) (users : list User) :
  credentials_missing = false →
  (∀ n, availability n = Serves) →
  authorized req →
  checkNYSEMarketDay now = true → checkNYSEMarketDay now' = true →
  today_key now' = today_key now →
  let key := today_key now in
  let queue := buildPriorityQueue now (collectStockRequests users) in
  (CHUNK_SIZE = 8 → data b !! key = None → getAllUsers = Ok users →
   length queue = 15%nat →
   ∃ r1 b1 es1 r2 b2 es2 doc,
     handler req now b = (ChunkDone r1, b1, es1) ∧
     handler req now' b1 = (ChunkDone r2, b2, es2) ∧
     attempted es1 = [0; 1; 2; 3; 4; 5; 6; 7] ∧
     processed es1 = ticker <$> take 8 queue ∧
     (DRY_RUN = false →
      first_attempts es1 = ticker <$> take 8 queue ∧ worked_on (take 8 queue) es1) ∧
     processedItems r1 = 8 ∧ isComplete r1 = false ∧
     data b1 !! key = Some (advanced now doc 8) ∧
     totalCount doc = 15 ∧ items doc = JSON_item <$> queue ∧
     received b1 = received b ++ [GET key; SET key doc; EXPIRE key QUEUE_TTL;
                                  GET key; SET key (advanced now doc 8)] ∧
     attempted es2 = [8; 9; 10; 11; 12; 13; 14] ∧
     processed es2 = ticker <$> drop 8 queue ∧
     (DRY_RUN = false →
      first_attempts es2 = ticker <$> drop 8 queue ∧ worked_on (drop 8 queue) es2) ∧
     processedItems r2 = 15 ∧ isComplete r2 = true ∧
     received b2 = received b1
                     ++ [GET key; GET key;
                         SET key (advanced now' (advanced now doc 8) 15); DEL key] ∧
     data b2 !! key = None) ∧
  (0 ≤ CHUNK_SIZE →
   ∀ doc, data b !! key = Some doc → id doc = key →
     0 ≤ processedCount doc ≤ totalCount doc →
     totalCount doc = Z.of_nat (length (items doc)) →
     ∃ summary b' es,
       handler req now b = (ChunkDone summary, b', es) ∧
       attempted es = seqZ (processedCount doc) (Z.of_nat (length (attempted es))) ∧
       Z.of_nat (length (attempted es))
         = Z.min CHUNK_SIZE (totalCount doc - processedCount doc) ∧
       (let chunk := take (length (attempted es))
                       (drop (Z.to_nat (processedCount doc)) (items doc)) in
        processed es = parsed_ticker <$> chunk ∧
        (DRY_RUN = false → worked_on chunk es)) ∧
       processedItems summary
         = processedCount doc + Z.of_nat (length (attempted es)) ∧
       received b' = received b
                       ++ [GET key; GET key;
                           SET key (advanced now doc (processedItems summary))]
                       ++ (if bool_decide (totalCount doc ≤ processedItems summary)
                           then [DEL key] else []) ∧
       (data b' !! key = None ↔ totalCount doc ≤ processedItems summary)) ∧
  (0 ≤ CHUNK_SIZE → data b !! key = None → getAllUsers = Ok users →
   ∃ summary b' es,
     handler req now b = (ChunkDone summary, b', es) ∧
     attempted es = seqZ 0 (Z.of_nat (length (attempted es))) ∧
     Z.of_nat (length (attempted es)) = Z.min CHUNK_SIZE (Z.of_nat (length queue)) ∧
     (let chunk := take (length (attempted es)) queue in
      processed es = ticker <$> chunk ∧
      (DRY_RUN = false → first_attempts es = ticker <$> chunk ∧ worked_on chunk es)) ∧
     processedItems summary = Z.of_nat (length (attempted es)) ∧
     (∃ doc, received b' = received b
                     ++ [GET key; SET key doc; EXPIRE key QUEUE_TTL; GET key;
                         SET key (advanced now doc (processedItems summary))]
                     ++ (if bool_decide (Z.of_nat (length queue) ≤ processedItems summary)
                         then [DEL key] else [])) ∧
     (data b' !! key = None ↔ Z.of_nat (length queue) ≤ processedItems summary)).
Proof.
  intros credentials serving Hauth Hday Hday' Hkey key queue.
  pose proof (built_queue_has_subscribers now users) as Hsubs. fold queue in Hsubs.
  split_and!.
  - intros Hchunk Hnone Husers Hlen.
    destruct (handler_first_run credentials serving req now b users Hauth Hday Hnone Husers)
      as (r1 & b1 & es1 & Hrun1 & Hes1 & Hatt1 & Hitems1 & Hcomplete1 & Hrec1 & Hdata1).
    fold queue in Hes1, Hatt1, Hitems1, Hcomplete1, Hrec1, Hdata1.
    rewrite Hchunk, Hlen in Hes1, Hatt1, Hitems1, Hcomplete1, Hrec1, Hdata1.
    change (Z.min 8 (Z.of_nat 15)) with 8 in *.
    rewrite bool_decide_eq_false_2 in Hcomplete1, Hrec1, Hdata1 by (simpl; lia).
    fold key in Hrec1, Hdata1.
    match type of Hdata1 with _ = Some (advanced now ?d 8) => set (doc := d) in * end.
    assert (data b1 !! today_key now' = Some (advanced now doc 8)) as Hdata1'
      by (by rewrite Hkey).
    destruct (handler_resume credentials serving req now' b1 (advanced now doc 8)
                Hauth Hday' Hdata1')
      as (r2 & b2 & es2 & Hrun2 & Hes2 & Hatt2 & Hitems2 & Hcomplete2 & Hrec2 & Hdata2);
      [by rewrite Hkey|simpl; lia|].
    simpl in Hes2, Hatt2, Hitems2, Hcomplete2, Hrec2, Hdata2.
    rewrite Hchunk, length_fmap in *. fold queue in Hes2, Hatt2. rewrite Hlen in *.
    rewrite Hkey in *. fold key in Hrec2, Hdata2.
    change (Z.min 8 (Z.of_nat 15 - 8)) with 7 in Hes2.
    destruct (processQueue_worked now queue fetchMarketContext 0 8)
      as [Hp1 Hw1]; [lia..|].
    destruct (processQueue_worked now' (JSON_item <$> queue) fetchMarketContext 8 7)
      as [Hp2 Hw2]; [rewrite ?length_fmap; lia..|].
    rewrite <- Hes1 in Hp1, Hw1. rewrite <- Hes2 in Hp2, Hw2.
    change (Z.to_nat 0) with 0%nat in *. change (Z.to_nat 8) with 8%nat in *.
    change (Z.to_nat 7) with 7%nat in *. rewrite drop_0 in Hp1, Hw1.
    assert (take 7 (drop 8 (JSON_item <$> queue)) = JSON_item <$> drop 8 queue) as Hslice.
    { rewrite <- fmap_drop. apply take_ge. rewrite length_fmap, length_drop. lia. }
    rewrite Hslice in Hp2, Hw2.
    exists r1, b1, es1, r2, b2, es2, doc.
    split_and!; try done.
    + intros Hdry. specialize (Hw1 Hdry). split; [|done].
      exact (worked_on_first_attempts (take 8 queue) es1
               ltac:(by apply Forall_take) Hw1).
    + rewrite Hp2, <- list_fmap_compose. done.
    + intros Hdry. apply worked_on_stored in Hw2; [|done]. split; [|done].
      exact (worked_on_first_attempts (drop 8 queue) es2
               ltac:(by apply Forall_drop) Hw2).
  - intros Hchunk doc Hdoc Hid Hrange Htotal.
    destruct (handler_resume credentials serving req now b doc Hauth Hday Hdoc Hid
                ltac:(lia))
      as (summary & b' & es & Hrun & Hes & Hatt & Hitems & Hcomplete & Hrec & Hdata).
    exists summary, b', es. rewrite <- Htotal in Hatt.
    set (start := processedCount doc) in *.
    set (n := Z.min CHUNK_SIZE (totalCount doc - start)) in *.
    assert (Z.min (start + n) (totalCount doc) - start = n) as Hn by lia.
    rewrite Hn in Hatt.
    assert (Z.of_nat (length (attempted es)) = n) as Hcount.
    { rewrite Hatt, length_seqZ. lia. }
    destruct (processQueue_worked now (items doc) (marketContext doc) start n)
      as [Hp Hw]; [lia..|].
    rewrite <- Hes in Hp, Hw.
    assert (length (attempted es) = Z.to_nat n) as Hlength by lia.
    fold key in Hrec, Hdata. rewrite Hcount, Hitems, Hlength.
    split_and!; try done.
    rewrite Hdata; case_bool_decide; split; intros; try done; lia.
  - intros Hchunk Hnone Husers.
    destruct (handler_first_run credentials serving req now b users Hauth Hday Hnone Husers)
      as (summary & b' & es & Hrun & Hes & Hatt & Hitems & Hcomplete & Hrec & Hdata).
    exists summary, b', es. fold queue in Hes, Hatt, Hitems, Hcomplete, Hrec, Hdata.
    set (total := Z.of_nat (length queue)) in *.
    set (n := Z.min CHUNK_SIZE total) in *.
    assert (Z.min (0 + n) total - 0 = n) as Hn by lia.
    rewrite Hn in Hatt.
    assert (Z.of_nat (length (attempted es)) = n) as Hcount.
    { rewrite Hatt, length_seqZ. lia. }
    destruct (processQueue_worked now queue fetchMarketContext 0 n)
      as [Hp Hw]; [lia..|].
    rewrite <- Hes in Hp, Hw. change (Z.to_nat 0) with 0%nat in *.
    rewrite drop_0 in Hp, Hw.
    assert (length (attempted es) = Z.to_nat n) as Hlength by lia.
    fold key in Hrec, Hdata. rewrite Hcount, Hitems, Hlength.
    split_and!; try done; first [by eexists|idtac].
    + intros chunk. split; [done|].
      intros Hdry. specialize (Hw Hdry). split; [|done].
      exact (worked_on_first_attempts (take (Z.to_nat n) queue) es
               ltac:(by apply Forall_take) Hw).
    + rewrite Hdata; case_bool_decide; split; intros; try done; lia.
Qed.
End ChunkedRun.

Example fifteen_subjects :
  ticker <$> @buildPriorityQueue Sample.clock
               (@collectStockRequests Sample.runtime Sample.collector [Sample.ann])
  = ["AAPL"; "MSFT"; "NVDA"; "TSM"; "GOOG"; "AMZN"; "META"; "AVGO";
     "ORCL"; "ASML"; "AMD"; "INTC"; "QCOM"; "IBM"; "CRM"].
Proof. vm_compute. reflexivity. Qed.

Lemma chunks_advance_the_cursor_witness :
  ∃ r1 b1 es1 r2 b2 es2,
    @handler Sample.runtime Sample.collector Sample.api Sample.config Sample.redis
      Sample.cron Sample.cron_request Sample.clock empty_backend
      = (ChunkDone r1, b1, es1) ∧
    @handler Sample.runtime Sample.collector Sample.api Sample.config Sample.redis
      Sample.cron Sample.cron_request Sample.clock b1
      = (ChunkDone r2, b2, es2) ∧
    attempted es1 = [0; 1; 2; 3; 4; 5; 6; 7] ∧
    first_attempts es1
      = ["AAPL"; "MSFT"; "NVDA"; "TSM"; "GOOG"; "AMZN"; "META"; "AVGO"] ∧
    attempted es2 = [8; 9; 10; 11; 12; 13; 14] ∧
    first_attempts es2 = ["ORCL"; "ASML"; "AMD"; "INTC"; "QCOM"; "IBM"; "CRM"] ∧
    data b2 !! today_key Sample.clock = None.
Proof.
  destruct (proj1
    (@chunks_advance_the_cursor Sample.runtime Sample.collector Sample.api
       Sample.config Sample.redis Sample.cron
       Sample.cron_request Sample.clock Sample.clock empty_backend [Sample.ann]
       eq_refl (λ _, eq_refl) eq_refl eq_refl eq_refl eq_refl)
    eq_refl eq_refl eq_refl eq_refl)
    as (r1 & b1 & es1 & r2 & b2 & es2 & doc & H1 & H2 & H3 & _ & H4 & _ & _ & _ & _ & _
        & _ & H5 & _ & H6 & _ & _ & _ & H7).
  exists r1, b1, es1, r2, b2, es2.
  split_and!; [exact H1|exact H2|exact H3|exact (proj1 (H4 eq_refl))|exact H5
              |exact (proj1 (H6 eq_refl))|exact H7].
Defined.

(** C4, as stated, fails where the store or the configuration does not
    play along.  On a store that is unreachable for the read of the
    checkpoint, two items are gone through and the cursor stays at 0; with
    a chunk size of -1 no item is gone through and the cursor moves back to
    -1; and on a store without credentials the first invocation goes
    through nothing. *)
Lemma cursor_can_miss_the_attempts :
  ¬ @cursor_counts_attempts Sample.runtime Sample.collector Sample.api Sample.config
      Sample.redis_dropping_second Sample.cron Sample.cron_request Sample.clock
      Sample.backend_with_queue ∧
  ¬ @cursor_counts_attempts Sample.runtime Sample.collector Sample.api Sample.config
      Sample.redis Sample.cron_negative_chunk Sample.cron_request Sample.clock
      Sample.backend_with_queue ∧
  ¬ @first_chunk_of_fifteen Sample.runtime Sample.collector Sample.api Sample.config
      Sample.redis_unconfigured Sample.cron Sample.cron_request Sample.clock
      empty_backend [Sample.ann].
Proof.
  split_and!; intros Hclaim.
  - specialize (Hclaim eq_refl eq_refl Sample.stored_queue eq_refl eq_refl
                  ltac:(simpl; lia) eq_refl).
    vm_compute in Hclaim. by destruct Hclaim.
  - specialize (Hclaim eq_refl eq_refl Sample.stored_queue eq_refl eq_refl
                  ltac:(simpl; lia) eq_refl).
    vm_compute in Hclaim. by destruct Hclaim.
  - specialize (Hclaim eq_refl eq_refl eq_refl eq_refl eq_refl eq_refl).
    vm_compute in Hclaim. by destruct Hclaim.
Qed.

(** What these invocations leave behind. *)
Example invocations_that_miss :
  let dropped := @handler Sample.runtime Sample.collector Sample.api Sample.config
                   Sample.redis_dropping_second Sample.cron Sample.cron_request
                   Sample.clock Sample.backend_with_queue in
  let negative := @handler Sample.runtime Sample.collector Sample.api Sample.config
                    Sample.redis Sample.cron_negative_chunk Sample.cron_request
                    Sample.clock Sample.backend_with_queue in
  let unconfigured := @handler Sample.runtime Sample.collector Sample.api Sample.config
                        Sample.redis_unconfigured Sample.cron Sample.cron_request
                        Sample.clock empty_backend in
  dropped.1.1 = InternalError "fetch failed" ∧
  attempted dropped.2 = [0; 1] ∧
  processedCount <$> data dropped.1.2 !! today_key Sample.clock = Some 0 ∧
  attempted negative.2 = [] ∧
  processedCount <$> data negative.1.2 !! today_key Sample.clock = Some (-1) ∧
  unconfigured = (InternalError "Redis credentials not configured", empty_backend, []).
Proof. by vm_compute. Qed.

(* ===================================================================== *)
(** * Part III.  Further properties of the code                           *)
(* ===================================================================== *)

(** ** More on the request collector *)

Lemma collected_keys rs m k : collected rs m → k ∈ m.*1 ↔ k ∈ rs.*1.
Proof.
  intros [Hnd Hget].
  destruct (Map_get m k) as [subs|] eqn:Hk.
  - split; intros _.
    + rewrite Hget in Hk.
      destruct (filter (λ r, r.1 = k) rs) as [|r rs'] eqn:Hf; [done|].
      assert (r ∈ filter (λ r, r.1 = k) rs) as Hr by (rewrite Hf; left).
      apply list_elem_of_filter in Hr as [<- Hr].
      by apply list_elem_of_fmap_2.
    + apply Map_get_elem_of in Hk.
      by apply (list_elem_of_fmap_2 fst) in Hk.
  - split; intros Hin.
    + by apply Map_get_None in Hk.
    + exfalso. rewrite Hget in Hk.
      apply list_elem_of_fmap in Hin as (r & -> & Hr).
      assert (r ∈ filter (λ r0, r0.1 = r.1) rs) as Hf
        by (by apply list_elem_of_filter).
      destruct (filter (λ r0, r0.1 = r.1) rs); [by apply elem_of_nil in Hf|done].
Qed.

Lemma Map_has_keys {V} (m : Map V) k : Map_has m k = bool_decide (k ∈ m.*1).
Proof.
  unfold Map_has. destruct (Map_get m k) eqn:Hk.
  - rewrite bool_decide_eq_true_2; [done|].
    apply Map_get_elem_of in Hk. by apply (list_elem_of_fmap_2 fst) in Hk.
  - rewrite bool_decide_eq_false_2; [done|]. by apply Map_get_None.
Qed.

Lemma add_request_keys m r :
  (add_request m r).*1 = if bool_decide (r.1 ∈ m.*1) then m.*1 else m.*1 ++ [r.1].
Proof.
  rewrite <- Map_has_keys. unfold add_request, Map_has.
  destruct (Map_get m r.1) as [subs|] eqn:Hk.
  - rewrite Hk, Map_set_keys. unfold Map_has. by rewrite Hk.
  - rewrite Map_get_set, decide_True by done.
    rewrite !Map_set_keys. unfold Map_has.
    rewrite Map_get_set, decide_True by done. by rewrite Hk.
Qed.

Lemma foldl_add_request_keys rs m :
  (foldl add_request m rs).*1
  = foldl (λ seen k, if bool_decide (k ∈ seen) then seen else seen ++ [k]) m.*1 rs.*1.
Proof.
  revert m. induction rs as [|r rs IH]; intros m; [done|].
  csimpl. by rewrite IH, add_request_keys.
Qed.

Section CollectorOrder.
Context `{StringRuntime} `{CollectorAPI}.

(** X1.  Subjects are kept in the order of their first request.  The keys
    of the ticker map are the distinct normalised subjects in the order in
    which they were first requested (tenant by tenant, page by page); and
    when no collected tier names an inherited property, so that every
    priority is a number and the comparator of the sort is consistent, the
    items of equal priority of the queue built from the map follow one
    another in that order. *)
Theorem subjects_in_first_request_order (now : Date) (users : list User) :
  (collectStockRequests users).*1 = first_occurrences (requests users).*1 ∧
  (plain_tiers (collectStockRequests users) →
   ∀ p, sublist (ticker <$> filter (λ it, priority it = p)
                              (buildPriorityQueue now (collectStockRequests users)))
                (first_occurrences (requests users).*1)).
Proof.
  assert ((collectStockRequests users).*1 = first_occurrences (requests users).*1)
    as Hkeys.
  { rewrite collectStockRequests_requests. apply foldl_add_request_keys. }
  split; [done|]. intros _ p.
  rewrite buildPriorityQueue_stable, <- Hkeys.
  apply fmap_sublist, sublist_filter.
Qed.

Lemma unavailable_fetch user : unavailable user → fetch_user user = None.
Proof.
  unfold unavailable, fetch_user.
  intros [->|[Hd|(tok & Hd & Hdb)]]; [done|..];
    destruct (falsy (user_stockAnalysesDbId user)); try done;
    rewrite Hd; simpl; [done|].
  destruct Hdb as [Hdb|[(ds & Hdb & Hds)|(ds & Hdb & Hq)]]; rewrite Hdb; simpl.
  - done.
  - by rewrite Hds.
  - case_bool_decide as Hds; [done|].
    rewrite decide_False by done. by rewrite Hq.
Qed.

(** X2.  A tenant that cannot be queried is skipped and harms nobody.
    When a tenant has no database configured, or its token cannot be
    decrypted, or its database cannot be retrieved or has no data source
    (none, or one whose id is empty), or its query is rejected, the collection is the one of the other
    tenants alone: the entries collected before it are kept and the tenants
    after it are collected as if it were not there. *)
Theorem unavailable_tenant_is_skipped (users1 : list User) (user : User)
    (users2 : list User) :
  unavailable user →
  collectStockRequests (users1 ++ user :: users2)
  = collectStockRequests (users1 ++ users2).
Proof.
  intros Hun. unfold collectStockRequests. rewrite !foldl_app. simpl.
  unfold collect_user at 2. by rewrite (unavailable_fetch user Hun).
Qed.
End CollectorOrder.

Lemma subjects_in_first_request_order_witness :
  sublist
    (ticker <$> filter (λ it, priority it = Num 3)
                  (buildPriorityQueue Sample.clock
                     (@collectStockRequests Sample.runtime Sample.collector [Sample.ann])))
    (first_occurrences (@requests Sample.runtime Sample.collector [Sample.ann]).*1).
Proof.
  apply (proj2 (@subjects_in_first_request_order Sample.runtime Sample.collector
                  Sample.clock [Sample.ann])).
  apply plain_tiers_Forall. compute_done.
Defined.

Lemma unavailable_tenant_is_skipped_witness :
  @collectStockRequests Sample.runtime Sample.collector ([] ++ Sample.newcomer :: [Sample.ann])
  = @collectStockRequests Sample.runtime Sample.collector ([] ++ [Sample.ann]).
Proof.
  apply (@unavailable_tenant_is_skipped Sample.runtime Sample.collector
           [] Sample.newcomer [Sample.ann]).
  left. reflexivity.
Defined.

Section Completeness.
Context `{StringRuntime} `{CollectorAPI}.

(** X3.  Every page with a ticker is collected, under its normalised
    key.  A page of a tenant that could be queried, with properties and a
    ticker text that is not empty, puts its subscriber into the entry of
    the key [trim(toUpperCase(text))], whatever that key is: the emptiness
    test looks at the text as written, so a text of blanks only is
    collected under the empty key. *)
Theorem every_ticker_page_is_collected (users : list User) (user : User)
    (userAccessToken : string) (pages : list Page) (page : Page) (text : string) :
  user ∈ users → fetch_user user = Some (userAccessToken, pages) → page ∈ pages →
  page_has_properties page = true → page_ticker_content page = Some text →
  text ≠ "" →
  ∃ subs,
    Map_get (collectStockRequests users) (trim (toUpperCase text)) = Some subs ∧
    new_subscriber user userAccessToken page ∈ subs.
Proof.
  intros Huser Hfetch Hpage Hprops Htext Hne.
  set (k := trim (toUpperCase text)).
  set (sub := new_subscriber user userAccessToken page).
  assert ((k, sub) ∈ requests users) as Hreq.
  { unfold requests. apply list_elem_of_bind. exists user. split; [|done].
    unfold user_requests. rewrite Hfetch. apply list_elem_of_bind. exists page.
    split; [|done]. unfold page_request. rewrite Hprops, Htext.
    unfold or_else. rewrite !(decide_False (P := text = "")) by done. left. }
  destruct (collectStockRequests_collected users) as [_ Hget].
  rewrite Hget.
  assert (sub ∈ (filter (λ r : string * Subscriber, r.1 = k) (requests users)).*2) as Hin.
  { apply list_elem_of_fmap. exists (k, sub). split; [done|].
    by apply list_elem_of_filter. }
  destruct ((filter (λ r : string * Subscriber, r.1 = k) (requests users)).*2)
    as [|s l]; [by apply elem_of_nil in Hin|].
  by eexists.
Qed.
End Completeness.

Lemma every_ticker_page_is_collected_witness :
  ∃ subs,
    Map_get (@collectStockRequests Sample.runtime Sample.collector_blank [Sample.ann])
      "" = Some subs ∧
    @new_subscriber Sample.ann "opened-sealed" Sample.blank_page ∈ subs.
Proof.
  apply (@every_ticker_page_is_collected Sample.runtime Sample.collector_blank
           [Sample.ann] Sample.ann "opened-sealed" [Sample.blank_page]
           Sample.blank_page "  ").
  - left.
  - reflexivity.
  - left.
  - reflexivity.
  - reflexivity.
  - done.
Defined.

(** ** What a chunk does and reports *)

Lemma filter_fulfilled_length {A} (l : list (Result A)) :
  Z.of_nat (length (filter (λ r, fulfilled r) l))
  + Z.of_nat (length (filter (λ r, ¬ fulfilled r) l)) = Z.of_nat (length l).
Proof.
  induction l as [|r l IH]; [done|].
  rewrite !filter_cons.
  destruct r; simpl fulfilled; repeat case_decide; simpl in *; tauto || lia.
Qed.

Section Metrics.
Context `{EngineAPI} `{EngineConfig} {I : Type} `{QueueItemLike I}.
Context (now : Date).

(** What one turn of the loop does to the counters. *)
Lemma process_item_metrics marketContext i endIndex item metrics :
  ∃ metrics',
    (process_item now marketContext i endIndex item metrics).2 = Ok metrics' ∧
    totalTickers metrics' = totalTickers metrics ∧
    totalSubscribers metrics' = totalSubscribers metrics ∧
    skipped metrics' = skipped metrics ∧
    analyzed metrics' + failed metrics' = analyzed metrics + failed metrics + 1 ∧
    analyzed metrics ≤ analyzed metrics' ∧
    failed metrics ≤ failed metrics' ∧
    successfulBroadcasts metrics ≤ successfulBroadcasts metrics' ∧
    failedBroadcasts metrics ≤ failedBroadcasts metrics' ∧
    totalBroadcasts metrics' - totalBroadcasts metrics
      = (successfulBroadcasts metrics' - successfulBroadcasts metrics)
        + (failedBroadcasts metrics' - failedBroadcasts metrics) ∧
    totalBroadcasts metrics' - totalBroadcasts metrics
      ≤ Z.of_nat (length (item_subscribers item)) ∧
    (DRY_RUN = true →
       failed metrics' = failed metrics ∧
       totalBroadcasts metrics' = totalBroadcasts metrics) ∧
    (DRY_RUN = false →
       apiCallsSaved metrics' - apiCallsSaved metrics
       = 17 * ((totalBroadcasts metrics' - totalBroadcasts metrics)
               - (analyzed metrics' - analyzed metrics))).
Proof.
  destruct DRY_RUN eqn:Hdry.
  { unfold process_item. rewrite Hdry. simpl. eexists. split; [done|]. simpl.
    split_and!; try done; lia. }
  destruct (analyzeWithRetry_returns item) as [r Hr].
  destruct (analyzeWithRetry item 3) as [es_a r'] eqn:Hrun. simpl in Hr. subst r'.
  unfold process_item. rewrite Hdry.
  rewrite !setAnalyzingStatus_eq, Hrun. cbn [bind emit fst snd].
  destruct (success r) eqn:Hs; simpl negb; cbv iota.
  - destruct (validateAnalysisComplete r) eqn:Hv; simpl negb; cbv iota.
    + rewrite broadcastToSubscribers_eq. cbn [bind fst snd].
      set (outcomes := (λ s, (broadcastToUser now s r).2) <$> item_subscribers item).
      pose proof (filter_fulfilled_length outcomes) as Hsum.
      assert (length outcomes = length (item_subscribers item)) as Hlen
        by (unfold outcomes; by rewrite length_fmap).
      destruct (0 <? Z.of_nat (length (filter (λ o, fulfilled o) outcomes)));
        rewrite ?allSettled_eq; cbn [bind ret fst snd];
        destruct (negb (bool_decide (i = endIndex - 1)) && (0 <? ANALYSIS_DELAY_MS));
        cbn [bind ret emit fst snd]; eexists; (split; [reflexivity|]); simpl;
        split_and!; try done; lia.
    + destruct (broadcastError_eq now (item_subscribers item)
                  "Analysis incomplete - missing required fields" (item_ticker item))
        as [context ->].
      cbn [bind ret fst snd]. eexists. split; [reflexivity|]. simpl.
      split_and!; try done; lia.
  - destruct (broadcastError_eq now (item_subscribers item)
                (or_else (error r) "Analysis failed") (item_ticker item))
      as [context ->].
    cbn [bind ret fst snd]. eexists. split; [reflexivity|]. simpl.
    split_and!; try done; lia.
Qed.
End Metrics.

Lemma omap_bind_nil {A B C} (f : B → option C) (g : A → list B) (l : list A) :
  (∀ x, x ∈ l → omap f (g x) = []) → omap f (l ≫= g) = [].
Proof.
  induction l as [|x l IH]; intros Hg; csimpl; [done|].
  rewrite omap_app, Hg, IH; [done| |left]. intros y Hy. apply Hg. by right.
Qed.

Lemma bind_length_app {A B} (f : A → list B) (l1 l2 : list A) :
  length ((l1 ++ l2) ≫= f) = (length (l1 ≫= f) + length (l2 ≫= f))%nat.
Proof. by rewrite bind_app, length_app. Qed.

Lemma totalSubscribers_sum {I} `{QueueItemLike I} (queue : list I) (z : Z) :
  foldl (λ sum item, sum + Z.of_nat (length (item_subscribers item))) z queue
  = z + Z.of_nat (length (queue ≫= item_subscribers)).
Proof.
  revert z. induction queue as [|item queue IH]; intros z; csimpl; [lia|].
  rewrite IH, length_app. lia.
Qed.

Section ChunkMetrics.
Context `{EngineAPI} `{EngineConfig} {I : Type} `{QueueItemLike I}.
Context (now : Date).

Lemma process_from_metrics (queue : list I) marketContext endIndex n i metrics :
  0 ≤ i → i + Z.of_nat n ≤ Z.of_nat (length queue) →
  ∃ metrics',
    (process_from now queue marketContext endIndex n i metrics).2 = Ok metrics' ∧
    totalTickers metrics' = totalTickers metrics ∧
    totalSubscribers metrics' = totalSubscribers metrics ∧
    skipped metrics' = skipped metrics ∧
    analyzed metrics' + failed metrics' = analyzed metrics + failed metrics + Z.of_nat n ∧
    analyzed metrics ≤ analyzed metrics' ∧
    failed metrics ≤ failed metrics' ∧
    successfulBroadcasts metrics ≤ successfulBroadcasts metrics' ∧
    failedBroadcasts metrics ≤ failedBroadcasts metrics' ∧
    totalBroadcasts metrics' - totalBroadcasts metrics
      = (successfulBroadcasts metrics' - successfulBroadcasts metrics)
        + (failedBroadcasts metrics' - failedBroadcasts metrics) ∧
    totalBroadcasts metrics' - totalBroadcasts metrics
      ≤ Z.of_nat (length (take n (drop (Z.to_nat i) queue) ≫= item_subscribers)) ∧
    (DRY_RUN = true →
       failed metrics' = failed metrics ∧
       totalBroadcasts metrics' = totalBroadcasts metrics) ∧
    (DRY_RUN = false →
       apiCallsSaved metrics' - apiCallsSaved metrics
       = 17 * ((totalBroadcasts metrics' - totalBroadcasts metrics)
               - (analyzed metrics' - analyzed metrics))).
Proof.
  revert i metrics. induction n as [|n IH]; intros i metrics Hi Hlen.
  { simpl. eexists. split; [done|]. split_and!; try done; lia. }
  simpl process_from. unfold at_index.
  rewrite (proj2 (Z.ltb_ge _ _)) by done.
  destruct (lookup_lt_is_Some_2 queue (Z.to_nat i)) as [item Hitem]; [lia|].
  rewrite Hitem.
  destruct (process_item_metrics now marketContext i endIndex item metrics)
    as (metrics1 & Hok & ?&?&?&?&?&?&?&?&?&?& Hdry1 & Hwet1).
  destruct (process_item now marketContext i endIndex item metrics) as [es r].
  simpl in Hok. subst r. cbn [bind].
  destruct (IH (i + 1) metrics1)
    as (metrics2 & Hok' & ?&?&?&?&?&?&?&?&?& Hsubs & Hdry2 & Hwet2); [lia..|].
  destruct (process_from now queue marketContext endIndex n (i + 1) metrics1)
    as [es' r']. simpl in Hok'. subst r'.
  exists metrics2. split; [done|].
  rewrite (drop_S _ _ _ Hitem). csimpl. rewrite length_app.
  replace (Z.to_nat (i + 1)) with (S (Z.to_nat i)) in Hsubs by lia.
  split_and!; try lia.
  - intros Hdry. destruct (Hdry1 Hdry), (Hdry2 Hdry). lia.
  - intros Hwet. specialize (Hwet1 Hwet). specialize (Hwet2 Hwet). lia.
Qed.

End ChunkMetrics.

Section ChunkReport.
Context `{EngineAPI} `{EngineConfig} {I : Type} `{QueueItemLike I}.
Context (now : Date).

(** X4.  The metrics of a chunk add up.  For every queue, every chunk
    that starts at a non-negative index, and every behaviour of the
    collaborators, [processQueue] returns metrics in which the totals
    describe the whole queue, every subject the loop went through is counted
    exactly once, as analyzed or as failed, nothing is ever counted as
    skipped, every broadcast is counted exactly once, as successful or as
    failed, there are no more broadcasts than subscribers, and outside
    dry-run mode the calls saved are 17 for every broadcast beyond the
    first of each analysed subject. *)
Theorem chunk_metrics_add_up (queue : list I) (marketContext : option MarketContext)
    (startIndex maxItems : Z) :
  0 ≤ startIndex →
  let run := processQueue now queue marketContext startIndex maxItems in
  ∃ metrics,
    run.2 = Ok metrics ∧
    totalTickers metrics = Z.of_nat (length queue) ∧
    totalSubscribers metrics = Z.of_nat (length (queue ≫= item_subscribers)) ∧
    analyzed metrics + failed metrics = Z.of_nat (length (attempted run.1)) ∧
    0 ≤ analyzed metrics ∧ 0 ≤ failed metrics ∧
    skipped metrics = 0 ∧
    successfulBroadcasts metrics + failedBroadcasts metrics = totalBroadcasts metrics ∧
    0 ≤ successfulBroadcasts metrics ∧ 0 ≤ failedBroadcasts metrics ∧
    totalBroadcasts metrics ≤ totalSubscribers metrics ∧
    (DRY_RUN = false →
     apiCallsSaved metrics = 17 * (totalBroadcasts metrics - analyzed metrics)).
Proof.
  intros Hstart run.
  destruct (processQueue_attempted now queue marketContext startIndex maxItems Hstart)
    as [Hatt _].
  fold run in Hatt. rewrite Hatt, length_seqZ. subst run. clear Hatt.
  unfold processQueue.
  set (endIndex := Z.min (startIndex + maxItems) (Z.of_nat (length queue))).
  match goal with |- context [process_from _ _ _ _ _ _ ?m] => set (metrics := m) end.
  assert (totalSubscribers metrics = Z.of_nat (length (queue ≫= item_subscribers))) as Htot.
  { subst metrics. simpl. rewrite totalSubscribers_sum. lia. }
  destruct (decide (endIndex - startIndex ≤ 0)) as [Hnone|Hsome].
  { rewrite (Z2Nat.nonpos _ Hnone). simpl. exists metrics. split; [done|].
    rewrite Htot. subst metrics. simpl. split_and!; lia. }
  destruct (process_from_metrics now queue marketContext endIndex
              (Z.to_nat (endIndex - startIndex)) startIndex metrics)
    as (metrics' & Hok & Ht & Hs & Hsk & Hsum & Ha & Hf & Hsb & Hfb & Hb & Hle & _
        & Hsaved);
    [lia|lia|].
  exists metrics'. split; [done|].
  assert (length (take (Z.to_nat (endIndex - startIndex))
                     (drop (Z.to_nat startIndex) queue) ≫= item_subscribers)
          ≤ length (queue ≫= item_subscribers))%nat as Hchunk.
  { rewrite <- (take_drop (Z.to_nat startIndex) queue) at 2.
    rewrite <- (take_drop (Z.to_nat (endIndex - startIndex))
                  (drop (Z.to_nat startIndex) queue)) at 2.
    rewrite !bind_length_app. lia. }
  subst metrics. simpl in *.
  split_and!; try lia.
  intros Hwet. specialize (Hsaved Hwet). lia.
Qed.
End ChunkReport.

Lemma chunk_metrics_add_up_witness :
  let run := @processQueue Sample.api Sample.config QueueItem _ Sample.clock
               Sample.fail_then_ok None 0 2 in
  ∃ metrics,
    run.2 = Ok metrics ∧
    totalTickers metrics = Z.of_nat (length Sample.fail_then_ok) ∧
    totalSubscribers metrics
      = Z.of_nat (length (Sample.fail_then_ok ≫= item_subscribers)) ∧
    analyzed metrics + failed metrics = Z.of_nat (length (attempted run.1)) ∧
    0 ≤ analyzed metrics ∧ 0 ≤ failed metrics ∧
    skipped metrics = 0 ∧
    successfulBroadcasts metrics + failedBroadcasts metrics = totalBroadcasts metrics ∧
    0 ≤ successfulBroadcasts metrics ∧ 0 ≤ failedBroadcasts metrics ∧
    totalBroadcasts metrics ≤ totalSubscribers metrics ∧
    (@DRY_RUN Sample.config = false →
     apiCallsSaved metrics = 17 * (totalBroadcasts metrics - analyzed metrics)).
Proof.
  apply (@chunk_metrics_add_up Sample.api Sample.config _ _ Sample.clock
           Sample.fail_then_ok None 0 2).
  lia.
Defined.

Section DryRun.
Context `{EngineAPI} `{EngineConfig} {I : Type} `{QueueItemLike I}.
Context (now : Date).

Lemma process_from_dry_run (queue : list I) marketContext endIndex n i metrics w :
  DRY_RUN = true → 0 ≤ i → i + Z.of_nat n ≤ Z.of_nat (length queue) →
  let run := process_from now queue marketContext endIndex n i metrics in
  Forall is_log run.1 ∧ replay w run.1 = w ∧ length run.1 = n.
Proof.
  intros Hdry. revert i metrics. induction n as [|n IH]; intros i metrics Hi Hlen.
  { simpl. split_and!; [constructor|done..]. }
  simpl process_from. unfold at_index.
  rewrite (proj2 (Z.ltb_ge _ _)) by done.
  destruct (lookup_lt_is_Some_2 queue (Z.to_nat i)) as [item Hitem]; [lia|].
  rewrite Hitem. unfold process_item. rewrite Hdry. cbn [bind emit ret fst snd].
  match goal with |- context [process_from _ _ _ _ _ _ ?m] => set (metrics1 := m) end.
  destruct (IH (i + 1) metrics1) as (Hlog & Hw & Hn); [lia..|].
  destruct (process_from now queue marketContext endIndex n (i + 1) metrics1)
    as [es r]. simpl in *.
  split_and!; [by constructor|done|by rewrite Hn].
Qed.

(** X5.  A dry run touches nothing.  With [ORCHESTRATOR_DRY_RUN] set, a
    chunk that starts at an index that is not negative makes no call at all (no analysis, no page update, no sync, no
    archive write, no pause): its trace holds the console lines of the
    subjects and nothing else, the outside world is as it was, every
    subject is counted as analyzed, none as failed and no broadcast is
    counted. *)
Theorem dry_run_touches_nothing (queue : list I) (marketContext : option MarketContext)
    (startIndex maxItems : Z) (w : World) :
  DRY_RUN = true → 0 ≤ startIndex →
  let run := processQueue now queue marketContext startIndex maxItems in
  Forall is_log run.1 ∧
  replay w run.1 = w ∧
  ∃ metrics,
    run.2 = Ok metrics ∧
    analyzed metrics = Z.of_nat (length run.1) ∧
    failed metrics = 0 ∧
    totalBroadcasts metrics = 0.
Proof.
  intros Hdry Hstart run. subst run. unfold processQueue.
  set (endIndex := Z.min (startIndex + maxItems) (Z.of_nat (length queue))).
  match goal with |- context [process_from _ _ _ _ _ _ ?m] => set (metrics := m) end.
  destruct (decide (endIndex - startIndex ≤ 0)) as [Hnone|Hsome].
  { rewrite (Z2Nat.nonpos _ Hnone). simpl.
    split_and!; [constructor|done|]. by exists metrics. }
  destruct (process_from_dry_run queue marketContext endIndex
              (Z.to_nat (endIndex - startIndex)) startIndex metrics w Hdry)
    as (Hlog & Hw & Hn); [lia..|].
  destruct (process_from_metrics now queue marketContext endIndex
              (Z.to_nat (endIndex - startIndex)) startIndex metrics)
    as (metrics' & Hok & _ & _ & _ & Hsum & _ & _ & _ & _ & _ & _ & Hdry' & _);
    [lia..|].
  destruct (Hdry' Hdry) as [Hf Hb].
  split_and!; [done..|]. exists metrics'. rewrite Hn.
  subst metrics. simpl in *. split_and!; [done|lia..].
Qed.
End DryRun.

Lemma dry_run_touches_nothing_witness :
  let run := @processQueue Sample.api Sample.rehearsal _ _ Sample.clock
               Sample.fail_then_ok None 0 2 in
  Forall is_log run.1 ∧
  replay empty_world run.1 = empty_world ∧
  ∃ metrics,
    run.2 = Ok metrics ∧
    analyzed metrics = Z.of_nat (length run.1) ∧
    failed metrics = 0 ∧
    totalBroadcasts metrics = 0.
Proof.
  apply (@dry_run_touches_nothing Sample.api Sample.rehearsal _ _ Sample.clock
           Sample.fail_then_ok None 0 2 empty_world); [reflexivity|lia].
Defined.

Section ChunkBounds.
Context `{EngineAPI} `{EngineConfig} {I : Type} `{QueueItemLike I}.
Context (now : Date).

(** X6.  The bounds of a chunk.  A chunk that starts at or after the end of
    the queue, or that may take no item, does nothing at all and returns
    metrics with nothing analyzed and nothing failed; a chunk that is to
    start at a negative index and may take an item rejects with the
    TypeError of reading the missing item, before any call is made. *)
Theorem chunk_bounds (queue : list I) (marketContext : option MarketContext)
    (startIndex maxItems : Z) :
  let run := processQueue now queue marketContext startIndex maxItems in
  (Z.of_nat (length queue) ≤ startIndex ∨ maxItems ≤ 0 →
   run.1 = [] ∧
   ∃ metrics, run.2 = Ok metrics ∧ analyzed metrics = 0 ∧ failed metrics = 0 ∧
              totalTickers metrics = Z.of_nat (length queue)) ∧
  (startIndex < 0 → 0 < maxItems →
   run = ([], Throw "Cannot read properties of undefined (reading 'ticker')")).
Proof.
  intros run. subst run. unfold processQueue.
  set (endIndex := Z.min (startIndex + maxItems) (Z.of_nat (length queue))).
  split.
  - intros Hout. rewrite Z2Nat.nonpos by lia. simpl.
    split; [done|]. by eexists.
  - intros Hneg Hpos.
    destruct (Z.to_nat (endIndex - startIndex)) as [|n] eqn:Hn; [lia|].
    simpl. unfold at_index. by rewrite (proj2 (Z.ltb_lt _ _)) by done.
Qed.
End ChunkBounds.

Section Slice.
Context `{EngineAPI} `{EngineConfig} {I : Type} `{QueueItemLike I}.
Context (now : Date).

(** X7.  A chunk takes its slice of the queue.  For every queue and
    every chunk that starts at a non-negative index, [processQueue] goes
    through the subjects [queue[startIndex .. startIndex + maxItems)], cut
    at the end of the queue, in queue order, each once; so consecutive
    chunks go through consecutive slices, and no subject is skipped or taken
    twice. *)
Theorem chunk_takes_its_slice (queue : list I) (marketContext : option MarketContext)
    (startIndex maxItems : Z) :
  0 ≤ startIndex →
  processed (processQueue now queue marketContext startIndex maxItems).1
  = item_ticker <$> take (Z.to_nat maxItems) (drop (Z.to_nat startIndex) queue).
Proof.
  intros Hstart. unfold processQueue.
  set (endIndex := Z.min (startIndex + maxItems) (Z.of_nat (length queue))).
  destruct (decide (endIndex - startIndex ≤ 0)) as [Hnone|Hsome].
  - rewrite (Z2Nat.nonpos _ Hnone). simpl.
    destruct (decide (maxItems ≤ 0)) as [Hmax|Hmax].
    + by rewrite (Z2Nat.nonpos _ Hmax).
    + rewrite drop_ge by lia. by rewrite take_nil.
  - match goal with |- context [process_from _ _ _ _ _ _ ?m] => set (metrics := m) end.
    destruct (process_from_subjects now queue marketContext endIndex
                (Z.to_nat (endIndex - startIndex)) startIndex metrics)
      as [Hp _]; [lia..|].
    rewrite Hp. f_equal.
    destruct (decide (startIndex + maxItems ≤ Z.of_nat (length queue))) as [Hin|Hout].
    + f_equal. lia.
    + rewrite !take_ge; [done|rewrite length_drop; lia..].
Qed.
End Slice.

Lemma chunk_takes_its_slice_witness :
  processed (@processQueue Sample.api Sample.config QueueItem _ Sample.clock
               Sample.fail_then_ok None 1 8).1
  = ["AAPL"].
Proof.
  exact (@chunk_takes_its_slice Sample.api Sample.config QueueItem _ Sample.clock
           Sample.fail_then_ok None 1 8 ltac:(lia)).
Defined.

(** ** A whole run of the orchestrator *)

Section Run.
Context `{StringRuntime} `{CollectorAPI} `{EngineAPI} `{EngineConfig} `{MarketEnv}.
Context (now : Date).

Lemma collectStockRequests_nil users :
  collectStockRequests users = [] ↔ requests users = [].
Proof.
  pose proof (collectStockRequests_collected users) as Hc.
  split; intros Hnil.
  - destruct (requests users) as [|r rs] eqn:Hr; [done|]. exfalso.
    assert (r.1 ∈ (collectStockRequests users).*1) as Hin.
    { apply (collected_keys _ _ _ Hc). csimpl. left. }
    rewrite Hnil in Hin. by apply elem_of_nil in Hin.
  - by rewrite collectStockRequests_requests, Hnil.
Qed.

(** X10.  Every requested subject is analysed once per run.  Outside
    dry-run mode, a run over the whole queue (the default chunk) goes
    through the subjects of the queue in queue order and starts the analysis
    of each of them exactly once, however many tenants and pages requested
    it: the subjects whose analysis was started are the distinct normalised
    keys that were requested, each once. *)
Theorem every_subject_is_analysed_once (users : list User)
    (marketContextOverride : option (option MarketContext)) :
  DRY_RUN = false →
  Z.of_nat (length (collectStockRequests users)) ≤ MAX_SAFE_INTEGER →
  let run := runOrchestrator now users marketContextOverride 0 MAX_SAFE_INTEGER in
  let queue := buildPriorityQueue now (collectStockRequests users) in
  processed run.1 = ticker <$> queue ∧
  first_attempts run.1 = ticker <$> queue ∧
  NoDup (first_attempts run.1) ∧
  (∀ k, k ∈ first_attempts run.1 ↔ k ∈ (requests users).*1).
Proof.
  intros Hdry Hmax run queue.
  assert (length queue = length (collectStockRequests users)) as Hlen.
  { unfold queue, buildPriorityQueue.
    by rewrite (Permutation_length (Array_sort_Permutation _ _)), length_fmap. }
  assert (processed run.1 = ticker <$> queue ∧ first_attempts run.1 = ticker <$> queue)
    as [Hp Hf].
  { subst run. unfold runOrchestrator. case_bool_decide as Hnil.
    - apply nil_length_inv in Hnil. subst queue. by rewrite Hnil.
    - fold queue. unfold processQueue.
      rewrite Z.min_r by lia.
      match goal with |- context [process_from _ _ ?c _ _ _ ?m] =>
        destruct (process_from_subjects now queue c (Z.of_nat (length queue))
                    (Z.to_nat (Z.of_nat (length queue) - 0)) 0 m) as [Hp Hf]
      end; [lia..|].
      rewrite Z.sub_0_r, Nat2Z.id in *. simpl drop in *.
      rewrite firstn_all in *. split; [done|].
      apply Hf; [done|]. apply built_queue_has_subscribers. }
  split_and!; [done..| |].
  - rewrite Hf. unfold queue. rewrite buildPriorityQueue_tickers.
    apply collectStockRequests_collected.
  - intros k. rewrite Hf. unfold queue. rewrite buildPriorityQueue_tickers.
    apply collected_keys, collectStockRequests_collected.
Qed.
End Run.

Lemma every_subject_is_analysed_once_witness :
  let run := @runOrchestrator Sample.runtime Sample.collector Sample.api Sample.config
               Sample.market Sample.clock [Sample.ann] None 0 MAX_SAFE_INTEGER in
  let queue := @buildPriorityQueue Sample.clock
                 (@collectStockRequests Sample.runtime Sample.collector [Sample.ann]) in
  processed run.1 = ticker <$> queue ∧
  first_attempts run.1 = ticker <$> queue ∧
  NoDup (first_attempts run.1) ∧
  (∀ k, k ∈ first_attempts run.1
        ↔ k ∈ (@requests Sample.runtime Sample.collector [Sample.ann]).*1).
Proof.
  apply (@every_subject_is_analysed_once Sample.runtime Sample.collector Sample.api
           Sample.config Sample.market Sample.clock [Sample.ann] None);
    [reflexivity|by vm_compute].
Defined.

(** ** One subject: analysis, error report, delivery, archive *)

Lemma retry_delay_within_a_minute error attempt :
  (attempt < 3)%nat → within_a_minute (retry_delay error attempt).
Proof.
  intros Hlt. unfold retry_delay, within_a_minute.
  assert (∃ ms, match backoffDelays !! attempt with
                | Some ms => Num ms | None => NaN end = Num ms ∧ 1000 ≤ ms ≤ 60000)
    as Hscheduled.
  { destruct attempt as [|[|[|?]]]; [| | |lia]; simpl; eexists; (split; [done|lia]). }
  destruct (extractRetryAfter error) as [n|] eqn:Hn; [|done].
  destruct (extractRetryAfter_range _ _ Hn) as [->|(z & -> & Hz)]; [done|].
  simpl. destruct (z =? 0) eqn:Hz0; simpl; [done|].
  apply Z.eqb_neq in Hz0. eexists. split; [done|lia].
Qed.

Section AnalysisStep.
Context `{EngineAPI} {I : Type} `{QueueItemLike I}.

Lemma analyzeWithRetry_from_pauses item maxRetries fuel attempt :
  (attempt + fuel ≤ 3)%nat → (maxRetries ≤ attempt + fuel)%nat →
  Forall within_a_minute (delays (analyzeWithRetry_from item maxRetries fuel attempt).1) ∧
  (length (delays (analyzeWithRetry_from item maxRetries fuel attempt).1) ≤ fuel - 1)%nat.
Proof.
  revert attempt. induction fuel as [|fuel IH]; intros attempt Hle Hmax; simpl.
  { split; [constructor|done]. }
  destruct (item_subscribers item) as [|first rest]; simpl.
  { split; [constructor|lia]. }
  destruct (analyzeStockCore _ _ _) as [result|message]; simpl;
    [|split; [constructor|lia]].
  destruct (success result || negb (isGeminiRateLimitError (error result)));
    simpl; [split; [constructor|lia]|].
  destruct (attempt <? maxRetries - 1)%nat eqn:Hlt; simpl; [|split; [constructor|lia]].
  apply Nat.ltb_lt in Hlt.
  destruct (IH (S attempt)) as [Hall Hlen]; [lia..|].
  destruct (analyzeWithRetry_from item maxRetries fuel (S attempt)) as [es r] eqn:Hrest.
  simpl in *. split.
  - constructor; [|done]. apply retry_delay_within_a_minute. lia.
  - lia.
Qed.

(** X11.  The pauses of the analysis step are bounded.  Whatever the
    analysis answers and whatever delay its error text suggests,
    [analyzeWithRetry] pauses at most twice for a subject, each time for at
    least one second and at most one minute. *)
Theorem analysis_pauses_are_bounded (item : I) :
  let run := analyzeWithRetry item 3 in
  Forall within_a_minute (delays run.1) ∧ (length (delays run.1) ≤ 2)%nat.
Proof.
  intros run. subst run. unfold analyzeWithRetry.
  destruct (analyzeWithRetry_from_pauses item 3 3 0) as [Hall Hlen]; [lia..|].
  split; [done|lia].
Qed.

Lemma analyzeWithRetry_from_exception item maxRetries fuel attempt es1 es2 t :
  (analyzeWithRetry_from item maxRetries fuel attempt).1 = es1 ++ ReportBug t :: es2 →
  es2 = [] ∧ t = item_ticker item ∧
  ∃ message,
    (analyzeWithRetry_from item maxRetries fuel attempt).2
    = Ok (exception_result item message).
Proof.
  revert attempt es1. induction fuel as [|fuel IH]; intros attempt es1; simpl.
  { by destruct es1. }
  destruct (item_subscribers item) as [|first rest]; simpl.
  { destruct es1 as [|e [|e' es1]]; try done. intros [= <- <-]. split_and!; [done..|].
    by eexists. }
  destruct (analyzeStockCore _ _ _) as [result|message]; simpl.
  - destruct (success result || negb (isGeminiRateLimitError (error result))); simpl.
    { by destruct es1 as [|e [|e' es1]]. }
    destruct (attempt <? maxRetries - 1)%nat; simpl.
    + specialize (IH (S attempt)).
      destruct (analyzeWithRetry_from item maxRetries fuel (S attempt)) as [es r].
      simpl in *. destruct es1 as [|e [|e' es1]]; try done.
      intros [= _ _ Hes]. by apply (IH es1).
    + by destruct es1 as [|e [|e' es1]].
  - destruct es1 as [|e [|e' [|e'' es1]]]; try done.
    intros [= _ <- <-]. split_and!; [done..|]. by eexists.
Qed.

(** X12.  An exception of the analysis is final.  When [analyzeStockCore]
    throws, or the item has no subscriber to take credentials from,
    [analyzeWithRetry] files one bug report and returns at once a failed
    result that carries the subject and the exception's message: nothing
    follows a bug report in its trace, so an exception is never retried,
    not even one whose message reads like a transient overload.  An item
    without subscribers is failed in this way without any analysis call. *)
Theorem analysis_exception_is_final (item : I) :
  let run := analyzeWithRetry item 3 in
  (∀ es1 es2 t, run.1 = es1 ++ ReportBug t :: es2 →
     es2 = [] ∧ t = item_ticker item ∧
     ∃ message, run.2 = Ok {| success := false; result_ticker := item_ticker item;
                              error := Some message |}) ∧
  (∀ first rest message,
     item_subscribers item = first :: rest →
     analyzeStockCore (item_ticker item) first 0 = Throw message →
     run = ([Analyze (item_ticker item) 0; ReportBug (item_ticker item)],
            Ok {| success := false; result_ticker := item_ticker item;
                  error := Some message |})) ∧
  (item_subscribers item = [] →
   ∃ message,
     run = ([ReportBug (item_ticker item)],
            Ok {| success := false; result_ticker := item_ticker item;
                  error := Some message |})).
Proof.
  intros run. subst run. split_and!.
  - intros es1 es2 t Hes. by apply (analyzeWithRetry_from_exception item 3 3 0 es1).
  - intros first rest message Hsubs Hthrow. unfold analyzeWithRetry. simpl.
    by rewrite Hsubs, Hthrow.
  - intros Hsubs. unfold analyzeWithRetry. simpl. rewrite Hsubs. by eexists.
Qed.
End AnalysisStep.

Lemma substring_0_length n s : String.length (String.substring 0 n s) = Nat.min n (String.length s).
Proof.
  revert n. induction s as [|c s IH]; intros [|n]; simpl; try done. by rewrite IH.
Qed.

Lemma substring_0_prefix n s : String.prefix (String.substring 0 n s) s = true.
Proof.
  revert n. induction s as [|c s IH]; intros [|n]; simpl; try done.
  rewrite IH. by destruct (Ascii.ascii_dec c c).
Qed.

Section ErrorState.
Context `{EngineAPI}.

(** X13.  Recording an error never fails and always tells the admin.
    [setAnalysisError] resolves whatever the page update does; it attempts
    one update of the subscriber's page, to status Error, with notes that
    are the formatted error cut to at most 2000 characters (the whole text
    when it is that short); and it sends exactly one admin notification:
    the error itself when the page was updated, and otherwise a notification
    of type unknown that the error state could not be set. *)
Theorem error_state_never_throws (s : Subscriber) (errorMessage : string)
    (context : ErrorContext) :
  let run := setAnalysisError s errorMessage context in
  let text := formattedError errorMessage context in
  run.2 = Ok tt ∧
  (∃ notes,
     (∀ p, status_attempts p run.1 = if decide (pageId s = p) then [Error] else []) ∧
     PageUpdate (pageId s) Error (Some notes) (pages_update s Error) ∈ run.1 ∧
     (String.length notes ≤ 2000)%nat ∧
     String.prefix notes text = true ∧
     ((String.length text ≤ 2000)%nat → notes = text)) ∧
  (∃ notification,
     notifications run.1 = [notification] ∧
     if pages_update s Error
     then notification = (ctx_ticker context, ctx_errorType context, errorMessage)
     else ∃ reason,
            notification = (ctx_ticker context, unknown,
                            "Failed to set error state: " +:+ reason)).
Proof.
  intros run text. subst run. rewrite setAnalysisError_eq. fold text.
  clearbody text. cbn [fst snd]. split; [done|]. split.
  - exists (String.substring 0 2000 text). split_and!.
    + intros p. unfold status_attempts. csimpl.
      case_decide; by destruct (pages_update s Error).
    + left.
    + rewrite substring_0_length. lia.
    + apply substring_0_prefix.
    + apply substring_0_all.
  - unfold notifications. csimpl.
    destruct (pages_update s Error); eexists; (split; [reflexivity|]); [done|].
    by eexists.
Qed.
End ErrorState.

Section DeliveryPolicy.
Context `{EngineAPI} `{EngineConfig} {I : Type} `{QueueItemLike I}.
Context (now : Date).

(** X14.  The retry policy of a delivery.  [broadcastToUser] writes the
    primary record at most twice: the second attempt is made only when the
    first one threw or created no page, after a pause of 5 seconds.  The
    delivery is fulfilled exactly when one of the attempts went through,
    whatever becomes of the status update; the only status it then tries to
    set on the subscriber's page is Complete, sending no admin notification.
    When both attempts fail it tries to set Error instead, sends one admin
    notification and rejects with "Broadcast failed after 2 attempts".  It
    touches no other page. *)
Theorem delivery_retry_policy (s : Subscriber) (r : AnalysisResult) :
  let t := result_ticker r in
  let run := broadcastToUser now s r in
  syncs_and_delays run.1
    = Sync (pageId s) 0 ::
        (if sync_ok s t 0 then [] else [Delay (Num 5000); Sync (pageId s) 1]) ∧
  (∀ p, status_attempts p run.1
        = if decide (pageId s = p)
          then [if delivers s t then Complete else Error] else []) ∧
  length (notifications run.1) = (if delivers s t then 0 else 1)%nat ∧
  (if delivers s t then run.2 = Ok tt
   else ∃ message, run.2 = Throw ("Broadcast failed after 2 attempts: " +:+ message)).
Proof.
  intros t run. subst t run.
  unfold delivers, sync_ok, broadcastToUser. simpl.
  destruct (syncToNotion s (result_ticker r) 0) as [id0|m0];
    [destruct (falsy id0)|]; simpl;
    try (destruct (syncToNotion s (result_ticker r) 1) as [id1|m1];
         [destruct (falsy id1)|]; simpl).
  all: rewrite ?setAnalysisError_eq; unfold update_page; simpl.
  all: try destruct (pages_update s Complete); simpl.
  all: try destruct (pages_update s Error); simpl.
  all: split_and!; try done; try (intros p; by case_decide); by eexists.
Qed.
End DeliveryPolicy.

Section PageLife.
Context `{EngineAPI} `{EngineConfig} {I : Type} `{QueueItemLike I}.
Context (now : Date).

(** X15.  No page is left in Analyzing.  Outside dry-run mode, when the
    subscribers of a subject have distinct pages and the status updates of
    their pages go through, one turn of the loop writes to every
    subscriber's page first Analyzing and then exactly one final status:
    Complete when the analysis succeeded, passed the completeness check and
    the subscriber's delivery went through, and Error in every other case.
    This holds for every behaviour of the analysis, the sync and the
    archive. *)
Theorem no_page_is_left_analyzing (marketContext : option MarketContext)
    (i endIndex : Z) (item : I) (metrics : OrchestratorMetrics) (w : World) :
  DRY_RUN = false →
  NoDup (pageId <$> item_subscribers item) →
  (∀ s st, s ∈ item_subscribers item → pages_update s st = true) →
  let run := process_item now marketContext i endIndex item metrics in
  ∃ r, (analyzeWithRetry item 3).2 = Ok r ∧
    ∀ s, s ∈ item_subscribers item →
      let final := if success r && validateAnalysisComplete r
                      && delivers s (result_ticker r)
                   then Complete else Error in
      writes (pageId s) run.1 = [Analyzing; final] ∧
      page_status (replay w run.1) !! pageId s = Some final.
Proof.
  intros Hdry Hnd Hup run.
  destruct (analyzeWithRetry_returns item) as [r Hr]. exists r. split; [done|].
  destruct (analyzeWithRetry item 3) as [es_a r'] eqn:Hrun. simpl in Hr. subst r'.
  intros s Hs final.
  assert (writes (pageId s) run.1 = [Analyzing; final]) as Hwrites; last first.
  { split; [done|]. by rewrite replay_status, Hwrites. }
  assert (writes (pageId s) es_a = []) as Hes_a.
  { pose proof (analyzeWithRetry_from_events item 3 3 0) as Hev.
    unfold analyzeWithRetry in Hrun. rewrite Hrun in Hev.
    by apply (analysis_events_silent _ (pageId s)). }
  assert (writes (pageId s) (setAnalyzingStatus (item_subscribers item)).1 = [Analyzing])
    as Han.
  { rewrite setAnalyzingStatus_eq. cbn [fst].
    rewrite (writes_bind_unique _ _ s Hnd Hs).
    - simpl. rewrite (Hup s Analyzing Hs). by rewrite decide_True.
    - intros s' p Hne. simpl. destruct (pages_update s' Analyzing); [|done].
      by rewrite decide_False. }
  subst run.
  destruct (decide (success r = true ∧ validateAnalysisComplete r = true))
    as [[Hsucc Hv]|Hfail].
  - destruct (process_item_success now marketContext i endIndex item metrics es_a r
                Hdry Hrun Hsucc Hv) as (metrics' & pause & -> & Hpause & _).
    cbn [fst]. change (LogProcessing ?a ?b :: ?l) with ([LogProcessing a b] ++ l).
    rewrite !writes_app, Han, Hes_a. simpl.
    rewrite (writes_bind_unique (λ s, (broadcastToUser now s r).1) _ s Hnd Hs);
      [|intros s' p Hne; by apply broadcastToUser_other_page].
    assert (writes (pageId s) pause = []) as ->.
    { rewrite Hpause. by destruct (negb _ && _). }
    assert (writes (pageId s)
              (if 0 <? Z.of_nat (length (filter (λ o, fulfilled o)
                         ((λ s, (broadcastToUser now s r).2) <$> item_subscribers item)))
               then (uniqueSubscribers (item_subscribers item)
                       ((λ s, (broadcastToUser now s r).2) <$> item_subscribers item)).*2
                      ≫= (λ s, (create_history marketContext s).1)
               else []) = []) as ->.
    { destruct (0 <? Z.of_nat _); [|done]. apply create_history_writes. }
    rewrite !app_nil_r. subst final. rewrite Hsucc, Hv. simpl.
    destruct (delivers s (result_ticker r)) eqn:Hd.
    + destruct (broadcastToUser_delivered now s r Hd) as (_ & -> & _).
      by rewrite decide_True, (Hup s Complete Hs).
    + destruct (broadcastToUser_failed now s r Hd) as (_ & -> & _).
      by rewrite decide_True, (Hup s Error Hs).
  - assert (success r = false ∨ validateAnalysisComplete r = false) as Hfail'.
    { destruct (success r), (validateAnalysisComplete r); auto.
      exfalso. by apply Hfail. }
    destruct (process_item_failure now marketContext i endIndex item metrics es_a r
                Hdry Hrun Hfail') as (message & metrics' & -> & _).
    cbn [fst]. change (LogProcessing ?a ?b :: ?l) with ([LogProcessing a b] ++ l).
    rewrite !writes_app, Han, Hes_a. simpl.
    destruct (broadcastError_eq now (item_subscribers item) message (item_ticker item))
      as [context ->]. cbn [fst].
    rewrite (writes_bind_unique _ _ s Hnd Hs).
    + rewrite setAnalysisError_eq. simpl. rewrite (Hup s Error Hs), decide_True by done.
      subst final. by destruct Hfail' as [->| ->]; rewrite ?andb_false_r.
    + intros s' p Hne. rewrite setAnalysisError_eq. simpl.
      destruct (pages_update s' Error); [|done]. by rewrite decide_False.
Qed.
End PageLife.

Lemma no_page_is_left_analyzing_witness :
  let run := @process_item Sample.api Sample.config _ _ Sample.clock None 0 1
               Sample.one_bad_page Sample.zero_metrics in
  ∃ r, (@analyzeWithRetry Sample.api _ _ Sample.one_bad_page 3).2 = Ok r ∧
    ∀ s, s ∈ item_subscribers Sample.one_bad_page →
      let final := if success r && @validateAnalysisComplete Sample.api r
                      && @delivers Sample.api s (result_ticker r)
                   then Complete else Error in
      writes (pageId s) run.1 = [Analyzing; final] ∧
      page_status (replay empty_world run.1) !! pageId s = Some final.
Proof.
  apply (@no_page_is_left_analyzing Sample.api Sample.config _ _ Sample.clock None 0 1
           Sample.one_bad_page Sample.zero_metrics empty_world).
  - reflexivity.
  - apply (bool_decide_unpack _). by vm_compute.
  - reflexivity.
Defined.

Lemma unique_foldl_invariant (g : Subscriber → Result unit) l u :
  NoDup u.*1 → (∀ k s, (k, s) ∈ u → k = userId s) →
  NoDup (foldl (unique_step g) u l).*1 ∧
  ∀ k s, (k, s) ∈ foldl (unique_step g) u l →
    k = userId s ∧ ((k, s) ∈ u ∨ (s ∈ l ∧ fulfilled (g s))).
Proof.
  revert u. induction l as [|s0 l IH]; intros u Hnd Hkeys; simpl.
  { split; [done|]. intros k s Hin. split; [by apply Hkeys|by left]. }
  assert (NoDup (unique_step g u s0).*1 ∧
          ∀ k s, (k, s) ∈ unique_step g u s0 →
            k = userId s ∧ ((k, s) ∈ u ∨ (s = s0 ∧ fulfilled (g s0)))) as [Hnd' Hstep].
  { unfold unique_step. destruct (fulfilled (g s0)) eqn:Hok.
    - destruct (Map_has u (userId s0)) eqn:Hhas.
      + split; [done|]. intros k s Hin. split; [by apply Hkeys|by left].
      + split; [by apply Map_set_NoDup|]. intros k s Hin.
        assert (Map_get (Map_set u (userId s0) s0) k = Some s) as Hget
          by (apply Map_elem_of_get; [by apply Map_set_NoDup|done]).
        rewrite Map_get_set in Hget. case_decide as Heq.
        * injection Hget as <-. subst k. split; [done|]. by right.
        * apply Map_get_elem_of in Hget. split; [by apply Hkeys|by left].
    - split; [done|]. intros k s Hin. split; [by apply Hkeys|by left]. }
  destruct (IH (unique_step g u s0) Hnd') as [Hnd'' Hall].
  { intros k s Hin. by apply Hstep. }
  split; [done|]. intros k s Hin.
  destruct (Hall k s Hin) as [Hk [Hu|[Hl Hok]]].
  - destruct (Hstep k s Hu) as [_ [?|[-> ?]]]; split; auto.
    right. split; [left|done].
  - split; [done|]. right. split; [by right|done].
Qed.

Section ArchivePerTenant.
Context `{EngineAPI} `{EngineConfig} {I : Type} `{QueueItemLike I}.
Context (now : Date).

Lemma broadcastToUser_no_archive s r : archive_attempts (broadcastToUser now s r).1 = [].
Proof.
  apply (omap_silent (λ e, match e with Archive _ _ _ => False | _ => True end));
    [|by intros []].
  unfold broadcastToUser. simpl.
  destruct (syncToNotion s (result_ticker r) 0) as [id0|m0];
    [destruct (falsy id0)|]; simpl;
    try (destruct (syncToNotion s (result_ticker r) 1) as [id1|m1];
         [destruct (falsy id1)|]; simpl).
  all: rewrite ?setAnalysisError_eq; unfold update_page; simpl.
  all: try destruct (pages_update s Complete); simpl.
  all: try destruct (pages_update s Error); simpl.
  all: by repeat constructor.
Qed.

(** X16.  One archive write per tenant and subject.  In one turn of the
    loop no tenant's history is written twice, even when the tenant has
    several pages for the subject: the archive writes attempted carry
    distinct tenant ids.  Each of them is made for a subscriber of the
    subject whose delivery went through, after an analysis that succeeded
    and passed the completeness check; and every tenant with such a
    subscriber gets one. *)
Theorem one_archive_per_tenant (marketContext : option MarketContext)
    (i endIndex : Z) (item : I) (metrics : OrchestratorMetrics) :
  DRY_RUN = false →
  let run := process_item now marketContext i endIndex item metrics in
  ∃ r, (analyzeWithRetry item 3).2 = Ok r ∧
    NoDup (archive_attempts run.1).*1 ∧
    (∀ user page, (user, page) ∈ archive_attempts run.1 →
       success r = true ∧ validateAnalysisComplete r = true ∧
       ∃ s, s ∈ item_subscribers item ∧ userId s = user ∧ pageId s = page ∧
            delivers s (result_ticker r) = true) ∧
    (success r = true → validateAnalysisComplete r = true →
     ∀ s, s ∈ item_subscribers item → delivers s (result_ticker r) = true →
       userId s ∈ (archive_attempts run.1).*1).
Proof.
  intros Hdry run.
  destruct (analyzeWithRetry_returns item) as [r Hr]. exists r. split; [done|].
  destruct (analyzeWithRetry item 3) as [es_a r'] eqn:Hrun. simpl in Hr. subst r'.
  assert (archive_attempts es_a = []) as Hes_a.
  { pose proof (analyzeWithRetry_from_events item 3 3 0) as Hev.
    unfold analyzeWithRetry in Hrun. rewrite Hrun in Hev.
    apply (omap_silent analysis_event); [done|by intros []]. }
  assert (archive_attempts (setAnalyzingStatus (item_subscribers item)).1 = []) as Han.
  { rewrite setAnalyzingStatus_eq. by apply omap_bind_nil. }
  subst run.
  destruct (decide (success r = true ∧ validateAnalysisComplete r = true))
    as [[Hsucc Hv]|Hfail].
  - destruct (process_item_success now marketContext i endIndex item metrics es_a r
                Hdry Hrun Hsucc Hv) as (metrics' & pause & -> & Hpause & _).
    cbn [fst]. unfold archive_attempts in *. csimpl.
    rewrite !omap_app, Han, Hes_a.
    rewrite (omap_bind_nil _ (λ s, (broadcastToUser now s r).1))
      by (intros; apply broadcastToUser_no_archive).
    assert (omap (λ e, match e with
                       | Archive user page _ => Some (user, page) | _ => None
                       end) pause = []) as ->.
    { rewrite Hpause. by destruct (negb _ && _). }
    rewrite app_nil_r. simpl.
    set (g := λ s, (broadcastToUser now s r).2).
    rewrite (uniqueSubscribers_foldl g).
    destruct (unique_foldl_invariant g (item_subscribers item) []) as [Hnd Hall];
      [constructor|by intros ?? ?%elem_of_nil|].
    set (u := foldl (unique_step g) [] (item_subscribers item)) in *.
    assert (omap (λ e, match e with
                       | Archive user page _ => Some (user, page) | _ => None
                       end) (u.*2 ≫= λ s, (create_history marketContext s).1)
            = (λ e, (e.1, pageId e.2)) <$> u) as Hhist.
    { clear Hnd. induction u as [|[k s] u IH]; [done|]. csimpl.
      destruct (Hall k s) as [-> _]; [left|].
      destruct (create_history_eq marketContext s) as (created & ok & -> & _).
      csimpl. f_equal. apply IH. intros k' s' Hin. apply Hall. by right. }
    assert (∀ s, fulfilled (g s) ↔ delivers s (result_ticker r) = true) as Hg.
    { intros s. unfold g. rewrite broadcastToUser_fulfilled.
      by destruct (delivers s (result_ticker r)). }
    destruct (0 <? Z.of_nat _) eqn:Hany.
    + rewrite Hhist. split_and!.
      * by rewrite <- list_fmap_compose.
      * intros user page ([k s] & [= -> ->] & Hin)%list_elem_of_fmap. simpl.
        split_and!; [done..|]. exists s.
        destruct (Hall k s Hin) as [-> [?%elem_of_nil|[Hs Hok]]]; [done|].
        split_and!; [done..|]. by apply Hg.
      * intros _ _ s Hs Hd. rewrite <- list_fmap_compose.
        destruct (unique_foldl_represents g (item_subscribers item) [] s Hs)
          as (s' & Hget & _); [by apply Hg|].
        apply Map_get_elem_of in Hget. fold u in Hget.
        by apply (list_elem_of_fmap_2 fst) in Hget.
    + split_and!; [constructor|by intros ?? ?%elem_of_nil|].
      intros _ _ s Hs Hd. exfalso. apply Z.ltb_ge in Hany.
      assert (g s ∈ filter (λ o, fulfilled o) (g <$> item_subscribers item)) as Hin.
      { apply list_elem_of_filter. split; [by apply Hg|by apply list_elem_of_fmap_2]. }
      destruct (filter (λ o, fulfilled o) (g <$> item_subscribers item));
        [by apply elem_of_nil in Hin|simpl in Hany; lia].
  - assert (success r = false ∨ validateAnalysisComplete r = false) as Hfail'.
    { destruct (success r), (validateAnalysisComplete r); auto.
      exfalso. by apply Hfail. }
    destruct (process_item_failure now marketContext i endIndex item metrics es_a r
                Hdry Hrun Hfail') as (message & metrics' & -> & _).
    cbn [fst]. unfold archive_attempts in *. csimpl.
    rewrite !omap_app, Han, Hes_a.
    destruct (broadcastError_eq now (item_subscribers item) message (item_ticker item))
      as [context ->]. cbn [fst].
    rewrite omap_bind_nil.
    + split_and!; [constructor|by intros ?? ?%elem_of_nil|].
      intros Hs Hv. exfalso. apply Hfail. done.
    + intros s _. rewrite setAnalysisError_eq. simpl.
      by destruct (pages_update s Error).
Qed.
End ArchivePerTenant.

Lemma one_archive_per_tenant_witness :
  let run := @process_item Sample.api Sample.config _ _ Sample.clock None 0 1
               Sample.two_pages_one_tenant Sample.zero_metrics in
  ∃ r, (@analyzeWithRetry Sample.api _ _ Sample.two_pages_one_tenant 3).2 = Ok r ∧
    NoDup (archive_attempts run.1).*1 ∧
    (∀ user page, (user, page) ∈ archive_attempts run.1 →
       success r = true ∧ @validateAnalysisComplete Sample.api r = true ∧
       ∃ s, s ∈ item_subscribers Sample.two_pages_one_tenant ∧
            userId s = user ∧ pageId s = page ∧
            @delivers Sample.api s (result_ticker r) = true) ∧
    (success r = true → @validateAnalysisComplete Sample.api r = true →
     ∀ s, s ∈ item_subscribers Sample.two_pages_one_tenant →
       @delivers Sample.api s (result_ticker r) = true →
       userId s ∈ (archive_attempts run.1).*1).
Proof.
  apply (@one_archive_per_tenant Sample.api Sample.config _ _ Sample.clock None 0 1
           Sample.two_pages_one_tenant Sample.zero_metrics).
  reflexivity.
Defined.

(** ** More on the queue store *)

Section StoreOperations.
Context `{RedisService} `{NumberRuntime}.

(** X17.  The status follows the store.  On a serving store, the status of
    the day's queue reads, right after [saveQueueToRedis]: present, nothing
    processed, everything remaining; after [updateProcessedCount] to a
    cursor: that cursor as processed, the rest as remaining, complete exactly
    when the cursor has reached the total, and the time of the update as the
    last chunk; and after [deleteQueue]: no queue. *)
Theorem queue_status_follows_the_store (now later : Date) (queue : list QueueItem)
    (ctx : option MarketContext) (size count : Z) (b : Backend) :
  credentials_missing = false →
  (∀ n, availability n = Serves) →
  let key := today_key now in
  let total := Z.of_nat (length queue) in
  let saved := (saveQueueToRedis now queue ctx size b).2 in
  let updated := (updateProcessedCount later key count saved).2 in
  let deleted := (deleteQueue key updated).2 in
  (getQueueStatus now None saved).1
    = Ok {| status_exists := true; status_queueId := Some key;
            status_totalItems := Some total; status_processedItems := Some 0;
            status_remainingItems := Some total;
            status_progress := Some (round_percent 0 total);
            status_isComplete := Some (total <=? 0);
            status_createdAt := Some (toISOString now);
            status_lastChunkAt := None |} ∧
  (getQueueStatus now None updated).1
    = Ok {| status_exists := true; status_queueId := Some key;
            status_totalItems := Some total; status_processedItems := Some count;
            status_remainingItems := Some (total - count);
            status_progress := Some (round_percent count total);
            status_isComplete := Some (total <=? count);
            status_createdAt := Some (toISOString now);
            status_lastChunkAt := Some (toISOString later) |} ∧
  (getQueueStatus now None deleted).1
    = Ok {| status_exists := false; status_queueId := None;
            status_totalItems := None; status_processedItems := None;
            status_remainingItems := None; status_progress := None;
            status_isComplete := None; status_createdAt := None;
            status_lastChunkAt := None |}.
Proof.
  intros Hcred Hserve key total saved updated deleted.
  subst deleted updated saved.
  rewrite (save_serving Hcred Hserve). cbn [snd].
  erewrite (update_serving Hcred Hserve) by (simpl; apply lookup_insert_eq).
  cbn [snd]. rewrite (delete_serving Hcred Hserve). cbn [snd].
  unfold getQueueStatus. rewrite !(load_serving Hcred Hserve). cbn [data].
  fold key. rewrite lookup_delete_eq, !lookup_insert_eq. simpl.
  split_and!; try done. by rewrite Z.sub_0_r.
Qed.

(** X18.  The cursor update reads, changes two fields and writes back.
    On a serving store, [updateProcessedCount] on a key that holds no queue
    rejects with "Queue not found" after its read and writes nothing; on a
    key that holds a queue it resolves, and the queue loaded afterwards is
    the stored one with the new cursor and the time of the update as its
    last chunk, its items, total, creation time, market context and chunk
    size being as they were. *)
Theorem cursor_update_round_trip (now later : Date) (count : Z) (b : Backend) :
  credentials_missing = false →
  (∀ n, availability n = Serves) →
  let key := today_key now in
  let update := updateProcessedCount later key count b in
  (data b !! key = None →
   update.1 = Throw "Queue not found" ∧
   data update.2 = data b ∧
   received update.2 = received b ++ [GET key]) ∧
  (∀ doc, data b !! key = Some doc →
   update.1 = Ok tt ∧
   ∃ loaded,
     (loadQueueFromRedis now None update.2).1 = Ok (Some loaded) ∧
     processedCount loaded = count ∧
     lastChunkAt loaded = Some (toISOString later) ∧
     id loaded = id doc ∧ items loaded = items doc ∧
     totalCount loaded = totalCount doc ∧ createdAt loaded = createdAt doc ∧
     marketContext loaded = marketContext doc ∧ chunkSize loaded = chunkSize doc).
Proof.
  intros Hcred Hserve key update. subst update. split.
  - intros Hnone. unfold updateProcessedCount, fetch. rewrite Hcred, Hserve. simpl.
    by rewrite Hnone.
  - intros doc Hdoc. rewrite (update_serving Hcred Hserve _ _ _ _ doc Hdoc).
    split; [done|]. cbn [snd]. rewrite (load_serving Hcred Hserve). cbn [data fst].
    fold key. rewrite lookup_insert_eq. by eexists.
Qed.

Lemma fetch_frame request b other :
  match request with SET k _ | DEL k => k ≠ other | _ => True end →
  data (fetch request b).2 !! other = data b !! other.
Proof.
  intros Hkey. unfold fetch.
  destruct (availability (length (received b))); try done.
  destruct request as [k v|k|k seconds|k]; simpl; try done.
  - by rewrite lookup_insert_ne.
  - by rewrite lookup_delete_ne.
Qed.

(** X19.  No operation touches another queue.  Whatever the store
    answers, [saveQueueToRedis], [updateProcessedCount] and [deleteQueue]
    leave every key other than their own as it was, and
    [loadQueueFromRedis] changes no key at all. *)
Theorem other_queues_are_untouched (now : Date) (queue : list QueueItem)
    (ctx : option MarketContext) (size count : Z) (date : option string)
    (queueId : string) (b : Backend) :
  (∀ other, other ≠ today_key now →
     data (saveQueueToRedis now queue ctx size b).2 !! other = data b !! other) ∧
  (∀ other, other ≠ queueId →
     data (updateProcessedCount now queueId count b).2 !! other = data b !! other) ∧
  (∀ other, other ≠ queueId →
     data (deleteQueue queueId b).2 !! other = data b !! other) ∧
  data (loadQueueFromRedis now date b).2 = data b.
Proof.
  split_and!.
  - intros other Hne. unfold saveQueueToRedis.
    destruct credentials_missing; [done|].
    match goal with |- context [fetch ?r b] =>
      pose proof (fetch_frame r b other) as Hset;
      destruct (fetch r b) as [[response|message] b1] end;
      simpl in Hset; rewrite <- Hset by done; [|done].
    destruct (negb (response_ok response)); [done|].
    match goal with |- context [fetch ?r b1] =>
      pose proof (fetch_frame r b1 other) as Hexp;
      destruct (fetch r b1) as [[response'|message'] b2] end;
      simpl in Hexp; by rewrite <- Hexp.
  - intros other Hne. unfold updateProcessedCount.
    destruct credentials_missing; [done|].
    match goal with |- context [fetch ?r b] =>
      pose proof (fetch_frame r b other) as Hget;
      destruct (fetch r b) as [[response|message] b1] end;
      simpl in Hget; rewrite <- Hget by done; [|done].
    destruct (negb (response_ok response)); [done|].
    destruct (response_result response) as [doc|]; [|done].
    match goal with |- context [fetch ?r b1] =>
      pose proof (fetch_frame r b1 other) as Hset;
      destruct (fetch r b1) as [[response'|message'] b2] end;
      simpl in Hset; by rewrite <- Hset.
  - intros other Hne. unfold deleteQueue.
    destruct credentials_missing; [done|].
    match goal with |- context [fetch ?r b] =>
      pose proof (fetch_frame r b other) as Hdel;
      destruct (fetch r b) as [[response|message] b1] end;
      simpl in Hdel; by rewrite <- Hdel.
  - unfold loadQueueFromRedis. destruct credentials_missing; [done|].
    unfold fetch. destruct (availability _); simpl; try done.
    destruct (negb _); [|done]. by case_decide.
Qed.
End StoreOperations.

Lemma queue_status_follows_the_store_witness :
  (@getQueueStatus Sample.redis Sample.percent Sample.clock None
     (@saveQueueToRedis Sample.redis Sample.clock Sample.fail_then_ok None 8
        empty_backend).2).1
  = Ok {| status_exists := true;
          status_queueId := Some (today_key Sample.clock);
          status_totalItems := Some 2; status_processedItems := Some 0;
          status_remainingItems := Some 2;
          status_progress := Some (Num 0);
          status_isComplete := Some false;
          status_createdAt := Some (toISOString Sample.clock);
          status_lastChunkAt := None |}.
Proof.
  exact (proj1 (@queue_status_follows_the_store Sample.redis Sample.percent
                  Sample.clock Sample.clock Sample.fail_then_ok None 8 1 empty_backend
                  eq_refl (λ _, eq_refl))).
Defined.

Lemma cursor_update_round_trip_witness :
  (@updateProcessedCount Sample.redis Sample.clock (today_key Sample.clock) 1
     empty_backend).1 = Throw "Queue not found".
Proof.
  destruct (@cursor_update_round_trip Sample.redis Sample.clock Sample.clock 1
              empty_backend eq_refl (λ _, eq_refl)) as [Hmissing _].
  apply Hmissing. reflexivity.
Defined.

(** ** More on the entry point *)

Lemma remove_first_prefix p s : remove_first p (p +:+ s) = s.
Proof.
  assert (∀ t, remove_first p t
               = if String.prefix p t then drop_string (String.length p) t
                 else match t with
                      | EmptyString => EmptyString
                      | String c t' => String c (remove_first p t')
                      end) as Hunfold by (by intros []).
  by rewrite Hunfold, prefix_app, drop_string_app.
Qed.

Lemma prefix_before_T p s :
  String.prefix p (before_T s) = true →
  String.prefix p s = true.
Proof.
  revert s. induction p as [|c p IH]; intros s; [by destruct s|].
  destruct s as [|c' s]; simpl; [done|].
  case_decide as HT; simpl; [done|].
  destruct (Ascii.ascii_dec c c'); [apply IH|done].
Qed.

Section Gate.
Context `{StringRuntime} `{CollectorAPI} `{EngineAPI} `{EngineConfig}
        `{RedisService} `{CronEnv}.

(** X20.  Only the cron secret opens the entry point.  A request without
    an authorization header is not authorized, and with an empty
    [CRON_SECRET] no request is; a request with a header is authorized
    exactly when the header, its first "Bearer " removed, is the non-empty
    secret, so the header "Bearer <secret>" is.  A request that is not
    authorized is answered 401 and nothing is read, written or analysed. *)
Theorem only_the_cron_secret_opens_the_handler (req : VercelRequest) :
  (authorization req = None → ¬ authorized req) ∧
  (CRON_SECRET = "" → ¬ authorized req) ∧
  (∀ header, authorization req = Some header →
     authorized req ↔ remove_first "Bearer " header = CRON_SECRET ∧ CRON_SECRET ≠ "") ∧
  (CRON_SECRET ≠ "" → authorization req = Some ("Bearer " +:+ CRON_SECRET) →
   authorized req) ∧
  (¬ authorized req → ∀ now b, handler req now b = (Unauthorized, b, [])).
Proof.
  assert (∀ header, authorization req = Some header →
            authorized req
            ↔ remove_first "Bearer " header = CRON_SECRET ∧ CRON_SECRET ≠ "") as Hiff.
  { intros header Hh. unfold authorized. rewrite Hh. simpl.
    rewrite orb_false_iff, negb_false_iff, !bool_decide_eq_false, bool_decide_eq_true.
    split.
    - intros [Hne [= Heq]]. split; [done|]. by rewrite <- Heq.
    - intros [Heq Hne]. split; [by rewrite Heq|by rewrite Heq]. }
  split_and!.
  - intros Hnone. unfold authorized. by rewrite Hnone.
  - intros Hempty. destruct (authorization req) as [header|] eqn:Hh.
    + rewrite (Hiff header eq_refl). tauto.
    + unfold authorized. by rewrite Hh.
  - done.
  - intros Hne Hh. apply (Hiff _ Hh). by rewrite remove_first_prefix.
  - intros Hno now b. unfold handler. unfold authorized in Hno.
    by destruct (falsy _ || negb _).
Qed.

(** X21.  The market is closed on weekends and on the holidays of 2025.
    [checkNYSEMarketDay] is false exactly on a Saturday, on a Sunday and on
    the nine dates of its list; on a date that is not of 2025 it is false
    on weekends only.  On a closed day an authorized request is answered
    with "market closed" and nothing is read, written or analysed. *)
Theorem market_is_closed_on_weekends_and_listed_days (today : Date) :
  (checkNYSEMarketDay today = false
   ↔ getDay today = 0 ∨ getDay today = 6
     ∨ before_T (toISOString today) ∈ holidays2025) ∧
  (String.prefix "2025-" (toISOString today) = false →
   checkNYSEMarketDay today = negb (bool_decide (getDay today = 0 ∨ getDay today = 6))) ∧
  (checkNYSEMarketDay today = false →
   ∀ req b, authorized req → handler req today b = (MarketClosed, b, [])).
Proof.
  split_and!.
  - unfold checkNYSEMarketDay. repeat case_bool_decide; split; try done; tauto.
  - intros Hyear. unfold checkNYSEMarketDay.
    case_bool_decide as Hweekend; [done|].
    case_bool_decide as Hlisted; [|done]. exfalso.
    assert (String.prefix "2025-" (before_T (toISOString today)) = true) as Hp.
    { unfold holidays2025 in Hlisted.
      repeat (apply elem_of_cons in Hlisted as [->|Hlisted]; [done|]).
      by apply elem_of_nil in Hlisted. }
    apply prefix_before_T in Hp. congruence.
  - intros Hclosed req b Hauth. unfold handler.
    unfold authorized in Hauth. simpl in Hauth. by rewrite Hauth, Hclosed.
Qed.

(** X22.  Without store credentials nothing runs.  When the URL or the
    token of the store is not configured, each of the four store operations
    rejects with "Redis credentials not configured" without sending a
    request, and an authorized invocation on a market day is answered 500
    with that message, nothing being collected or analysed. *)
Theorem missing_credentials_stop_the_run (req : VercelRequest) (now : Date)
    (queue : list QueueItem) (ctx : option MarketContext) (size count : Z)
    (date : option string) (queueId : string) (b : Backend) :
  credentials_missing = true →
  let message := "Redis credentials not configured" in
  saveQueueToRedis now queue ctx size b = (Throw message, b) ∧
  loadQueueFromRedis now date b = (Throw message, b) ∧
  updateProcessedCount now queueId count b = (Throw message, b) ∧
  deleteQueue queueId b = (Throw message, b) ∧
  (authorized req → checkNYSEMarketDay now = true →
   handler req now b = (InternalError message, b, [])).
Proof.
  intros Hmissing message.
  unfold saveQueueToRedis, loadQueueFromRedis, updateProcessedCount, deleteQueue.
  rewrite Hmissing. split_and!; [done..|].
  intros Hauth Hday. unfold handler, loadQueueFromRedis.
  unfold authorized in Hauth. simpl in Hauth. by rewrite Hauth, Hday, Hmissing.
Qed.
End Gate.

Lemma missing_credentials_stop_the_run_witness :
  @handler Sample.runtime Sample.collector Sample.api Sample.config
    Sample.redis_unconfigured Sample.cron Sample.cron_request Sample.clock empty_backend
  = (InternalError "Redis credentials not configured", empty_backend, []).
Proof.
  apply (@missing_credentials_stop_the_run Sample.runtime Sample.collector Sample.api
           Sample.config Sample.redis_unconfigured Sample.cron Sample.cron_request
           Sample.clock [] None 8 0 None "" empty_backend);
    reflexivity.
Defined.

Section Invocations.
Context `{StringRuntime} `{CollectorAPI} `{EngineAPI} `{EngineConfig}
        `{RedisService} `{CronEnv}.

Lemma load_served now b :
  credentials_missing = false →
  availability (length (received b)) = Serves →
  loadQueueFromRedis now None b
  = (Ok (data b !! today_key now),
     {| data := data b; expiry := expiry b;
        received := received b ++ [GET (today_key now)] |}).
Proof. intros Hcred Hfirst. unfold loadQueueFromRedis, fetch. by rewrite Hcred, Hfirst. Qed.

Lemma load_unreachable now b :
  credentials_missing = false →
  availability (length (received b)) = NetworkDown →
  loadQueueFromRedis now None b
  = (Throw "fetch failed",
     {| data := data b; expiry := expiry b;
        received := received b ++ [GET (today_key now)] |}).
Proof. intros Hcred Hfirst. unfold loadQueueFromRedis, fetch. by rewrite Hcred, Hfirst. Qed.

(** X23.  A first run without requests.  On a store that is configured
    and serves every request and with a positive chunk size: when the day
    has no queue yet and no tenant requests anything, an authorized
    invocation on a market day still saves a queue, an empty one, moves its cursor to 0 and deletes
    it again: it analyses nothing, and it reports the first run complete
    with 0 items processed, as chunk 1 of 0. *)
Theorem first_run_without_requests (req : VercelRequest) (now : Date) (b : Backend)
    (users : list User) :
  credentials_missing = false → (∀ n, availability n = Serves) →
  authorized req → checkNYSEMarketDay now = true →
  0 < CHUNK_SIZE →
  data b !! today_key now = None → getAllUsers = Ok users →
  requests users = [] →
  let key := today_key now in
  ∃ summary b' doc,
    handler req now b = (ChunkDone summary, b', []) ∧
    mode summary = "first_run" ∧
    processedItems summary = 0 ∧ summary_totalTickers summary = 0 ∧
    isComplete summary = true ∧
    chunk summary = Num 1 ∧ totalChunks summary = Num 0 ∧
    items doc = [] ∧ totalCount doc = 0 ∧
    received b' = received b ++ [GET key; SET key doc; EXPIRE key QUEUE_TTL;
                                 GET key; SET key (advanced now doc 0); DEL key] ∧
    data b' !! key = None.
Proof.
  intros Hcred Hserve Hauth Hday Hchunk Hnone Husers Hreq key. unfold handler.
  unfold authorized in Hauth. simpl in Hauth. rewrite Hauth, Hday. simpl negb. cbv iota.
  rewrite (load_serving Hcred Hserve), Hnone, Husers.
  rewrite (proj2 (collectStockRequests_nil users) Hreq).
  change (buildPriorityQueue now []) with ([] : list QueueItem).
  rewrite (save_serving Hcred Hserve). simpl length. simpl Z.of_nat.
  rewrite Z.min_r by lia.
  unfold processQueue. simpl. unfold checkpoint.
  erewrite (update_serving Hcred Hserve) by (simpl; apply lookup_insert_eq).
  simpl. rewrite (delete_serving Hcred Hserve).
  eexists _, _,
    {| id := today_key now; items := []; processedCount := 0; totalCount := 0;
       createdAt := toISOString now; marketContext := fetchMarketContext;
       chunkSize := CHUNK_SIZE; lastChunkAt := None |}.
  split; [reflexivity|]. simpl.
  split_and!; try done.
  - unfold ceil_div. rewrite (proj2 (Z.eqb_neq _ _)) by lia. done.
  - by rewrite <- !(assoc_L (++)).
  - apply lookup_delete_eq.
Qed.

(** X24.  A checkpoint that fails keeps the cursor.  When the day's queue
    is in the store and the store becomes unreachable after the handler has
    loaded it, the handler still goes through the chunk that starts at the
    stored cursor, and then fails on the checkpoint: it answers 500, and
    the store holds the queue with its cursor where it was, so that the
    next invocation takes the same chunk again. *)
Theorem failed_checkpoint_keeps_the_cursor (req : VercelRequest) (now : Date)
    (b : Backend) (doc : Document) :
  credentials_missing = false →
  authorized req → checkNYSEMarketDay now = true →
  availability (length (received b)) = Serves →
  availability (S (length (received b))) = NetworkDown →
  data b !! today_key now = Some doc → 0 ≤ processedCount doc →
  let start := processedCount doc in
  let n := Z.min CHUNK_SIZE (totalCount doc - start) in
  ∃ b' es,
    handler req now b = (InternalError "fetch failed", b', es) ∧
    attempted es = seqZ start (Z.min (start + n) (Z.of_nat (length (items doc))) - start) ∧
    data b' = data b ∧
    received b' = received b ++ [GET (today_key now); GET (id doc)].
Proof.
  intros Hcred Hauth Hday Hfirst Hsecond Hdoc Hstart start n. unfold handler.
  unfold authorized in Hauth. simpl in Hauth. rewrite Hauth, Hday. simpl negb. cbv iota.
  rewrite (load_served now b Hcred Hfirst), Hdoc. fold start. fold n.
  destruct (processQueue_attempted now (items doc) (marketContext doc) start n Hstart)
    as (Hatt & metrics & Hok).
  destruct (processQueue now (items doc) (marketContext doc) start n) as [es r].
  simpl in Hatt, Hok. subst r.
  unfold checkpoint, updateProcessedCount, fetch. rewrite Hcred. cbn [received].
  rewrite length_app. simpl length. rewrite Nat.add_1_r, Hsecond.
  eexists _, es. split; [reflexivity|]. cbn [data received].
  split_and!; [done..|]. by rewrite <- !(assoc_L (++)).
Qed.

(** X25.  Nothing is analysed when the set-up fails.  On a market day an
    authorized invocation answers 500 without analysing anything and
    without changing the store when the store cannot be reached for the
    first read, when there is no queue yet and the tenants cannot be listed,
    and when there is no queue yet and the store cannot be reached for
    saving the new one. *)
Theorem nothing_is_analysed_when_setup_fails (req : VercelRequest) (now : Date)
    (b : Backend) :
  credentials_missing = false →
  authorized req → checkNYSEMarketDay now = true →
  let key := today_key now in
  let first := availability (length (received b)) in
  let second := availability (S (length (received b))) in
  (first = NetworkDown →
   ∃ b', handler req now b = (InternalError "fetch failed", b', []) ∧
         data b' = data b ∧ received b' = received b ++ [GET key]) ∧
  (first = Serves → data b !! key = None →
   ∀ message, getAllUsers = Throw message →
   ∃ b', handler req now b = (InternalError message, b', []) ∧
         data b' = data b ∧ received b' = received b ++ [GET key]) ∧
  (first = Serves → data b !! key = None →
   ∀ users, getAllUsers = Ok users → second = NetworkDown →
   ∃ b' doc, handler req now b = (InternalError "fetch failed", b', []) ∧
             data b' = data b ∧ received b' = received b ++ [GET key; SET key doc]).
Proof.
  intros Hcred Hauth Hday key first second. subst key first second. unfold handler.
  unfold authorized in Hauth. simpl in Hauth. rewrite Hauth, Hday. simpl negb. cbv iota.
  split_and!.
  - intros Hfirst. rewrite (load_unreachable now b Hcred Hfirst). by eexists.
  - intros Hfirst Hnone message ->. rewrite (load_served now b Hcred Hfirst), Hnone.
    by eexists.
  - intros Hfirst Hnone users -> Hsecond.
    rewrite (load_served now b Hcred Hfirst), Hnone.
    unfold saveQueueToRedis, fetch. rewrite Hcred. cbn [received].
    rewrite length_app. simpl length. rewrite Nat.add_1_r, Hsecond.
    eexists _, _. split; [reflexivity|]. cbn [data received]. split; [done|].
    by rewrite <- !(assoc_L (++)).
Qed.

(** X26.  A finished day leaves no trace.  On a serving store, when an
    invocation processes the last chunk of the day's queue it deletes the
    queue, and a further authorized invocation on the same day finds no
    queue and starts over: it collects the requests again, saves a new queue
    with cursor 0 and goes through its first chunk from index 0. *)
Theorem finished_day_starts_over (req : VercelRequest) (now now' : Date)
    (b : Backend) (doc : Document) (users : list User) :
  credentials_missing = false → (∀ n, availability n = Serves) →
  authorized req →
  checkNYSEMarketDay now = true → checkNYSEMarketDay now' = true →
  today_key now' = today_key now →
  data b !! today_key now = Some doc → id doc = today_key now →
  0 ≤ processedCount doc →
  totalCount doc - processedCount doc ≤ CHUNK_SIZE →
  getAllUsers = Ok users →
  let key := today_key now in
  let queue := buildPriorityQueue now' (collectStockRequests users) in
  ∃ r1 b1 es1 r2 b2 es2 saved,
    handler req now b = (ChunkDone r1, b1, es1) ∧
    isComplete r1 = true ∧ data b1 !! key = None ∧
    handler req now' b1 = (ChunkDone r2, b2, es2) ∧
    attempted es2 = seqZ 0 (Z.min CHUNK_SIZE (Z.of_nat (length queue))) ∧
    items saved = JSON_item <$> queue ∧ processedCount saved = 0 ∧
    [GET key; SET key saved] `prefix_of` drop (length (received b1)) (received b2).
Proof.
  intros Hcred Hserve Hauth Hday Hday' Hkey Hdoc Hid Hstart Hlast Husers key queue.
  destruct (handler_resume Hcred Hserve req now b doc Hauth Hday Hdoc Hid Hstart)
    as (r1 & b1 & es1 & Hrun1 & _ & _ & _ & Hcomplete1 & _ & Hdata1).
  rewrite Z.min_r in Hcomplete1, Hdata1 by lia.
  rewrite bool_decide_eq_true_2 in Hcomplete1, Hdata1 by lia.
  assert (data b1 !! today_key now' = None) as Hnone by (by rewrite Hkey).
  destruct (handler_first_run Hcred Hserve req now' b1 users Hauth Hday' Hnone Husers)
    as (r2 & b2 & es2 & Hrun2 & _ & Hatt2 & _ & _ & Hrec2 & _).
  fold queue in Hatt2, Hrec2. rewrite Hkey in Hrec2. fold key in Hrec2.
  exists r1, b1, es1, r2, b2, es2,
    {| id := key; items := JSON_item <$> queue; processedCount := 0;
       totalCount := Z.of_nat (length queue); createdAt := toISOString now';
       marketContext := fetchMarketContext; chunkSize := CHUNK_SIZE;
       lastChunkAt := None |}.
  split_and!; [done..| |done|done|].
  - rewrite Hatt2. f_equal. lia.
  - rewrite Hrec2, drop_app_length. simpl. do 2 apply prefix_cons. apply prefix_nil.
Qed.
End Invocations.

Lemma first_run_without_requests_witness :
  ∃ summary b' doc,
    @handler Sample.runtime Sample.collector Sample.api Sample.config Sample.redis
      Sample.cron_newcomer Sample.cron_request Sample.clock empty_backend
    = (ChunkDone summary, b', []) ∧
    mode summary = "first_run" ∧
    processedItems summary = 0 ∧ summary_totalTickers summary = 0 ∧
    isComplete summary = true ∧
    chunk summary = Num 1 ∧ totalChunks summary = Num 0 ∧
    items doc = [] ∧ totalCount doc = 0 ∧
    received b'
      = received empty_backend
          ++ [GET (today_key Sample.clock); SET (today_key Sample.clock) doc;
              EXPIRE (today_key Sample.clock) QUEUE_TTL;
              GET (today_key Sample.clock);
              SET (today_key Sample.clock) (advanced Sample.clock doc 0);
              DEL (today_key Sample.clock)] ∧
    data b' !! today_key Sample.clock = None.
Proof.
  apply (@first_run_without_requests Sample.runtime Sample.collector Sample.api
           Sample.config Sample.redis Sample.cron_newcomer Sample.cron_request
           Sample.clock empty_backend [Sample.newcomer]);
    try reflexivity.
Defined.

Lemma failed_checkpoint_keeps_the_cursor_witness :
  ∃ b' es,
    @handler Sample.runtime Sample.collector Sample.api Sample.config
      Sample.redis_dropping_second Sample.cron Sample.cron_request Sample.clock
      Sample.backend_with_queue
    = (InternalError "fetch failed", b', es) ∧
    attempted es = [0; 1] ∧
    data b' = data Sample.backend_with_queue.
Proof.
  destruct (@failed_checkpoint_keeps_the_cursor Sample.runtime Sample.collector
              Sample.api Sample.config Sample.redis_dropping_second Sample.cron
              Sample.cron_request Sample.clock Sample.backend_with_queue
              Sample.stored_queue)
    as (b' & es & Hrun & Hatt & Hdata & _);
    [reflexivity..|by vm_compute|].
  exists b', es. split_and!; [exact Hrun|exact Hatt|exact Hdata].
Defined.

Lemma nothing_is_analysed_when_setup_fails_witness :
  ∃ b',
    @handler Sample.runtime Sample.collector Sample.api Sample.config
      Sample.redis_down Sample.cron Sample.cron_request Sample.clock empty_backend
    = (InternalError "fetch failed", b', []) ∧
    data b' = data empty_backend.
Proof.
  destruct (@nothing_is_analysed_when_setup_fails Sample.runtime Sample.collector
              Sample.api Sample.config Sample.redis_down Sample.cron
              Sample.cron_request Sample.clock empty_backend)
    as [Hdown _]; [reflexivity..|].
  destruct (Hdown eq_refl) as (b' & Hrun & Hdata & _).
  exists b'. split; [exact Hrun|exact Hdata].
Defined.

Lemma finished_day_starts_over_witness :
  ∃ r1 b1 es1 r2 b2 es2,
    @handler Sample.runtime Sample.collector Sample.api Sample.config Sample.redis
      Sample.cron Sample.cron_request Sample.clock Sample.backend_with_queue
    = (ChunkDone r1, b1, es1) ∧
    isComplete r1 = true ∧
    @handler Sample.runtime Sample.collector Sample.api Sample.config Sample.redis
      Sample.cron Sample.cron_request Sample.clock b1
    = (ChunkDone r2, b2, es2) ∧
    attempted es2 = [0; 1; 2; 3; 4; 5; 6; 7].
Proof.
  destruct (@finished_day_starts_over Sample.runtime Sample.collector Sample.api
              Sample.config Sample.redis Sample.cron Sample.cron_request
              Sample.clock Sample.clock Sample.backend_with_queue Sample.stored_queue
              [Sample.ann])
    as (r1 & b1 & es1 & r2 & b2 & es2 & saved & Hrun1 & Hc1 & _ & Hrun2 & Hatt2 & _);
    [reflexivity..|by vm_compute|by vm_compute|reflexivity|].
  exists r1, b1, es1, r2, b2, es2. split_and!; [exact Hrun1|exact Hc1|exact Hrun2|].
  rewrite Hatt2. reflexivity.
Defined.

Section Report.
Context `{StringRuntime} `{CollectorAPI} `{EngineAPI} `{EngineConfig}
        `{RedisService} `{CronEnv}.

Lemma ceil_div_mono a b c : 0 < c → a ≤ b →
  ∃ x y, ceil_div a c = Num x ∧ ceil_div b c = Num y ∧ x ≤ y.
Proof.
  intros Hc Hab. unfold ceil_div. rewrite (proj2 (Z.eqb_neq _ _)) by lia.
  eexists _, _. split_and!; [done..|].
  assert ((- b) `div` c ≤ (- a) `div` c) by (apply Z.div_le_mono; lia). lia.
Qed.

(** X27.  The chunk numbers of a resumed run.  On a serving store, with a
    positive chunk size and a stored cursor between 0 and the total, a
    resumed invocation reports the mode "resume", the new cursor as the
    processed items, the stored total as the total of subjects, and as chunk
    number and number of chunks the new cursor and the total divided by the
    chunk size and rounded up: the chunk number does not exceed the number
    of chunks and equals it when the run is reported complete. *)
Theorem resumed_run_reports_its_chunk (req : VercelRequest) (now : Date)
    (b : Backend) (doc : Document) :
  credentials_missing = false → (∀ n, availability n = Serves) →
  authorized req → checkNYSEMarketDay now = true →
  0 < CHUNK_SIZE →
  data b !! today_key now = Some doc → id doc = today_key now →
  0 ≤ processedCount doc ≤ totalCount doc →
  ∃ summary b' es number count,
    handler req now b = (ChunkDone summary, b', es) ∧
    mode summary = "resume" ∧
    processedItems summary
      = processedCount doc + Z.min CHUNK_SIZE (totalCount doc - processedCount doc) ∧
    summary_totalTickers summary = totalCount doc ∧
    isComplete summary = bool_decide (processedItems summary = totalCount doc) ∧
    chunk summary = ceil_div (processedItems summary) CHUNK_SIZE ∧
    totalChunks summary = ceil_div (totalCount doc) CHUNK_SIZE ∧
    chunk summary = Num number ∧ totalChunks summary = Num count ∧
    number ≤ count ∧
    (isComplete summary = true → number = count).
Proof.
  intros Hcred Hserve Hauth Hday Hchunk Hdoc Hid Hrange. unfold handler.
  unfold authorized in Hauth. simpl in Hauth. rewrite Hauth, Hday. simpl negb. cbv iota.
  rewrite (load_serving Hcred Hserve), Hdoc.
  set (start := processedCount doc).
  set (n := Z.min CHUNK_SIZE (totalCount doc - start)).
  destruct (processQueue_attempted now (items doc) (marketContext doc) start n)
    as (_ & metrics & Hok); [lia|].
  destruct (processQueue now (items doc) (marketContext doc) start n) as [es r].
  simpl in Hok. subst r.
  unfold checkpoint.
  erewrite (update_serving Hcred Hserve) by (simpl; by rewrite Hid).
  destruct (ceil_div_mono (start + n) (totalCount doc) CHUNK_SIZE)
    as (number & count & Hnumber & Hcount & Hle); [lia..|].
  destruct (totalCount doc <=? start + n) eqn:Hcomplete.
  - rewrite (delete_serving Hcred Hserve). apply Z.leb_le in Hcomplete.
    exists {| mode := "resume"; chunk := ceil_div (start + n) CHUNK_SIZE;
              totalChunks := ceil_div (totalCount doc) CHUNK_SIZE;
              processedItems := start + n; summary_totalTickers := totalCount doc;
              summary_metrics := metrics; isComplete := true |}.
    eexists _, es, number, count. split; [reflexivity|]. simpl.
    assert (start + n = totalCount doc) as Heq by lia.
    split_and!; try done.
    + by rewrite bool_decide_eq_true_2.
    + intros _. rewrite Heq in Hnumber. congruence.
  - apply Z.leb_gt in Hcomplete.
    exists {| mode := "resume"; chunk := ceil_div (start + n) CHUNK_SIZE;
              totalChunks := ceil_div (totalCount doc) CHUNK_SIZE;
              processedItems := start + n; summary_totalTickers := totalCount doc;
              summary_metrics := metrics; isComplete := false |}.
    eexists _, es, number, count. split; [reflexivity|]. simpl.
    split_and!; try done. by rewrite bool_decide_eq_false_2 by lia.
Qed.
End Report.

Lemma resumed_run_reports_its_chunk_witness :
  ∃ summary b' es number count,
    @handler Sample.runtime Sample.collector Sample.api Sample.config Sample.redis
      Sample.cron Sample.cron_request Sample.clock Sample.backend_with_queue
    = (ChunkDone summary, b', es) ∧
    mode summary = "resume" ∧
    chunk summary = Num number ∧ totalChunks summary = Num count ∧
    number ≤ count.
Proof.
  destruct (@resumed_run_reports_its_chunk Sample.runtime Sample.collector Sample.api
              Sample.config Sample.redis Sample.cron Sample.cron_request Sample.clock
              Sample.backend_with_queue Sample.stored_queue)
    as (summary & b' & es & number & count & Hrun & Hmode & _ & _ & _ & _ & _
        & Hnumber & Hcount & Hle & _);
    [reflexivity..|by vm_compute|].
  exists summary, b', es, number, count.
  split_and!; [exact Hrun|exact Hmode|exact Hnumber|exact Hcount|exact Hle].
Defined.
